(** * Loom backend: LLM router, structured-output recovery and similarity ranking

    Shallow embedding of [backend/llm_router.py] and [backend/embeddings.py].

    - Python [str] values are sequences of Unicode code points ([list N]).
    - The regular expressions of the source are kept as syntax trees and run by
      a backtracking matcher with Python's priority order.
    - [json.loads], [base64.b64decode], the provider calls, [np.dot] and
      [np.linalg.norm] are library code: the functions that use them take
      them as parameters, with every outcome the library has (a value or the
      exception it raises).
    - Python objects whose identity or mutation matters (chat turns, candidate
      mappings, lists) live in an explicit store. *)

From Stdlib Require Import ZArith NArith List Ascii String PrimFloat Permutation Sorted Lia.
From Stdlib Require Import SpecFloat FloatOps FloatAxioms.
From stdpp Require Import base option list sorting gmap.
Import ListNotations.

Set Default Proof Using "Type".
Set Warnings "-register-all".
Local Open Scope nat_scope.

(** ** Text *)

(** A code point, and a Python [str]. *)
Definition char : Type := N.
Definition str : Type := list char.

(** An ASCII literal as a [str]. *)
Definition lit (s : string) : str :=
  map N_of_ascii (list_ascii_of_string s).

(** The double quote and the backslash, which the literals above do not
    spell. *)
Definition dquote : char := 34%N.
Definition backslash : char := 92%N.
Definition newline : char := 10%N.

(** [quoted s] is [s] between double quotes. *)
Definition quoted (s : str) : str := dquote :: s ++ [dquote].

Definition char_eqb (a b : char) : bool := N.eqb a b.

Fixpoint str_eqb (a b : str) : bool :=
  match a, b with
  | [], [] => true
  | x :: a', y :: b' => char_eqb x y && str_eqb a' b'
  | _, _ => false
  end.

(** [str.isspace] on one code point (the test behind [str.strip] and the
    pattern class [\s] of a [str] pattern). *)
Definition isspace (c : char) : bool :=
  ((9 <=? c) && (c <=? 13) || (28 <=? c) && (c <=? 32)
   || (c =? 133) || (c =? 160) || (c =? 5760)
   || (8192 <=? c) && (c <=? 8202)
   || (c =? 8232) || (c =? 8233) || (c =? 8239) || (c =? 8287)
   || (c =? 12288))%N.

Fixpoint lstrip (s : str) : str :=
  match s with
  | c :: s' => if isspace c then lstrip s' else s
  | [] => []
  end.

Definition rstrip (s : str) : str := rev (lstrip (rev s)).

(** [s.strip()] *)
Definition strip (s : str) : str := rstrip (lstrip s).

(** [s.startswith(p)] *)
Fixpoint startswith (s p : str) : bool :=
  match p, s with
  | [], _ => true
  | c :: p', d :: s' => char_eqb c d && startswith s' p'
  | _ :: _, [] => false
  end.

(** [p in s] for strings. *)
Fixpoint contains (s p : str) : bool :=
  startswith s p ||
  match s with
  | [] => false
  | _ :: s' => contains s' p
  end.

(** [s.replace(old, new)] for a non-empty [old]: non-overlapping occurrences,
    left to right. The recursion is on a bound of [length s] steps. *)
Fixpoint replace_aux (n : nat) (s old new : str) : str :=
  match n with
  | O => s
  | S n' =>
      match s with
      | [] => []
      | c :: s' =>
          if startswith s old
          then new ++ replace_aux n' (skipn (length old) s) old new
          else c :: replace_aux n' s' old new
      end
  end.

Definition replace (s old new : str) : str :=
  replace_aux (length s) s old new.

(** [str(n)] of a natural number: its decimal digits. *)
Fixpoint uint_digits (d : Decimal.uint) : str :=
  match d with
  | Decimal.Nil => []
  | Decimal.D0 d' => 48%N :: uint_digits d'
  | Decimal.D1 d' => 49%N :: uint_digits d'
  | Decimal.D2 d' => 50%N :: uint_digits d'
  | Decimal.D3 d' => 51%N :: uint_digits d'
  | Decimal.D4 d' => 52%N :: uint_digits d'
  | Decimal.D5 d' => 53%N :: uint_digits d'
  | Decimal.D6 d' => 54%N :: uint_digits d'
  | Decimal.D7 d' => 55%N :: uint_digits d'
  | Decimal.D8 d' => 56%N :: uint_digits d'
  | Decimal.D9 d' => 57%N :: uint_digits d'
  end.

Definition str_of_nat (n : nat) : str := uint_digits (Nat.to_uint n).

(** ** Regular expressions ([re]) *)

Inductive regex : Type :=
| Eps
| Cls (p : char -> bool)
| Seq (r1 r2 : regex)
| Alt (r1 r2 : regex)
| Star (greedy : bool) (r : regex)
| Group (r : regex).

Definition Chr (c : char) : regex := Cls (char_eqb c).
Definition Any : regex := Cls (fun _ => true).
Definition Space : regex := Cls isspace.
Definition Opt (r : regex) : regex := Alt r Eps.

Fixpoint Lit (s : str) : regex :=
  match s with
  | [] => Eps
  | c :: s' => Seq (Chr c) (Lit s')
  end.

Fixpoint Seqs (rs : list regex) : regex :=
  match rs with
  | [] => Eps
  | r :: rs' => Seq r (Seqs rs')
  end.

(** What a successful match leaves: the unread input and group 1. *)
Definition match_state : Type := (str * option str)%type.

(** The matcher is written in continuation-passing style: a matcher reads a
    prefix of the input and hands group 1 and the unread input to its
    continuation; the first success of the continuation is the result. *)
Definition continuation : Type := option str -> str -> option match_state.
Definition matcher : Type := option str -> str -> continuation -> option match_state.

(** The iterations of a starred [body], at most [n] of them: one more
    iteration is tried first when the star is greedy, stopping is tried first
    when it is lazy. An iteration must consume input (every starred body of
    this program does). *)
Fixpoint star_loop (body : matcher) (greedy : bool) (k : continuation)
    (n : nat) (cap : option str) (s : str) {struct n} : option match_state :=
  match n with
  | O => k cap s
  | S n' =>
      let more (_ : unit) :=
        body cap s
          (fun cap' s' =>
             if length s' <? length s then star_loop body greedy k n' cap' s' else None) in
      if greedy
      then match more tt with
           | Some m => Some m
           | None => k cap s
           end
      else match k cap s with
           | Some m => Some m
           | None => more tt
           end
  end.

(** The backtracking matcher. Alternatives are tried in Python's order: the
    left branch of [Alt] first, then the right one. *)
Fixpoint rmatch (r : regex) (cap : option str) (s : str) (k : continuation)
    {struct r} : option match_state :=
  match r with
  | Eps => k cap s
  | Cls p =>
      match s with
      | c :: s' => if p c then k cap s' else None
      | [] => None
      end
  | Seq r1 r2 => rmatch r1 cap s (fun cap' s' => rmatch r2 cap' s' k)
  | Alt r1 r2 =>
      match rmatch r1 cap s k with
      | Some m => Some m
      | None => rmatch r2 cap s k
      end
  | Star greedy r1 => star_loop (rmatch r1) greedy k (length s) cap s
  | Group r1 =>
      rmatch r1 cap s (fun _ s' => k (Some (take (length s - length s') s)) s')
  end.

(** A match anchored at the start of [s]: group 0 and group 1. *)
Definition match_here (r : regex) (s : str) : option (str * option str) :=
  match rmatch r None s (fun cap rest => Some (rest, cap)) with
  | Some (rest, cap) => Some (take (length s - length rest) s, cap)
  | None => None
  end.

(** [re.search(r, s, re.DOTALL)]: the leftmost position with a match. *)
Fixpoint re_search (r : regex) (s : str) : option (str * option str) :=
  match match_here r s with
  | Some m => Some m
  | None =>
      match s with
      | [] => None
      | _ :: s' => re_search r s'
      end
  end.

Definition group0 (m : str * option str) : str := fst m.
Definition group1 (m : str * option str) : str := default [] (snd m).

(** The three patterns of [llm_router.py]. *)

(** [```(?:json)?\s*\n?(.*?)```] *)
Definition fence_re : regex :=
  Seqs [Lit (lit "```"); Opt (Lit (lit "json")); Star true Space;
        Opt (Chr newline); Group (Star false Any); Lit (lit "```")].

(** [\{.*\}] *)
Definition brace_re : regex :=
  Seqs [Chr 123%N; Star true Any; Chr 125%N].

(** The key [response] in double quotes, [\s*:\s*], then a double-quoted
    value captured as group 1: a greedy run of characters other than the
    double quote and the backslash, or a backslash and any character. *)
Definition response_re : regex :=
  Seqs [Lit (quoted (lit "response")); Star true Space; Chr 58%N; Star true Space;
        Chr dquote;
        Group (Star true (Alt (Cls (fun c => negb (char_eqb c dquote || char_eqb c backslash)))
                              (Seq (Chr backslash) Any)));
        Chr dquote].

(** ** JSON values, exceptions and results *)

(** What [json.loads] returns. A number with a fraction or an exponent, and the
    constants NaN and Infinity, keep their source text. An object keeps its
    keys in insertion order, each key once. *)
Inductive json : Type :=
| JNull
| JBool (b : bool)
| JInt (n : Z)
| JFloat (lexeme : str)
| JStr (s : str)
| JArr (items : list json)
| JObj (members : list (str * json)).

(** [d[k] = v] on a mapping kept in insertion order: a key that is present
    keeps its place. *)
Fixpoint dict_set (d : list (str * json)) (k : str) (v : json) : list (str * json) :=
  match d with
  | [] => [(k, v)]
  | (k', v') :: d' => if str_eqb k' k then (k', v) :: d' else (k', v') :: dict_set d' k v
  end.

(** [d.get(k)] *)
Fixpoint dict_get (d : list (str * json)) (k : str) : option json :=
  match d with
  | [] => None
  | (k', v) :: d' => if str_eqb k' k then Some v else dict_get d' k
  end.

(** The exceptions this code raises or lets through. [JSONDecodeError] and
    [BinasciiError] are subclasses of [ValueError] in Python, [RecursionError]
    is not; a provider call fails with an exception of the provider's
    library. *)
Inductive exn : Type :=
| ValueError (msg : str)
| JSONDecodeError
| BinasciiError
| RecursionError
| ProviderError (fault : str)
| TypeError
| KeyError (key : str).

Inductive result (A : Type) : Type :=
| Ok (a : A)
| Raise (e : exn).
Arguments Ok {A} a.
Arguments Raise {A} e.

Definition bind {A B : Type} (r : result A) (f : A -> result B) : result B :=
  match r with
  | Ok a => f a
  | Raise e => Raise e
  end.

Notation "x <- r ;; k" := (bind r (fun x => k))
  (at level 100, r at next level, right associativity).

(** The handler [except (ValueError, json.JSONDecodeError)]. *)
Definition caught_by_ValueError (e : exn) : bool :=
  match e with
  | ValueError _ | JSONDecodeError | BinasciiError => true
  | RecursionError | ProviderError _ | TypeError | KeyError _ => false
  end.

Definition try_except_ValueError {A : Type} (body : result A) (handler : result A) : result A :=
  match body with
  | Ok a => Ok a
  | Raise e => if caught_by_ValueError e then handler else Raise e
  end.

(** The handler [except json.JSONDecodeError]: a [ValueError] of another
    class is not caught. *)
Definition caught_by_JSONDecodeError (e : exn) : bool :=
  match e with
  | JSONDecodeError => true
  | _ => false
  end.

Definition try_except_JSONDecodeError {A : Type} (body : result A) (handler : result A) : result A :=
  match body with
  | Ok a => Ok a
  | Raise e => if caught_by_JSONDecodeError e then handler else Raise e
  end.

(** [text[:200]] *)
Definition prefix200 (text : str) : str := take 200 text.

(** ** A JSON reader

    [Json.loads] follows the decoder of Python's [json] module with its default
    settings: one value between optional blanks, strings in strict mode,
    the constants NaN, Infinity and -Infinity accepted, the last of two equal
    keys kept. Text that is not JSON raises [json.JSONDecodeError]; an
    integer of more digits than [int] converts raises a plain [ValueError];
    arrays and objects nested deeper than the interpreter follows raise
    [RecursionError]. It is the reader used to run the router on concrete
    texts. *)
Module Json.

(** The nesting the scanner follows: each array and each object takes one
    level of the interpreter's recursion limit, [sys.getrecursionlimit()],
    which is 1000 unless it was changed (the frames in use where
    [json.loads] is called come off it). *)
Definition recursion_limit : nat := 1000.

(** [sys.get_int_max_str_digits()], unless it was changed. *)
Definition int_max_str_digits : nat := 4300.

Definition int_limit_message (digits : nat) : str :=
  lit "Exceeds the limit (4300 digits) for integer string conversion: value has "
  ++ str_of_nat digits
  ++ lit " digits; use sys.set_int_max_str_digits() to increase the limit".

Definition is_ws (c : char) : bool :=
  ((c =? 32) || (c =? 9) || (c =? 10) || (c =? 13))%N.

Fixpoint skip_ws (s : str) : str :=
  match s with
  | c :: s' => if is_ws c then skip_ws s' else s
  | [] => []
  end.

Definition is_digit (c : char) : bool := ((48 <=? c) && (c <=? 57))%N.

Definition hex_value (c : char) : option N :=
  if is_digit c then Some (c - 48)%N
  else if ((97 <=? c) && (c <=? 102))%N then Some (c - 87)%N
  else if ((65 <=? c) && (c <=? 70))%N then Some (c - 55)%N
  else None.

(** Four hexadecimal digits at the head of [s]. *)
Definition hex4 (s : str) : option (N * str) :=
  match s with
  | a :: b :: c :: d :: rest =>
      match hex_value a, hex_value b, hex_value c, hex_value d with
      | Some x, Some y, Some z, Some w => Some (((x * 16 + y) * 16 + z) * 16 + w, rest)%N
      | _, _, _, _ => None
      end
  | _ => None
  end.

Definition is_high_surrogate (c : N) : bool := ((55296 <=? c) && (c <=? 56319))%N.
Definition is_low_surrogate (c : N) : bool := ((56320 <=? c) && (c <=? 57343))%N.

Definition simple_escape (c : char) : option char :=
  if (c =? 34)%N then Some 34%N
  else if (c =? 92)%N then Some 92%N
  else if (c =? 47)%N then Some 47%N
  else if (c =? 98)%N then Some 8%N
  else if (c =? 102)%N then Some 12%N
  else if (c =? 110)%N then Some 10%N
  else if (c =? 114)%N then Some 13%N
  else if (c =? 116)%N then Some 9%N
  else None.

(** The body of a string, after its opening quote: the decoded text and the
    input after the closing quote. *)
Fixpoint scanstring (fuel : nat) (s : str) (acc : str) : option (str * str) :=
  match fuel with
  | O => None
  | S fuel' =>
      match s with
      | [] => None
      | c :: rest =>
          if (c =? 34)%N then Some (rev acc, rest)
          else if (c =? 92)%N then
            match rest with
            | [] => None
            | e :: rest' =>
                if (e =? 117)%N then
                  match hex4 rest' with
                  | None => None
                  | Some (u, rest'') =>
                      match rest'' with
                      | 92%N :: 117%N :: low =>
                          if is_high_surrogate u && (4 <? length low) then
                            match hex4 low with
                            | None => None
                            | Some (u2, rest3) =>
                                if is_low_surrogate u2
                                then scanstring fuel' rest3
                                       ((65536 + (u - 55296) * 1024 + (u2 - 56320))%N :: acc)
                                else scanstring fuel' rest'' (u :: acc)
                            end
                          else scanstring fuel' rest'' (u :: acc)
                      | _ => scanstring fuel' rest'' (u :: acc)
                      end
                  end
                else
                  match simple_escape e with
                  | Some d => scanstring fuel' rest' (d :: acc)
                  | None => None
                  end
            end
          else if (c <=? 31)%N then None
          else scanstring fuel' rest (c :: acc)
      end
  end.

Fixpoint span_digits (s : str) : str * str :=
  match s with
  | c :: s' =>
      if is_digit c then let (d, r) := span_digits s' in (c :: d, r) else ([], s)
  | [] => ([], [])
  end.

Definition digits_value (d : str) : Z :=
  fold_left (fun acc c => (acc * 10 + Z.of_N (c - 48))%Z) d 0%Z.

(** A number: sign, integer part, then a fraction and an exponent when they
    are complete and something follows their first character. *)
Definition scan_number (s : str) : result (json * str) :=
  let (neg, s1) :=
    match s with
    | 45%N :: s' => (true, s')
    | _ => (false, s)
    end in
  match s1 with
  | [] => Raise JSONDecodeError
  | c :: s2 =>
      let int_part :=
        if (c =? 48)%N then Some ([c], s2)
        else if is_digit c then let (d, r) := span_digits s2 in Some (c :: d, r)
        else None in
      match int_part with
      | None => Raise JSONDecodeError
      | Some (ds, r) =>
          let (frac, r1) :=
            match r with
            | 46%N :: d :: r' =>
                if is_digit d
                then let (ds', r'') := span_digits r' in (46%N :: d :: ds', r'')
                else ([], r)
            | _ => ([], r)
            end in
          let (expo, r2) :=
            match r1 with
            | e :: after =>
                if ((e =? 101) || (e =? 69))%N then
                  match after with
                  | [] => ([], r1)
                  | sg :: after' =>
                      let (sign, body) :=
                        if ((sg =? 43) || (sg =? 45))%N then ([sg], after') else ([], after) in
                      let (ds', r') := span_digits body in
                      match ds' with
                      | [] => ([], r1)
                      | _ => (e :: sign ++ ds', r')
                      end
                  end
                else ([], r1)
            | [] => ([], r1)
            end in
          match frac, expo with
          | [], [] =>
              if int_max_str_digits <? length ds
              then Raise (ValueError (int_limit_message (length ds)))
              else Ok (JInt (if neg then - digits_value ds else digits_value ds)%Z, r2)
          | _, _ =>
              Ok (JFloat ((if neg then [45%N] else []) ++ ds ++ frac ++ expo), r2)
          end
      end
  end.

Definition keyword (s : str) (w : string) (v : json) : result (json * str) :=
  if startswith s (lit w) then Ok (v, drop (length (lit w)) s) else Raise JSONDecodeError.

(** [room] is the nesting that is left; [fuel] bounds the steps and is not
    used up on any text. *)
Fixpoint scan_once (fuel : nat) (room : nat) (s : str) : result (json * str) :=
  match fuel with
  | O => Raise JSONDecodeError
  | S fuel' =>
      match s with
      | [] => Raise JSONDecodeError
      | c :: rest =>
          if (c =? 34)%N then
            match scanstring (length rest) rest [] with
            | Some (t, r) => Ok (JStr t, r)
            | None => Raise JSONDecodeError
            end
          else if (c =? 123)%N then
            match room with
            | O => Raise RecursionError
            | S room' =>
                match skip_ws rest with
                | 125%N :: r => Ok (JObj [], r)
                | r => parse_members fuel' room' r []
                end
            end
          else if (c =? 91)%N then
            match room with
            | O => Raise RecursionError
            | S room' =>
                match skip_ws rest with
                | 93%N :: r => Ok (JArr [], r)
                | r => parse_items fuel' room' r []
                end
            end
          else if (c =? 110)%N then keyword s "null" JNull
          else if (c =? 116)%N then keyword s "true" (JBool true)
          else if (c =? 102)%N then keyword s "false" (JBool false)
          else if (c =? 78)%N then keyword s "NaN" (JFloat (lit "NaN"))
          else if (c =? 73)%N then keyword s "Infinity" (JFloat (lit "Infinity"))
          else if startswith s (lit "-Infinity")
          then keyword s "-Infinity" (JFloat (lit "-Infinity"))
          else scan_number s
      end
  end

with parse_members (fuel : nat) (room : nat) (s : str) (acc : list (str * json))
    : result (json * str) :=
  match fuel with
  | O => Raise JSONDecodeError
  | S fuel' =>
      match s with
      | 34%N :: rest =>
          match scanstring (length rest) rest [] with
          | None => Raise JSONDecodeError
          | Some (key, r) =>
              match skip_ws r with
              | 58%N :: r1 =>
                  match scan_once fuel' room (skip_ws r1) with
                  | Raise e => Raise e
                  | Ok (v, r2) =>
                      let acc' := dict_set acc key v in
                      match skip_ws r2 with
                      | 125%N :: r3 => Ok (JObj acc', r3)
                      | 44%N :: r3 => parse_members fuel' room (skip_ws r3) acc'
                      | _ => Raise JSONDecodeError
                      end
                  end
              | _ => Raise JSONDecodeError
              end
          end
      | _ => Raise JSONDecodeError
      end
  end

with parse_items (fuel : nat) (room : nat) (s : str) (acc : list json)
    : result (json * str) :=
  match fuel with
  | O => Raise JSONDecodeError
  | S fuel' =>
      match scan_once fuel' room s with
      | Raise e => Raise e
      | Ok (v, r) =>
          match skip_ws r with
          | 93%N :: r1 => Ok (JArr (rev (v :: acc)), r1)
          | 44%N :: r1 => parse_items fuel' room (skip_ws r1) (v :: acc)
          | _ => Raise JSONDecodeError
          end
      end
  end.

(** [json.loads(s)] for a [str], with [room] levels of nesting left. *)
Definition loads_within (room : nat) (s : str) : result json :=
  match s with
  | 65279%N :: _ => Raise JSONDecodeError
  | _ =>
      match scan_once (2 * length s + 2) room (skip_ws s) with
      | Ok (v, rest) =>
          match skip_ws rest with
          | [] => Ok v
          | _ => Raise JSONDecodeError
          end
      | Raise e => Raise e
      end
  end.

(** [json.loads(s)] for a [str]. *)
Definition loads (s : str) : result json := loads_within recursion_limit s.

End Json.

(** ** A base64 decoder *)

(** The two ways [base64.b64decode] fails on a [str]: a plain [ValueError]
    for text that is not ASCII, raised before the data is read, and
    [binascii.Error] for data that is not base64. *)
Inductive b64_failure : Type :=
| NotAscii
| Incorrect.

Definition b64_exn (f : b64_failure) : exn :=
  match f with
  | NotAscii => ValueError (lit "string argument should contain only ASCII characters")
  | Incorrect => BinasciiError
  end.

(** [Base64.b64decode] follows [base64.b64decode] with its default settings
    ([binascii.a2b_base64], not strict): characters outside the alphabet are
    skipped, a complete run of padding ends the data, and data that stops
    inside a group of four is an error. It is the decoder used to run the
    Gemini adapter on concrete attachments. *)
Module Base64.

Definition sextet (c : char) : option N :=
  if ((65 <=? c) && (c <=? 90))%N then Some (c - 65)%N
  else if ((97 <=? c) && (c <=? 122))%N then Some (c - 71)%N
  else if ((48 <=? c) && (c <=? 57))%N then Some (c + 4)%N
  else if (c =? 43)%N then Some 62%N
  else if (c =? 47)%N then Some 63%N
  else None.

(** The scan: [quad_pos] is the place in the group of four, [leftchar] the
    bits not yet written, [pads] the padding seen in a row, [out] the bytes
    in reverse. *)
Fixpoint a2b (s : str) (quad_pos : nat) (leftchar : N) (pads : nat) (out : list N)
    : option (list N) :=
  match s with
  | [] => if Nat.eqb quad_pos 0 then Some (rev out) else None
  | c :: s' =>
      if (c =? 61)%N then
        if (2 <=? quad_pos) && (4 <=? quad_pos + S pads)
        then Some (rev out)
        else a2b s' quad_pos leftchar (if 2 <=? quad_pos then S pads else pads) out
      else
        match sextet c with
        | None => a2b s' quad_pos leftchar pads out
        | Some v =>
            match quad_pos with
            | 0 => a2b s' 1 v 0 out
            | 1 => a2b s' 2 (N.land v 15) 0 (N.lor (N.shiftl leftchar 2) (N.shiftr v 4) :: out)
            | 2 => a2b s' 3 (N.land v 3) 0 (N.lor (N.shiftl leftchar 4) (N.shiftr v 2) :: out)
            | _ => a2b s' 0 0%N 0 (N.lor (N.shiftl leftchar 6) v :: out)
            end
        end
  end.

Definition b64decode (s : str) : b64_failure + list N :=
  if forallb (fun c => (c <? 128)%N) s
  then match a2b s 0 0%N 0 [] with
       | Some raw => inr raw
       | None => inl Incorrect
       end
  else inl NotAscii.

End Base64.

(** ** llm_router.py *)

Section Recovery.

(** [json.loads]: the value, or the exception it raises. *)
Variable json_loads : str -> result json.

Definition _extract_json (text : str) : result json :=
  if match text with [] => true | _ => false end
     || match strip text with [] => true | _ => false end
  then Raise (ValueError (lit "Empty response from LLM"))
  else
    let text := strip text in
    let fence_match := re_search fence_re text in
    let text :=
      match fence_match with
      | Some m => strip (group1 m)
      | None => text
      end in
    try_except_JSONDecodeError (json_loads text)
      (let json_match := re_search brace_re text in
       let failure :=
         Raise (ValueError (lit "Could not extract JSON from: " ++ prefix200 text)) in
       match json_match with
       | Some m => try_except_JSONDecodeError (json_loads (group0 m)) failure
       | None => failure
       end).

End Recovery.

Definition _FALLBACK : list (str * json) :=
  [(lit "response", JStr []);
   (lit "topic", JObj [(lit "name", JStr []);
                       (lit "matchedExistingId", JNull);
                       (lit "confidence", JInt 0)]);
   (lit "concepts", JArr [])].

(** The text of group 1 with escaped newlines and escaped quotes restored. *)
Definition unescape_response (g : str) : str :=
  replace (replace g [backslash; 110%N] [newline]) [backslash; dquote] [dquote].

Definition _fallback_response (raw : str) : json :=
  let m := re_search response_re raw in
  let text :=
    match m with
    | Some m => unescape_response (group1 m)
    | None => raw
    end in
  JObj (dict_set _FALLBACK (lit "response") (JStr text)).

Definition DEFAULT_MODEL : str := lit "gemini-2.5-flash".

Definition _route_provider (model : str) : str :=
  if startswith model (lit "gpt-") then lit "openai" else lit "gemini".

(** *** Requests *)

(** A chat turn: a dict object with the keys [role] and [content]. [msg_id] is
    the identity of the object, which is what [is] compares: two entries of a
    list with the same [msg_id] are one object listed twice. *)
Record message : Type := Message {
  msg_id : nat;
  msg_role : str;
  msg_content : str
}.

(** An attachment: the key [mimeType] may be absent, [data] is base64 text. *)
Record attachment : Type := Attachment {
  att_mimeType : option str;
  att_data : str
}.

(** [types.Part] and [types.Content] of the Gemini library. *)
Inductive part : Type :=
| Part_from_text (text : str)
| Part_from_bytes (data : list N) (mime_type : str).

Record Content : Type := MkContent {
  role : str;
  parts : list part
}.

Inductive tool : Type := GoogleSearch.

Record GenerateContentConfig : Type := MkConfig {
  system_instruction : str;
  response_mime_type : option str;
  thinking_budget : option Z;
  tools : list tool
}.

(** An OpenAI message: its content is a string or a list of typed parts. *)
Inductive content_part : Type :=
| text_part (text : str)
| image_url_part (url : str).

Inductive openai_content : Type :=
| content_str (s : str)
| content_parts (ps : list content_part).

Record openai_message : Type := OpenAIMessage {
  om_role : str;
  om_content : openai_content
}.

(** [attachments] as a condition: neither [None] nor empty. *)
Definition truthy_list {A : Type} (l : option (list A)) : bool :=
  match l with
  | Some (_ :: _) => true
  | _ => false
  end.

Definition attachment_items (l : option (list attachment)) : list attachment :=
  default [] l.

(** [for x in xs: ...] where the body may raise: the first exception ends the
    loop. *)
Fixpoint for_each {A B : Type} (f : A -> result B) (xs : list A) : result (list B) :=
  match xs with
  | [] => Ok []
  | x :: xs' => y <- f x ;; ys <- for_each f xs' ;; Ok (y :: ys)
  end.

(** [enumerate(xs)] *)
Fixpoint enumerate_from {A : Type} (i : nat) (xs : list A) : list (nat * A) :=
  match xs with
  | [] => []
  | x :: xs' => (i, x) :: enumerate_from (S i) xs'
  end.

Definition enumerate {A : Type} (xs : list A) : list (nat * A) := enumerate_from 0 xs.

Section GeminiRequest.

(** [base64.b64decode]: the bytes, or the way it fails. *)
Variable b64decode : str -> b64_failure + list N.

Definition gemini_attachment_part (att : attachment) : result part :=
  match b64decode (att_data att) with
  | inr raw_bytes =>
      Ok (Part_from_bytes raw_bytes (default (lit "image/jpeg") (att_mimeType att)))
  | inl failure => Raise (b64_exn failure)
  end.

(** One iteration of the loop of [_build_gemini_contents]. *)
Definition gemini_content (messages : list message) (attachments : option (list attachment))
    (i : nat) (msg : message) : result Content :=
  let role := if str_eqb (msg_role msg) (lit "user") then lit "user" else lit "model" in
  let parts := [Part_from_text (msg_content msg)] in
  if truthy_list attachments
     && (Z.of_nat i =? Z.of_nat (length messages) - 1)%Z
     && str_eqb role (lit "user")
  then
    more <- for_each gemini_attachment_part (attachment_items attachments) ;;
    Ok (MkContent role (parts ++ more))
  else Ok (MkContent role parts).

Definition _build_gemini_contents (messages : list message)
    (attachments : option (list attachment)) : result (list Content) :=
  for_each (fun im => gemini_content messages attachments (fst im) (snd im))
           (enumerate messages).

End GeminiRequest.

Definition _build_gemini_config (system_prompt model : str) (json_mode use_search : bool)
    : GenerateContentConfig :=
  MkConfig system_prompt
           (if json_mode then Some (lit "application/json") else None)
           (if contains model (lit "gemini-3") then Some 1024%Z else None)
           (if use_search then [GoogleSearch] else []).

(** The image parts of an OpenAI message: only attachments whose [mimeType] is
    present and starts with [image/]. *)
Definition openai_image_parts (atts : list attachment) : list content_part :=
  flat_map
    (fun att =>
       if startswith (default [] (att_mimeType att)) (lit "image/")
       then [image_url_part (lit "data:" ++ default [] (att_mimeType att)
                             ++ lit ";base64," ++ att_data att)]
       else [])
    atts.

(** [msg is messages[-1]] *)
Definition is_last_object (messages : list message) (msg : message) : bool :=
  match last messages with
  | Some l => Nat.eqb (msg_id msg) (msg_id l)
  | None => false
  end.

(** One iteration of the loop of [_build_openai_messages]. *)
Definition openai_message_of (messages : list message) (attachments : option (list attachment))
    (msg : message) : openai_message :=
  if str_eqb (msg_role msg) (lit "user")
     && truthy_list attachments
     && is_last_object messages msg
  then
    OpenAIMessage (msg_role msg)
      (content_parts (text_part (msg_content msg)
                      :: openai_image_parts (attachment_items attachments)))
  else OpenAIMessage (msg_role msg) (content_str (msg_content msg)).

Definition _build_openai_messages (messages : list message) (system_prompt : str)
    (attachments : option (list attachment)) : list openai_message :=
  OpenAIMessage (lit "system") (content_str system_prompt)
  :: map (openai_message_of messages attachments) messages.

(** *** The router *)

Record openai_kwargs : Type := OpenAIKwargs {
  kw_model : str;
  kw_messages : list openai_message;
  kw_response_format : option str
}.

Record gemini_call : Type := GeminiCall {
  gc_model : str;
  gc_contents : list Content;
  gc_config : GenerateContentConfig
}.

Module LLMRouter.

Record t : Type := Make { provider : str }.

(** [provider or os.getenv(LLM_PROVIDER, gemini)] *)
Definition __init__ (provider : option str) (env_LLM_PROVIDER : option str) : t :=
  match provider with
  | Some (c :: p) => Make (c :: p)
  | _ => Make (default (lit "gemini") env_LLM_PROVIDER)
  end.

Definition _resolve_provider (self : t) (model : str) : str :=
  if startswith model (lit "gpt-") then lit "openai"
  else if startswith model (lit "gemini-") then lit "gemini"
  else if str_eqb (provider self) (lit "openai") || str_eqb (provider self) (lit "gemini")
  then provider self
  else provider self.

Section Calls.

Variable json_loads : str -> result json.
Variable b64decode : str -> b64_failure + list N.

(** The two provider calls: the text of the response ([None] for a null
    content), or the fault the call fails with. *)
Variable openai_create : openai_kwargs -> str + option str.
Variable gemini_generate_content : gemini_call -> str + option str.

Definition await {A : Type} (call : str + A) : result A :=
  match call with
  | inl fault => Raise (ProviderError fault)
  | inr a => Ok a
  end.

Definition _openai_chat (self : t) (messages : list message) (system_prompt : str)
    (json_mode : bool) (model : str) (attachments : option (list attachment))
    : result json :=
  let full_messages := _build_openai_messages messages system_prompt attachments in
  let kwargs :=
    OpenAIKwargs model full_messages
                 (if json_mode then Some (lit "json_object") else None) in
  response <- await (openai_create kwargs) ;;
  let content := default [] response in
  if json_mode
  then try_except_ValueError (_extract_json json_loads content)
                             (Ok (_fallback_response content))
  else Ok (JObj [(lit "response", JStr content)]).

Definition _gemini_chat (self : t) (messages : list message) (system_prompt : str)
    (json_mode : bool) (model : str) (attachments : option (list attachment))
    (use_search : bool) : result json :=
  contents <- _build_gemini_contents b64decode messages attachments ;;
  let config := _build_gemini_config system_prompt model json_mode use_search in
  response <- await (gemini_generate_content (GeminiCall model contents config)) ;;
  let content := default [] response in
  if json_mode
  then try_except_ValueError (_extract_json json_loads content)
                             (Ok (_fallback_response content))
  else Ok (JObj [(lit "response", JStr content)]).

(** [model or DEFAULT_MODEL] *)
Definition effective_model (model : option str) : str :=
  match model with
  | Some (c :: m) => c :: m
  | _ => DEFAULT_MODEL
  end.

Definition chat (self : t) (messages : list message) (system_prompt : str)
    (json_mode : bool) (model : option str) (attachments : option (list attachment))
    (use_search : bool) : result json :=
  let model := effective_model model in
  let provider := _resolve_provider self model in
  if str_eqb provider (lit "openai")
  then _openai_chat self messages system_prompt json_mode model attachments
  else if str_eqb provider (lit "gemini")
  then _gemini_chat self messages system_prompt json_mode model attachments use_search
  else Raise (ValueError (lit "Cannot route model: " ++ model)).

End Calls.

End LLMRouter.

(** ** embeddings.py *)

(** A value held under a key of a candidate mapping. A list of numbers, which
    is what an embedding is, is held as the float64 array that
    [np.array(..., dtype=np.float64)] makes of it. *)
Inductive value : Type :=
| VNone
| VBool (b : bool)
| VInt (n : Z)
| VFloat (x : float)
| VStr (s : str)
| VVec (xs : list float).

(** Python's truth value, for [not emb]. *)
Definition truthy (v : value) : bool :=
  match v with
  | VNone => false
  | VBool b => b
  | VInt n => negb (n =? 0)%Z
  | VFloat x => negb (PrimFloat.eqb x 0%float)
  | VStr s => match s with [] => false | _ => true end
  | VVec xs => match xs with [] => false | _ => true end
  end.

(** The store: every mapping and every list is an object at a location, and a
    list holds the locations of its items. *)
Definition loc : Type := nat.

Inductive object : Type :=
| ODict (d : gmap str value)
| OList (items : list loc).

Abbreviation heap := (gmap loc object).

(** A new object: its location is one the store does not use. *)
Definition alloc (o : object) (h : heap) : loc * heap :=
  let l := fresh (dom h) in (l, <[l := o]> h).

(** [xs.append(x)] *)
Definition list_append (xs : loc) (x : loc) (h : heap) : heap :=
  match h !! xs with
  | Some (OList items) => <[xs := OList (items ++ [x])]> h
  | _ => h
  end.

Definition key_embedding : str := lit "embedding".
Definition key_score : str := lit "score".

(** [x[score]] of the mapping at [l], as the sort key reads it. *)
Definition score_key (h : heap) (l : loc) : result float :=
  match h !! l with
  | Some (ODict d) =>
      match d !! key_score with
      | Some (VFloat x) => Ok x
      | Some _ => Raise TypeError
      | None => Raise (KeyError key_score)
      end
  | _ => Raise TypeError
  end.

(** [list.sort(key=..., reverse=True)] on the computed keys: CPython reverses
    the list, sorts it stably in ascending order comparing keys with [<]
    only, and reverses the result. The ascending sort here inserts the
    items from left to right, each after the items that are not greater;
    every stable sort gives the same list when [<] is a strict weak order on
    the keys, which it is on floats that are numbers. With a key that is NaN
    the list that CPython leaves depends on the runs and merges of its sort;
    it is a permutation of the items, as the list here is, and for two items
    it is the list here. *)
Fixpoint insert_stable {A : Type} (x : float * A) (l : list (float * A)) : list (float * A) :=
  match l with
  | [] => [x]
  | y :: l' =>
      if PrimFloat.ltb (fst x) (fst y)
      then x :: y :: l'
      else y :: insert_stable x l'
  end.

Definition sort_ascending {A : Type} (l : list (float * A)) : list (float * A) :=
  fold_left (fun acc x => insert_stable x acc) l [].

Definition sort_reverse {A : Type} (l : list (float * A)) : list (float * A) :=
  rev (sort_ascending (rev l)).

(** The message of numpy for two one-dimensional arrays of lengths [n] and
    [m] that are not aligned. *)
Definition shapes_not_aligned (n m : nat) : str :=
  lit "shapes (" ++ str_of_nat n ++ lit ",) and (" ++ str_of_nat m
  ++ lit ",) not aligned: " ++ str_of_nat n ++ lit " (dim 0) != "
  ++ str_of_nat m ++ lit " (dim 0)".

Section Similarity.

(** [np.dot] of two one-dimensional arrays of one length, and
    [np.linalg.norm] of a one-dimensional array. *)
Variable np_dot : list float -> list float -> float.
Variable np_norm : list float -> float.

(** [np.dot(a_arr, b_arr)] on one-dimensional arrays: arrays of two
    lengths are not aligned, and the [ValueError] names their shapes. *)
Definition dot_1d (a b : list float) : result float :=
  if Nat.eqb (length a) (length b)
  then Ok (np_dot a b)
  else Raise (ValueError (shapes_not_aligned (length a) (length b))).

Definition cosine_similarity (a b : list float) : result float :=
  let norm_a := np_norm a in
  let norm_b := np_norm b in
  if PrimFloat.eqb norm_a 0%float || PrimFloat.eqb norm_b 0%float
  then Ok 0%float
  else
    d <- dot_1d a b ;;
    Ok (PrimFloat.div d (PrimFloat.mul norm_a norm_b)).

(** The call [cosine_similarity(query_embedding, emb)] on a value that
    passed [not emb]: anything but a list of numbers is outside the
    documented input. *)
Definition cosine_of_value (query_embedding : list float) (emb : value) : result float :=
  match emb with
  | VVec xs => cosine_similarity query_embedding xs
  | _ => Raise TypeError
  end.

(** The loop of [rank_by_similarity] over the items of [candidates]. *)
Fixpoint rank_loop (query_embedding : list float) (results : loc)
    (candidates : list loc) (h : heap) : result unit * heap :=
  match candidates with
  | [] => (Ok tt, h)
  | candidate :: rest =>
      match h !! candidate with
      | Some (ODict d) =>
          let emb := default VNone (d !! key_embedding) in
          if negb (truthy emb) then rank_loop query_embedding results rest h
          else
            match cosine_of_value query_embedding emb with
            | Raise e => (Raise e, h)
            | Ok score =>
                let (copy, h1) := alloc (ODict (<[key_score := VFloat score]> d)) h in
                rank_loop query_embedding results rest (list_append results copy h1)
            end
      | _ => (Raise TypeError, h)
      end
  end.

(** [results.sort(key=lambda x: x[score], reverse=True)] *)
Definition sort_results (results : loc) (h : heap) : result unit * heap :=
  match h !! results with
  | Some (OList items) =>
      match for_each (fun l => k <- score_key h l ;; Ok (k, l)) items with
      | Ok keyed => (Ok tt, <[results := OList (map snd (sort_reverse keyed))]> h)
      | Raise e => (Raise e, h)
      end
  | _ => (Raise TypeError, h)
  end.

Definition rank_by_similarity (query_embedding : list float) (candidates : loc)
    (h : heap) : result loc * heap :=
  let (results, h0) := alloc (OList []) h in
  match h0 !! candidates with
  | Some (OList items) =>
      match rank_loop query_embedding results items h0 with
      | (Raise e, h1) => (Raise e, h1)
      | (Ok _, h1) =>
          match sort_results results h1 with
          | (Raise e, h2) => (Raise e, h2)
          | (Ok _, h2) => (Ok results, h2)
          end
      end
  | _ => (Raise TypeError, h0)
  end.

End Similarity.

(** The mappings a list object holds, read through the store. *)
Definition read_dicts (h : heap) (l : loc) : option (list (gmap str value)) :=
  match h !! l with
  | Some (OList items) =>
      mapM (fun i => match h !! i with Some (ODict d) => Some d | _ => None end) items
  | _ => None
  end.

(** Sequential float64 models of the two numpy reductions, used to run the
    functions above on concrete vectors. *)
Definition dot_seq (a b : list float) : float :=
  fold_left (fun acc p => PrimFloat.add acc (PrimFloat.mul (fst p) (snd p))) (combine a b) 0%float.

Definition norm_seq (a : list float) : float := PrimFloat.sqrt (dot_seq a a).

(** ** Vocabulary of the statements *)

(** A text with nothing but white space (the empty text included). *)
Definition blank (s : str) : bool := forallb isspace s.

(** The well-known shape a single-shot call degrades to. *)
Definition fallback_mapping (text : str) : json :=
  JObj [(lit "response", JStr text);
        (lit "topic", JObj [(lit "name", JStr []);
                            (lit "matchedExistingId", JNull);
                            (lit "confidence", JInt 0)]);
        (lit "concepts", JArr [])].

(** The text salvaged from a raw response: the value of a [response] key when
    the permissive pattern finds one, else the raw text. *)
Definition fallback_text (raw : str) : str :=
  match re_search response_re raw with
  | Some m => unescape_response (group1 m)
  | None => raw
  end.

(** A provider that answers every request with the same content. *)
Definition answering {A : Type} (response : option str) : A -> str + option str :=
  fun _ => inr response.

Definition unroutable (model : str) : exn :=
  ValueError (lit "Cannot route model: " ++ model).

(** The request of a call reaches a provider: the model routes to OpenAI, or
    it routes to Gemini and the contents can be built. *)
Definition reaches_provider (b64decode : str -> b64_failure + list N) (self : LLMRouter.t)
    (messages : list message) (model : option str)
    (attachments : option (list attachment)) : Prop :=
  let provider := LLMRouter._resolve_provider self (LLMRouter.effective_model model) in
  provider = lit "openai"
  \/ (provider = lit "gemini"
      /\ exists contents, _build_gemini_contents b64decode messages attachments = Ok contents).

(** [v[k]] on a JSON value. *)
Definition json_get (v : json) (k : string) : option json :=
  match v with
  | JObj members => dict_get members (lit k)
  | _ => None
  end.

(** What follows the last occurrence of [c] in [t]. *)
Fixpoint after_last (c : char) (t : str) : option str :=
  match t with
  | [] => None
  | x :: t' =>
      match after_last c t' with
      | Some post => Some post
      | None => if char_eqb c x then Some t' else None
      end
  end.

(** The greedy brace-delimited span of a text: from its first opening brace to
    the last closing brace after it. *)
Fixpoint brace_span (s : str) : option str :=
  match s with
  | [] => None
  | c :: t =>
      if char_eqb 123%N c
      then match after_last 125%N t with
           | Some post => Some (c :: take (length t - length post) t)
           | None => None
           end
      else brace_span t
  end.

(** The last, and the first, suffix of a text on which [k] succeeds. *)
Fixpoint last_suffix {A : Type} (k : str -> option A) (t : str) : option A :=
  match t with
  | [] => k []
  | _ :: t' =>
      match last_suffix k t' with
      | Some m => Some m
      | None => k t
      end
  end.

Fixpoint first_suffix {A : Type} (k : str -> option A) (t : str) : option A :=
  match k t with
  | Some m => Some m
  | None =>
      match t with
      | [] => None
      | _ :: t' => first_suffix k t'
      end
  end.

(** The role a turn gets in a Gemini request. *)
Definition gemini_role (msg : message) : str :=
  if str_eqb (msg_role msg) (lit "user") then lit "user" else lit "model".

(** The inline binary part of an attachment in a Gemini request. *)
Definition inline_part (b64decode : str -> b64_failure + list N) (att : attachment) : part :=
  Part_from_bytes (match b64decode (att_data att) with inr raw => raw | inl _ => [] end)
                  (default (lit "image/jpeg") (att_mimeType att)).

Definition decodes (b64decode : str -> b64_failure + list N) (att : attachment) : Prop :=
  exists raw, b64decode (att_data att) = inr raw.

(** A part that comes from an attachment, in either request. *)
Definition is_inline_part (p : part) : bool :=
  match p with
  | Part_from_bytes _ _ => true
  | Part_from_text _ => false
  end.

Definition is_image_part (p : content_part) : bool :=
  match p with
  | image_url_part _ => true
  | text_part _ => false
  end.

Definition gemini_carries_attachment (c : Content) : bool :=
  existsb is_inline_part (parts c).

Definition openai_carries_attachment (m : openai_message) : bool :=
  match om_content m with
  | content_parts ps => existsb is_image_part ps
  | content_str _ => false
  end.

(** The data URL of an attachment in an OpenAI request. *)
Definition data_url (mime data : str) : str :=
  lit "data:" ++ mime ++ lit ";base64," ++ data.

(** An attachment whose MIME type is given and starts with image/, and the
    image part such an attachment becomes in an OpenAI request: the data URL
    of its MIME type and its base64 data. *)
Definition has_image_type (att : attachment) : bool :=
  match att_mimeType att with
  | Some mime => startswith mime (lit "image/")
  | None => false
  end.

Definition image_part_of (att : attachment) : content_part :=
  image_url_part (data_url (default [] (att_mimeType att)) (att_data att)).

(** The content built for the turn at index [i]. *)
Definition gemini_content_of (b64decode : str -> b64_failure + list N) (messages : list message) (attachments : option (list attachment))
    (i : nat) (msg : message) : Content :=
  MkContent (gemini_role msg)
    (Part_from_text (msg_content msg)
     :: if truthy_list attachments && Nat.eqb (S i) (length messages)
           && str_eqb (gemini_role msg) (lit "user")
        then map (inline_part b64decode) (attachment_items attachments)
        else []).

(** [s] cut at the first occurrence of [p]: what comes before it and what
    comes after it. *)
Fixpoint cut (p s : str) : option (str * str) :=
  if startswith s p then Some ([], drop (length p) s)
  else
    match s with
    | [] => None
    | c :: s' => (fun ba => (c :: fst ba, snd ba)) <$> cut p s'
    end.

Definition fence : str := lit "```".

(** The text after an opening fence without its optional tag json. *)
Definition after_tag (s : str) : str :=
  if startswith s (lit "json") then drop 4 s else s.

(** The interior of the first fenced block of a text: after the first fence,
    its optional tag json and the white space that follows, up to the next
    fence. There is none when the first fence is not closed. *)
Definition fence_interior (s : str) : option str :=
  match cut fence s with
  | Some (_, rest) => fst <$> cut fence (lstrip (after_tag rest))
  | None => None
  end.

(** A text without a backtick. *)
Definition no_tick (p : str) : bool := forallb (fun c => negb (char_eqb 96%N c)) p.

(** What the lazy group and the closing fence find from [u] on. *)
Definition closing (u : str) : option match_state :=
  (fun ba => (snd ba, Some (fst ba))) <$> cut fence u.

(** The value of a text that parses as JSON. *)
Definition parsed (json_loads : str -> result json) (s : str) : option json :=
  match json_loads s with
  | Ok v => Some v
  | Raise _ => None
  end.

(** The recovery as the specification words it: the interior of a fenced
    block first, then the trimmed whole text, then the greedy brace span of
    the text, the first success winning; a failure carries a prefix of the
    text. *)
Definition extract_structured_as_specified (json_loads : str -> result json) (text : str)
    : result json :=
  if blank text then Raise (ValueError (lit "Empty response from LLM"))
  else
    let whole := strip text in
    let fenced :=
      match fence_interior whole with
      | Some interior => parsed json_loads (strip interior)
      | None => None
      end in
    match fenced with
    | Some v => Ok v
    | None =>
        match parsed json_loads whole with
        | Some v => Ok v
        | None =>
            match brace_span whole ≫= parsed json_loads with
            | Some v => Ok v
            | None => Raise (ValueError (lit "Could not extract JSON from: " ++ take 200 whole))
            end
        end
    end.

(** The text the strategies of [_extract_json] work on: the trimmed interior
    of the first fenced block when there is one, else the trimmed text. *)
Definition recovery_body (text : str) : str :=
  match fence_interior (strip text) with
  | Some interior => strip interior
  | None => strip text
  end.

(** ** The order of float64 values

    The comparisons of floats that are numbers are those of a key of three
    integers, compared lexicographically: the class of the value (infinities
    outside, zeros in the middle), then the exponent and the mantissa, both
    negated for a negative value. *)

Definition ord1 (x : spec_float) : Z :=
  match x with
  | S754_infinity true => -2
  | S754_finite true _ _ => -1
  | S754_finite false _ _ => 1
  | S754_infinity false => 2
  | _ => 0
  end.

Definition ord2 (x : spec_float) : Z :=
  match x with
  | S754_finite true _ e => - e
  | S754_finite false _ e => e
  | _ => 0
  end.

Definition ord3 (x : spec_float) : Z :=
  match x with
  | S754_finite true m _ => Z.neg m
  | S754_finite false m _ => Z.pos m
  | _ => 0
  end.

Definition key_lt (x y : spec_float) : Prop :=
  (ord1 x < ord1 y
   \/ (ord1 x = ord1 y
       /\ (ord2 x < ord2 y \/ (ord2 x = ord2 y /\ ord3 x < ord3 y))))%Z.

Definition key_eq (x y : spec_float) : Prop :=
  ord1 x = ord1 y /\ ord2 x = ord2 y /\ ord3 x = ord3 y.

Definition is_number (x : spec_float) : Prop := x <> S754_nan.

(** A float that is a number: [x == x] in Python. *)
Definition number (x : float) : Prop := PrimFloat.is_nan x = false.

(** [x <= y], [x < y] and [x == y] on floats, as propositions. *)
Definition fle (x y : float) : Prop := PrimFloat.leb x y = true.
Definition flt (x y : float) : Prop := PrimFloat.ltb x y = true.
Definition feq (x y : float) : Prop := PrimFloat.eqb x y = true.

(** Orders on keyed items: by ascending key, and by descending key. *)
Definition key_ascending {A : Type} (a b : float * A) : Prop := fle (fst a) (fst b).
Definition key_descending {A : Type} (a b : float * A) : Prop := fle (fst b) (fst a).

(** The items whose key equals [s]. *)
Definition with_key {A : Type} (s : float) (l : list (float * A)) : list (float * A) :=
  List.filter (fun a => PrimFloat.eqb (fst a) s) l.

Definition keys_are_numbers {A : Type} (l : list (float * A)) : Prop :=
  Forall (fun a => number (fst a)) l.

(** ** Vocabulary of the ranking statements *)

(** The embedding of a candidate as [candidate.get(embedding)] reads it, and
    whether it passes [not emb]. *)
Definition embedding_of (d : gmap str value) : value :=
  default VNone (d !! key_embedding).

Definition usable (d : gmap str value) : bool := truthy (embedding_of d).

(** A mapping with its score field set. *)
Definition with_score (s : float) (d : gmap str value) : gmap str value :=
  <[key_score := VFloat s]> d.

(** The score field of a mapping. *)
Definition score_of (d : gmap str value) : float :=
  match d !! key_score with
  | Some (VFloat x) => x
  | _ => nan
  end.

(** Every object of [h] is in [h'] as it was. *)
Definition unchanged (h h' : heap) : Prop :=
  forall l o, h !! l = Some o -> h' !! l = Some o.

(** [cs] are the locations of the mappings [ds]. *)
Definition holds_dicts (h : heap) (cs : list loc) (ds : list (gmap str value)) : Prop :=
  Forall2 (fun l d => h !! l = Some (ODict d)) cs ds.

Section RankingSpec.

Variable np_dot : list float -> list float -> float.
Variable np_norm : list float -> float.

(** The scored copies of the usable candidates, in the order of the
    candidates: the list [results] before it is sorted. *)
Fixpoint score_all (query_embedding : list float) (ds : list (gmap str value))
    : result (list (float * gmap str value)) :=
  match ds with
  | [] => Ok []
  | d :: ds' =>
      if negb (usable d) then score_all query_embedding ds'
      else
        s <- cosine_of_value np_dot np_norm query_embedding (embedding_of d) ;;
        rest <- score_all query_embedding ds' ;;
        Ok ((s, with_score s d) :: rest)
  end.

(** The mappings that [rank_by_similarity] returns, as a function of the
    mappings it is given. *)
Definition ranked (query_embedding : list float) (ds : list (gmap str value))
    : result (list (gmap str value)) :=
  scored <- score_all query_embedding ds ;;
  Ok (map snd (sort_reverse scored)).

(** The float that [cosine_similarity] returns for a candidate. *)
Definition score_value (query_embedding : list float) (d : gmap str value) : float :=
  match cosine_of_value np_dot np_norm query_embedding (embedding_of d) with
  | Ok s => s
  | Raise _ => nan
  end.

(** A candidate whose embedding, when usable, is a vector of the dimension of
    the query, and whose score is a number. *)
Definition scorable (query_embedding : list float) (d : gmap str value) : Prop :=
  usable d = true ->
  (exists v, embedding_of d = VVec v /\ length v = length query_embedding)
  /\ number (score_value query_embedding d).

End RankingSpec.

(** The mapping at a location ([∅] for anything else). *)
Definition dict_at (h : heap) (l : loc) : gmap str value :=
  match h !! l with
  | Some (ODict d) => d
  | _ => ∅
  end.

(** What the loop knows of [results]: its items are mappings that the caller's
    store [h0] does not hold, each with its score. *)
Definition copies (h0 hi : heap) (items : list loc)
    (scored : list (float * gmap str value)) : Prop :=
  Forall2 (fun l sd => hi !! l = Some (ODict (snd sd))
                       /\ snd sd !! key_score = Some (VFloat (fst sd))
                       /\ l ∉ dom h0)
          items scored.

(** What the caller of [rank_by_similarity] gets: the mappings of the list
    that is returned, read from the store the call leaves. *)
Definition rank_output (np_dot : list float -> list float -> float)
    (np_norm : list float -> float) (query_embedding : list float)
    (candidates : loc) (h : heap) : result (list (gmap str value)) :=
  match rank_by_similarity np_dot np_norm query_embedding candidates h with
  | (Ok results, h') =>
      match read_dicts h' results with
      | Some out => Ok out
      | None => Raise TypeError
      end
  | (Raise e, _) => Raise e
  end.

(** Sorted by descending score. *)
Definition score_descending (a b : gmap str value) : Prop :=
  fle (score_of b) (score_of a).

(** Concrete candidates for running the ranking. *)
Definition candidate (id : string) (embedding : value) : gmap str value :=
  <[lit "id" := VStr (lit id)]> (<[key_embedding := embedding]> ∅).

(** The float that the literal 1e200 denotes. *)
Definition f1e200 : float := 0x1.4e718d7d7625ap+664%float.

(** A store for running the ranking: the list at 0 holds four candidates, the
    second of them without a usable embedding, the first and the last of
    equal score for the query [1, 0]. *)
Definition example_heap : heap :=
  <[0 := OList [1; 2; 3; 4]]>
    (<[1 := ODict (candidate "a" (VVec [0%float; 1%float]))]>
       (<[2 := ODict (candidate "b" VNone)]>
          (<[3 := ODict (candidate "c" (VVec [1%float; 0%float]))]>
             (<[4 := ODict (candidate "d" (VVec [0%float; 1%float]))]> ∅)))).

Definition example_dicts : list (gmap str value) :=
  [candidate "a" (VVec [0%float; 1%float]); candidate "b" VNone;
   candidate "c" (VVec [1%float; 0%float]); candidate "d" (VVec [0%float; 1%float])].

(** Two candidates of one dimension; with the query [1e200] the first score
    is inf / inf. *)
Definition overflow_heap : heap :=
  <[0 := OList [1; 2]]>
    (<[1 := ODict (candidate "a" (VVec [f1e200]))]>
       (<[2 := ODict (candidate "b" (VVec [1%float]))]> ∅)).

(** A candidate whose embedding has not the dimension of the query. *)
Definition mismatch_heap : heap :=
  <[0 := OList [1]]> (<[1 := ODict (candidate "a" (VVec [1%float]))]> ∅).

(** ** llm_router.py: streaming *)

(** What a provider stream delivers: its chunks, then the fault that ends it,
    if any. *)
Record stream (A : Type) : Type := Stream {
  stream_items : list A;
  stream_fault : option str
}.
Arguments Stream {A} _ _.
Arguments stream_items {A} _.
Arguments stream_fault {A} _.

(** A chunk of a Gemini stream, with its [text]. *)
Record gemini_chunk : Type := GeminiChunk {
  chunk_text : option str
}.

(** A chunk of an OpenAI stream: [choices], each with a [delta], which has a
    [content]. *)
Record ChoiceDelta : Type := MkDelta {
  delta_content : option str
}.

Record Choice : Type := MkChoice {
  choice_delta : option ChoiceDelta
}.

Record openai_chunk : Type := OpenAIChunk {
  chunk_choices : list Choice
}.

(** An async generator consumed to its end: the chunks it yields and the
    exception that ends it, if any. *)
Record generated : Type := Generated {
  yielded : list str;
  raised : option exn
}.

(** [if text: yield text] *)
Definition yield_if_truthy (text : option str) : list str :=
  match text with
  | Some (c :: t) => [c :: t]
  | _ => []
  end.

Module Streaming.

Section Calls.

Variable b64decode : str -> b64_failure + list N.

(** The two streaming provider calls: the stream, or the fault the call
    fails with. The OpenAI call is the one with [stream=True]. *)
Variable openai_create_stream : openai_kwargs -> str + stream openai_chunk.
Variable gemini_generate_content_stream : gemini_call -> str + stream gemini_chunk.

Definition _gemini_stream (self : LLMRouter.t) (messages : list message)
    (system_prompt : str) (model : str) (attachments : option (list attachment))
    (use_search : bool) : generated :=
  match _build_gemini_contents b64decode messages attachments with
  | Raise e => Generated [] (Some e)
  | Ok contents =>
      let config := _build_gemini_config system_prompt model false use_search in
      match gemini_generate_content_stream (GeminiCall model contents config) with
      | inl fault => Generated [] (Some (ProviderError fault))
      | inr response =>
          Generated (flat_map (fun chunk => yield_if_truthy (chunk_text chunk))
                              (stream_items response))
                    (ProviderError <$> stream_fault response)
      end
  end.

(** The body of the loop of [_openai_stream]. *)
Definition openai_chunk_text (chunk : openai_chunk) : list str :=
  let delta :=
    match chunk_choices chunk with
    | choice :: _ => choice_delta choice
    | [] => None
    end in
  match delta with
  | Some d => yield_if_truthy (delta_content d)
  | None => []
  end.

Definition _openai_stream (self : LLMRouter.t) (messages : list message)
    (system_prompt : str) (model : str) (attachments : option (list attachment))
    : generated :=
  let full_messages := _build_openai_messages messages system_prompt attachments in
  match openai_create_stream (OpenAIKwargs model full_messages None) with
  | inl fault => Generated [] (Some (ProviderError fault))
  | inr response =>
      Generated (flat_map openai_chunk_text (stream_items response))
                (ProviderError <$> stream_fault response)
  end.

Definition chat_stream (self : LLMRouter.t) (messages : list message)
    (system_prompt : str) (model : option str) (attachments : option (list attachment))
    (use_search : bool) : generated :=
  let model := LLMRouter.effective_model model in
  let provider := LLMRouter._resolve_provider self model in
  if str_eqb provider (lit "openai")
  then _openai_stream self messages system_prompt model attachments
  else if str_eqb provider (lit "gemini")
  then _gemini_stream self messages system_prompt model attachments use_search
  else Generated [] (Some (ValueError (lit "Cannot route model for streaming: " ++ model))).

End Calls.

End Streaming.

(** ** embeddings.py: the embedding service *)

Module EmbeddingService.

Record t : Type := Make { provider : str }.

(** [provider or os.getenv(EMBEDDING_PROVIDER, openai)] *)
Definition __init__ (provider : option str) (env_EMBEDDING_PROVIDER : option str) : t :=
  match provider with
  | Some (c :: p) => Make (c :: p)
  | _ => Make (default (lit "openai") env_EMBEDDING_PROVIDER)
  end.

Section Calls.

(** The two embedding calls, given the model and the text: the vector of the
    first item of the response, or the fault the call fails with. *)
Variable openai_embeddings_create : str -> str -> str + list float.
Variable gemini_embed_content : str -> str -> str + list float.

Definition _openai_embed (self : t) (text : str) : result (list float) :=
  LLMRouter.await (openai_embeddings_create (lit "text-embedding-3-small") text).

Definition _gemini_embed (self : t) (text : str) : result (list float) :=
  LLMRouter.await (gemini_embed_content (lit "text-embedding-004") text).

Definition embed_text (self : t) (text : str) : result (list float) :=
  if str_eqb (provider self) (lit "openai") then _openai_embed self text
  else if str_eqb (provider self) (lit "gemini") then _gemini_embed self text
  else Raise (ValueError (lit "Unknown embedding provider: " ++ provider self)).

End Calls.

End EmbeddingService.

(** ** main.py: the items of a request *)

(** The items of a request body, as the schema of the route checks them. *)
Record MessageItem : Type := MkMessageItem {
  item_role : str;
  item_content : str
}.

Record AttachmentItem : Type := MkAttachmentItem {
  item_mimeType : str;
  item_data : str
}.

(** ** main.py: the routes that rank *)

(** [l[-n:]] for a positive [n] *)
Definition last_n {A : Type} (n : nat) (l : list A) : list A :=
  drop (length l - n) l.

(** [sep.join(l)] *)
Fixpoint join (sep : str) (l : list str) : str :=
  match l with
  | [] => []
  | x :: l' =>
      match l' with
      | [] => x
      | _ :: _ => x ++ sep ++ join sep l'
      end
  end.

(** The objects of a request body that holds a list of mappings: the list is
    at location 0, its mappings are at the locations 1, 2, ... *)
Definition request_store (ds : list (gmap str value)) : heap :=
  <[0 := OList (seq 1 (length ds))]>
    (list_to_map (zip (seq 1 (length ds)) (ODict <$> ds))).

Definition key_id : str := lit "id".

(** The mapping with the keys [id] and [score] of a ranked item. *)
Definition rank_entry (r : gmap str value) : result (gmap str value) :=
  match r !! key_id with
  | None => Raise (KeyError key_id)
  | Some i =>
      match r !! key_score with
      | None => Raise (KeyError key_score)
      | Some s => Ok (<[key_id := i]> (<[key_score := s]> ∅))
      end
  end.

(** The mapping of an item without its key [embedding]. *)
Definition strip_embedding (item : gmap str value) : gmap str value :=
  delete key_embedding item.

(** The card of a concept: [concept.get(k, empty string)] for three keys. *)
Definition concept_card (concept : gmap str value) : gmap str value :=
  <[lit "type" := VStr (lit "concept")]>
    (<[lit "id" := default (VStr []) (concept !! lit "id")]>
       (<[lit "title" := default (VStr []) (concept !! lit "title")]>
          (<[lit "preview" := default (VStr []) (concept !! lit "preview")]> ∅))).

Section Routes.

Variable np_dot : list float -> list float -> float.
Variable np_norm : list float -> float.
Variable openai_embeddings_create : str -> str -> str + list float.
Variable gemini_embed_content : str -> str -> str + list float.

(** The service of the module, [embedder]. *)
Variable embedder : EmbeddingService.t.

(** The route [/api/rank]: the value under the key [ranked]. *)
Definition rank_candidates (queryEmbedding : list float)
    (candidates : list (gmap str value)) : result (list (gmap str value)) :=
  ranked <- rank_output np_dot np_norm queryEmbedding 0 (request_store candidates) ;;
  for_each rank_entry ranked.

(** [query_text] of [sidebar_refresh]. *)
Definition sidebar_query_text (messages : list MessageItem) : str :=
  let recent_msgs := last_n 6 messages in
  join (lit " ") (map item_content (last_n 3 recent_msgs)).

(** [ranked_items] of [sidebar_refresh] when the ranking block is left. *)
Definition sidebar_ranked_items (messages : list MessageItem)
    (allChatSummaries : list (gmap str value)) : list (gmap str value) :=
  let query_text := sidebar_query_text messages in
  let candidates_with_embeddings := List.filter usable allChatSummaries in
  if match candidates_with_embeddings with [] => false | _ :: _ => true end
     && match strip query_text with [] => false | _ :: _ => true end
  then
    match
      (query_embedding <- EmbeddingService.embed_text openai_embeddings_create
                            gemini_embed_content embedder query_text ;;
       ranked_items <- rank_output np_dot np_norm query_embedding 0
                         (request_store candidates_with_embeddings) ;;
       Ok (take 8 ranked_items))
    with
    | Ok ranked_items => ranked_items
    | Raise _ => take 5 allChatSummaries
    end
  else take 5 allChatSummaries.

(** [combined_ranked] of [sidebar_refresh]. *)
Definition sidebar_combined_ranked (messages : list MessageItem)
    (allChatSummaries allConcepts : list (gmap str value)) : list (gmap str value) :=
  map strip_embedding (take 5 (sidebar_ranked_items messages allChatSummaries))
  ++ map concept_card (take 3 allConcepts).

(** What the bridge prompt is given: [combined_ranked[:5]]. *)
Definition sidebar_prompt_items (messages : list MessageItem)
    (allChatSummaries allConcepts : list (gmap str value)) : list (gmap str value) :=
  take 5 (sidebar_combined_ranked messages allChatSummaries allConcepts).

End Routes.

(** ** main.py: the chat routes *)

(** The list that the comprehension over [req.messages] builds, with the
    keys role and content: a new mapping for every item, so the identity of
    a turn is its index. *)
Definition request_messages (items : list MessageItem) : list message :=
  map (fun im => Message (fst im) (item_role (snd im)) (item_content (snd im)))
      (enumerate items).

(** The list built of [req.attachments], with the keys mimeType and data, or
    [None] when there is none. *)
Definition request_attachments (items : list AttachmentItem) : option (list attachment) :=
  match items with
  | [] => None
  | _ :: _ => Some (map (fun a => Attachment (Some (item_mimeType a)) (item_data a)) items)
  end.

Definition CHAT_STREAM_SYSTEM_PROMPT : str :=
  lit "You are a helpful AI assistant. Respond naturally and helpfully to the user's message. Be clear and conversational.".

(** How the generator of a streaming response ends: it returns, or it raises
    one of the exceptions above, or the [AttributeError] of a value that has
    no method [get]. *)
Inductive generator_end : Type :=
| Returned
| Raised (e : exn)
| RaisedAttributeError.

(** The events of a streaming response: the payload of each, which the route
    writes as one line of JSON, and how the generator ends. *)
Record events : Type := Events {
  emitted : list json;
  ended : generator_end
}.

Definition chunk_event (chunk : str) : json :=
  JObj [(lit "type", JStr (lit "chunk")); (lit "text", JStr chunk)].

Definition error_event (message : str) : json :=
  JObj [(lit "type", JStr (lit "error")); (lit "message", JStr message)].

Definition done_event (response : str) (topic concepts : json) : json :=
  JObj [(lit "type", JStr (lit "done")); (lit "response", JStr response);
        (lit "topic", topic); (lit "concepts", concepts)].

(** The metadata of the handler of [chat_stream_endpoint]. *)
Definition metadata_fallback : json :=
  JObj [(lit "topic", JObj [(lit "name", JStr []);
                            (lit "matchedExistingId", JNull);
                            (lit "confidence", JInt 0)]);
        (lit "concepts", JArr [])].

Section ChatRoutes.

Variable json_loads : str -> result json.
Variable b64decode : str -> b64_failure + list N.
Variable openai_create : openai_kwargs -> str + option str.
Variable gemini_generate_content : gemini_call -> str + option str.
Variable openai_create_stream : openai_kwargs -> str + stream openai_chunk.
Variable gemini_generate_content_stream : gemini_call -> str + stream gemini_chunk.

(** The router of the module, [llm], and [str(e)] of an exception. *)
Variable llm : LLMRouter.t.
Variable str_of_exn : exn -> str.

(** The route [/api/chat]; [system_prompt] is the chat prompt with the topics
    of the request filled in. *)
Definition chat_endpoint (system_prompt : str) (messages : list MessageItem)
    (model : option str) (attachments : list AttachmentItem) (useSearch : bool)
    : result json :=
  LLMRouter.chat json_loads b64decode openai_create gemini_generate_content llm
    (request_messages messages) system_prompt true model
    (request_attachments attachments) useSearch.

(** [event_generator] of the route [/api/chat/stream], consumed to its end;
    [meta_prompt] is the metadata prompt with the topics of the request
    filled in. *)
Definition event_generator (meta_prompt : str) (messages : list MessageItem)
    (model : option str) (attachments : list AttachmentItem) (useSearch : bool)
    : events :=
  let run :=
    Streaming.chat_stream b64decode openai_create_stream gemini_generate_content_stream
      llm (request_messages messages) CHAT_STREAM_SYSTEM_PROMPT model
      (request_attachments attachments) useSearch in
  let full_response_parts := yielded run in
  let chunk_events := map chunk_event full_response_parts in
  match raised run with
  | Some e => Events (chunk_events ++ [error_event (str_of_exn e)]) Returned
  | None =>
      let full_response := concat full_response_parts in
      let messages_for_meta :=
        request_messages messages
        ++ [Message (length messages) (lit "assistant") full_response] in
      let metadata :=
        match LLMRouter.chat json_loads b64decode openai_create gemini_generate_content
                llm messages_for_meta meta_prompt true model None false with
        | Ok v => v
        | Raise _ => metadata_fallback
        end in
      match metadata with
      | JObj members =>
          Events (chunk_events
                  ++ [done_event full_response
                        (default (JObj []) (dict_get members (lit "topic")))
                        (default (JArr []) (dict_get members (lit "concepts")))])
                 Returned
      | _ => Events chunk_events RaisedAttributeError
      end
  end.

End ChatRoutes.

(** ** Vocabulary of the further statements *)

(** A text with its newlines and double quotes escaped as JSON escapes
    them. *)
Definition escape (u : str) : str :=
  flat_map (fun c => if char_eqb c newline then [backslash; 110%N]
                     else if char_eqb c dquote then [backslash; dquote]
                     else [c]) u.

(** A text with its double quotes escaped. *)
Definition escape_quotes (u : str) : str :=
  flat_map (fun c => if char_eqb c dquote then [backslash; dquote] else [c]) u.

(** A text without the character [c]. *)
Definition free_of (c : char) (s : str) : bool :=
  forallb (fun x => negb (char_eqb x c)) s.

(** [s] is a contiguous part of [t]. *)
Definition part_of (s t : str) : Prop := exists a b, t = a ++ s ++ b.

(** The text of a whole stream, as its reader assembles it. *)
Definition gemini_stream_text (response : stream gemini_chunk) : str :=
  concat (map (fun chunk => default [] (chunk_text chunk)) (stream_items response)).

Definition openai_delta_text (chunk : openai_chunk) : str :=
  match chunk_choices chunk with
  | choice :: _ =>
      match choice_delta choice with
      | Some d => default [] (delta_content d)
      | None => []
      end
  | [] => []
  end.

Definition openai_stream_text (response : stream openai_chunk) : str :=
  concat (map openai_delta_text (stream_items response)).

Definition unroutable_stream (model : str) : exn :=
  ValueError (lit "Cannot route model for streaming: " ++ model).

(** A usable candidate whose embedding is a vector of the dimension of the
    query. *)
Definition dimension_ok (query_embedding : list float) (d : gmap str value) : Prop :=
  usable d = true ->
  exists v, embedding_of d = VVec v /\ length v = length query_embedding.

Definition has_key (k : str) (d : gmap str value) : bool :=
  match d !! k with
  | Some _ => true
  | None => false
  end.

Definition is_done_event (event : json) : bool :=
  match event with
  | JObj ((_, JStr kind) :: _) => str_eqb kind (lit "done")
  | _ => false
  end.

(** * Properties *)

(** ** Text and patterns *)

Lemma str_eqb_eq (a b : str) : str_eqb a b = true <-> a = b.
Proof.
  revert b. induction a as [|x a IH]; intros [|y b]; simpl; try done.
  rewrite andb_true_iff, IH. unfold char_eqb. rewrite N.eqb_eq.
  split; [by intros [-> ->] | by intros [= -> ->]].
Qed.

Lemma str_eqb_refl (a : str) : str_eqb a a = true.
Proof. by apply str_eqb_eq. Qed.

Lemma str_eqb_neq (a b : str) : str_eqb a b = false <-> a <> b.
Proof.
  rewrite <- str_eqb_eq. destruct (str_eqb a b); split; done.
Qed.

Lemma lstrip_blank (s : str) : blank s = true -> lstrip s = [].
Proof.
  induction s as [|c s IH]; simpl; [done|].
  intros [Hc Hs]%andb_prop. rewrite Hc. auto.
Qed.

Lemma strip_blank (s : str) : blank s = true -> strip s = [].
Proof. intros H. unfold strip. by rewrite (lstrip_blank s H). Qed.

Lemma lstrip_nil_blank (s : str) : lstrip s = [] -> blank s = true.
Proof.
  induction s as [|c s IH]; simpl; [done|].
  destruct (isspace c); [auto | done].
Qed.

Lemma rstrip_nil_blank (s : str) : rstrip s = [] -> blank s = true.
Proof.
  unfold rstrip. intros H.
  assert (Hl : lstrip (rev s) = []).
  { apply (f_equal (@rev char)) in H. rewrite rev_involutive in H. exact H. }
  apply lstrip_nil_blank in Hl.
  unfold blank in *. rewrite forallb_forall in *.
  intros x Hx. apply Hl. by apply in_rev in Hx.
Qed.

Lemma lstrip_suffix (s : str) : exists p, s = p ++ lstrip s /\ blank p = true.
Proof.
  induction s as [|c s [p [IH Hp]]]; simpl.
  - by exists [].
  - destruct (isspace c) eqn:Hc.
    + exists (c :: p). simpl. rewrite Hc, Hp. split; [by f_equal | done].
    + by exists [].
Qed.

(** [strip] gives the empty string exactly on a blank string (which is how the
    two tests at the head of [_extract_json] read). *)
Lemma strip_nil_iff (s : str) : strip s = [] <-> blank s = true.
Proof.
  split; [|apply strip_blank].
  unfold strip. intros H. apply rstrip_nil_blank in H.
  destruct (lstrip_suffix s) as [p [Hs Hp]]. rewrite Hs.
  unfold blank in *. rewrite forallb_app. by rewrite Hp, H.
Qed.

(** No match of the response pattern starts on a space. *)
Lemma response_re_no_match_blank (s : str) :
  blank s = true -> re_search response_re s = None.
Proof.
  induction s as [|c s IH]; [done|].
  intros [Hc Hs]%andb_prop. fold (blank s) in Hs.
  cbn [re_search].
  assert (Hm : match_here response_re (c :: s) = None).
  { unfold match_here, response_re, quoted. cbn [Seqs app Lit rmatch Chr].
    replace (char_eqb dquote c) with false; [done|].
    symmetry. unfold char_eqb, dquote. apply N.eqb_neq. intros <-. done. }
  rewrite Hm. auto.
Qed.

Lemma startswith_true (s p : str) :
  startswith s p = true <-> exists r, s = p ++ r.
Proof.
  revert s. induction p as [|c p IH]; intros s; simpl.
  - split; [intros _; by exists s | intros _; by destruct s].
  - destruct s as [|d s].
    + split; [done | intros [r Hr]; discriminate Hr].
    + cbn [startswith]. rewrite andb_true_iff, IH. unfold char_eqb. rewrite N.eqb_eq. split.
      * intros [-> [r ->]]. by exists r.
      * intros [r Hr]. injection Hr as -> ->. split; [done | by exists r].
Qed.

(** ** What the patterns match *)

(** A greedy [.*] hands the continuation the shortest suffix first. *)
Lemma star_any_greedy (k : continuation) (n : nat) (cap : option str) (t : str) :
  length t <= n ->
  star_loop (rmatch Any) true k n cap t = last_suffix (k cap) t.
Proof.
  revert n. induction t as [|c t IH]; intros n Hn.
  - destruct n; reflexivity.
  - destruct n as [|n]; [simpl in Hn; lia|].
    cbn [star_loop rmatch Any last_suffix].
    replace (length t <? length (c :: t)) with true
      by (symmetry; apply Nat.ltb_lt; simpl; lia).
    rewrite IH by (simpl in Hn; lia). reflexivity.
Qed.

(** A lazy [.*?] hands the continuation the longest suffix first. *)
Lemma star_any_lazy (k : continuation) (n : nat) (cap : option str) (t : str) :
  length t <= n ->
  star_loop (rmatch Any) false k n cap t = first_suffix (k cap) t.
Proof.
  revert n. induction t as [|c t IH]; intros n Hn.
  - destruct n; simpl; by destruct (k cap []).
  - destruct n as [|n]; [simpl in Hn; lia|].
    cbn [star_loop rmatch Any first_suffix].
    replace (length t <? length (c :: t)) with true
      by (symmetry; apply Nat.ltb_lt; simpl; lia).
    rewrite IH by (simpl in Hn; lia). reflexivity.
Qed.

Lemma first_suffix_ext {A : Type} (k1 k2 : str -> option A) (t : str) :
  (forall s, k1 s = k2 s) -> first_suffix k1 t = first_suffix k2 t.
Proof.
  intros H. induction t as [|c t IH]; simpl; rewrite H; [done|]. by rewrite IH.
Qed.

Lemma after_last_length (c : char) (t post : str) :
  after_last c t = Some post -> length post < length t.
Proof.
  revert post. induction t as [|x t IH]; intros post; simpl; [done|].
  destruct (after_last c t) as [p|].
  - intros [= <-]. specialize (IH p eq_refl). lia.
  - destruct (char_eqb c x); [|done]. intros [= <-]. lia.
Qed.

Lemma last_suffix_after_last (c : char) (cap : option str) (t : str) :
  @last_suffix match_state
    (fun s' => match s' with
               | x :: r => if char_eqb c x then Some (r, cap) else None
               | [] => None
               end) t
  = (fun post => (post, cap)) <$> after_last c t.
Proof.
  induction t as [|x t IH]; [done|].
  cbn [last_suffix after_last]. rewrite IH.
  destruct (after_last c t); simpl; [done|]. by destruct (char_eqb c x).
Qed.

Lemma match_here_brace (s : str) :
  match_here brace_re s =
  match s with
  | c :: t =>
      if char_eqb 123%N c
      then (fun post => (c :: take (length t - length post) t, None)) <$> after_last 125%N t
      else None
  | [] => None
  end.
Proof.
  destruct s as [|c t]; [done|].
  unfold match_here, brace_re. cbn [Seqs rmatch Chr].
  destruct (char_eqb 123%N c); [|done].
  rewrite star_any_greedy by done.
  set (found := last_suffix _ t).
  assert (Hf : found = (fun post => (post, None)) <$> after_last 125%N t)
    by apply last_suffix_after_last.
  rewrite Hf. clear found Hf.
  destruct (after_last 125%N t) as [post|] eqn:Hp; simpl; [|done].
  apply after_last_length in Hp.
  replace (S (length t) - length post) with (S (length t - length post)) by lia.
  reflexivity.
Qed.

Lemma re_search_brace_none (t : str) :
  after_last 125%N t = None -> re_search brace_re t = None.
Proof.
  induction t as [|x t IH]; [done|].
  cbn [after_last re_search]. rewrite match_here_brace.
  destruct (after_last 125%N t); [done|].
  intros _. specialize (IH eq_refl).
  by destruct (char_eqb 123%N x).
Qed.

(** The brace pattern finds the span from the first opening brace to the last
    closing brace after it. *)
Lemma re_search_brace (s : str) :
  group0 <$> re_search brace_re s = brace_span s.
Proof.
  induction s as [|c t IH]; [done|].
  cbn [re_search brace_span]. rewrite match_here_brace.
  destruct (char_eqb 123%N c); [|exact IH].
  destruct (after_last 125%N t) eqn:Hp; simpl; [done|].
  by rewrite (re_search_brace_none t Hp).
Qed.

(** *** The fence pattern *)

Lemma rmatch_Lit (p : str) (cap : option str) (s : str) (k : continuation) :
  rmatch (Lit p) cap s k = if startswith s p then k cap (drop (length p) s) else None.
Proof.
  revert s. induction p as [|c p IH]; intros s.
  - by destruct s.
  - destruct s as [|d s]; [done|].
    cbn [Lit rmatch Chr startswith length drop]. destruct (char_eqb c d); [apply IH|done].
Qed.

Lemma cut_app (p s b a : str) : cut p s = Some (b, a) -> s = b ++ p ++ a.
Proof.
  revert b. induction s as [|c s IH]; intros b; cbn [cut].
  - destruct (startswith [] p) eqn:Hp; [|done].
    intros [= <- <-]. by apply startswith_true in Hp as [r ->%eq_sym%app_eq_nil%proj1].
  - destruct (startswith (c :: s) p) eqn:Hp.
    + intros [= <- <-]. apply startswith_true in Hp as [r Hr]. rewrite Hr at 1.
      cbn [app]. f_equal. rewrite Hr. by rewrite drop_app_length.
    + destruct (cut p s) as [[b' a']|]; [|done]. cbn. intros [= <- <-].
      cbn [app]. f_equal. by apply IH.
Qed.

Lemma cut_none_tail (c : char) (s : str) : cut fence (c :: s) = None -> cut fence s = None.
Proof.
  cbn [cut]. destruct (startswith (c :: s) fence); [done|].
  by destruct (cut fence s).
Qed.

(** A text without a fence has no fence in any of its suffixes. *)
Lemma cut_none_drop (k : nat) (s : str) : cut fence s = None -> cut fence (drop k s) = None.
Proof.
  revert s. induction k as [|k IH]; intros s Hs; [done|].
  destruct s as [|c s]; [done|]. cbn [drop]. by apply IH, cut_none_tail with c.
Qed.

Lemma startswith_fence_tick (c : char) (s : str) :
  char_eqb 96%N c = false -> startswith (c :: s) fence = false.
Proof.
  intros H. destruct (startswith (c :: s) fence) eqn:Hs; [|done].
  apply startswith_true in Hs as [r Hr]. injection Hr as -> _. done.
Qed.

(** A prefix without a backtick does not change where the first fence is. *)
Lemma cut_no_tick_prefix (p v : str) :
  no_tick p = true ->
  cut fence (p ++ v) = (fun ba => (p ++ fst ba, snd ba)) <$> cut fence v.
Proof.
  induction p as [|c p IH]; intros Hp.
  - cbn [app]. by destruct (cut fence v) as [[b a]|].
  - apply andb_prop in Hp as [Hc Hp]. apply negb_true_iff in Hc.
    cbn [app cut]. rewrite (startswith_fence_tick c _ Hc), (IH Hp).
    by destruct (cut fence v) as [[b a]|].
Qed.

Lemma blank_no_tick (p : str) : blank p = true -> no_tick p = true.
Proof.
  unfold blank, no_tick. induction p as [|c p IH]; [done|].
  cbn [forallb]. intros [Hc Hp]%andb_prop. rewrite (IH Hp), andb_true_r.
  apply negb_true_iff. unfold char_eqb. apply N.eqb_neq. intros <-. done.
Qed.

Lemma lstrip_drop (s : str) : exists k, lstrip s = drop k s.
Proof.
  induction s as [|c s [k IH]]; [by exists 0|].
  cbn [lstrip]. destruct (isspace c); [by exists (S k) | by exists 0].
Qed.

Lemma after_tag_drop (s : str) : exists k, after_tag s = drop k s.
Proof. unfold after_tag. destruct (startswith s (lit "json")); [by exists 4 | by exists 0]. Qed.

(** Skipping the tag and the white space neither hides nor adds a fence. *)
Lemma cut_lstrip (s : str) :
  cut fence (lstrip s) = None <-> cut fence s = None.
Proof.
  destruct (lstrip_suffix s) as (p & Hs & Hp). rewrite Hs at 2.
  rewrite (cut_no_tick_prefix p _ (blank_no_tick p Hp)).
  by destruct (cut fence (lstrip s)).
Qed.

Lemma cut_after_tag (s : str) :
  cut fence (after_tag s) = None <-> cut fence s = None.
Proof.
  unfold after_tag. destruct (startswith s (lit "json")) eqn:Hj; [|done].
  apply startswith_true in Hj as [r ->].
  change (drop 4 (lit "json" ++ r)) with r.
  rewrite (cut_no_tick_prefix (lit "json") r eq_refl).
  by destruct (cut fence r).
Qed.

Lemma cut_body (s : str) :
  cut fence (lstrip (after_tag s)) = None <-> cut fence s = None.
Proof. by rewrite cut_lstrip, cut_after_tag. Qed.

Lemma first_suffix_cut (s pre : str) :
  @first_suffix match_state
    (fun s' => if startswith s' fence
               then Some (drop 3 s', Some (take (length (pre ++ s) - length s') (pre ++ s)))
               else None) s
  = (fun ba => (snd ba, Some (pre ++ fst ba))) <$> cut fence s.
Proof.
  revert pre. induction s as [|c s IH]; intros pre.
  - cbn [first_suffix cut]. by change (startswith [] fence) with false.
  - cbn [first_suffix cut]. destruct (startswith (c :: s) fence) eqn:Hs.
    + cbn. f_equal. f_equal. f_equal.
      rewrite length_app, Nat.add_sub, take_app_length. by rewrite app_nil_r.
    + specialize (IH (pre ++ [c])). rewrite <- app_assoc in IH. cbn [app] in IH.
      rewrite IH. destruct (cut fence s) as [[b a]|]; [|done].
      cbn. by rewrite <- app_assoc.
Qed.

Section FencePattern.

Implicit Types (k : continuation) (cap : option str) (u s : str).

(** The closing fence. *)
Lemma match_closing_fence k cap s :
  rmatch (Seqs [Lit fence]) cap s k
  = if startswith s fence then k cap (drop 3 s) else None.
Proof. cbn [Seqs rmatch]. rewrite rmatch_Lit. reflexivity. Qed.

(** The lazy group followed by the closing fence: the interior runs up to
    the first fence. *)
Lemma match_group k cap u :
  (forall cap' s, k cap' s = if startswith s fence then Some (drop 3 s, cap') else None) ->
  rmatch (Group (Star false Any)) cap u k = closing u.
Proof.
  intros Hk. cbn [rmatch]. rewrite star_any_lazy by done.
  etrans; [apply first_suffix_ext; intros s'; apply Hk|].
  etrans; [apply (first_suffix_cut u [])|].
  unfold closing. by destruct (cut fence u) as [[b a]|].
Qed.

(** The optional newline before the group. *)
Lemma match_newline k cap u :
  (forall cap' s, k cap' s = closing s) ->
  rmatch (Opt (Chr newline)) cap u k
  = match u with
    | c :: u' =>
        if char_eqb newline c
        then match closing u' with
             | Some m => Some m
             | None => closing u
             end
        else closing u
    | [] => closing []
    end.
Proof.
  intros Hk. unfold Opt. cbn [rmatch Chr]. rewrite !Hk.
  destruct u as [|c u']; [done|]. rewrite Hk. by destruct (char_eqb newline c).
Qed.

Lemma closing_none_blank_prefix (p u : str) :
  blank p = true -> closing u = None -> closing (p ++ u) = None.
Proof.
  unfold closing. intros Hp Hu.
  rewrite (cut_no_tick_prefix p u (blank_no_tick p Hp)).
  by destruct (cut fence u).
Qed.

(** The white space before the group: the matcher gives back white space only
    when no fence follows, so the interior starts after all of it. *)
Lemma match_spaces k n cap u :
  (forall cap' s,
     k cap' s = match s with
                | c :: s' =>
                    if char_eqb newline c
                    then match closing s' with
                         | Some m => Some m
                         | None => closing s
                         end
                    else closing s
                | [] => closing []
                end) ->
  length u <= n ->
  star_loop (rmatch Space) true k n cap u = closing (lstrip u).
Proof.
  intros Hk. revert n. induction u as [|c u IH]; intros n Hn.
  - destruct n; cbn [star_loop rmatch Space]; by rewrite Hk.
  - destruct n as [|n]; [simpl in Hn; lia|].
    cbn [star_loop rmatch Space lstrip].
    destruct (isspace c) eqn:Hc.
    + replace (length u <? length (c :: u)) with true
        by (symmetry; apply Nat.ltb_lt; simpl; lia).
      rewrite IH by (simpl in Hn; lia).
      destruct (closing (lstrip u)) as [m|] eqn:Hcl; [done|].
      destruct (lstrip_suffix u) as (p & Hu & Hp).
      assert (Hu0 : closing u = None).
      { rewrite Hu. by apply closing_none_blank_prefix. }
      assert (Hcu : closing (c :: u) = None).
      { rewrite Hu. apply (closing_none_blank_prefix (c :: p)); [|done].
        unfold blank. cbn [forallb]. by rewrite Hc. }
      rewrite Hk. destruct (char_eqb newline c); by rewrite ?Hu0, Hcu.
    + rewrite Hk. destruct (char_eqb newline c) eqn:Hnl; [|done].
      unfold char_eqb in Hnl. apply N.eqb_eq in Hnl. subst c. done.
Qed.

(** The optional tag before the white space. *)
Lemma match_tag k cap u :
  (forall cap' s, k cap' s = closing (lstrip s)) ->
  rmatch (Opt (Lit (lit "json"))) cap u k = closing (lstrip (after_tag u)).
Proof.
  intros Hk. unfold Opt. cbn [rmatch]. rewrite rmatch_Lit, !Hk. unfold after_tag.
  destruct (startswith u (lit "json")) eqn:Hj; [|done].
  change (length (lit "json")) with 4.
  destruct (closing (lstrip (drop 4 u))) as [m|] eqn:Hcl; [done|].
  (* no fence after the tag: none from the tag on either *)
  unfold closing in *.
  destruct (cut fence (lstrip (drop 4 u))) eqn:Hcut; [done|].
  apply (proj1 (cut_lstrip _)) in Hcut.
  apply startswith_true in Hj as [r ->].
  change (drop 4 (lit "json" ++ r)) with r in Hcut.
  assert (Hnone : cut fence (lstrip (lit "json" ++ r)) = None).
  { apply (proj2 (cut_lstrip _)).
    rewrite (cut_no_tick_prefix (lit "json") r eq_refl). by rewrite Hcut. }
  by rewrite Hnone.
Qed.

Lemma rmatch_Seqs_cons (r : regex) (rs : list regex) k cap s :
  rmatch (Seqs (r :: rs)) cap s k
  = rmatch r cap s (fun cap' s' => rmatch (Seqs rs) cap' s' k).
Proof. reflexivity. Qed.

Lemma rmatch_Star (greedy : bool) (r : regex) k cap s :
  rmatch (Star greedy r) cap s k = star_loop (rmatch r) greedy k (length s) cap s.
Proof. reflexivity. Qed.

(** A match of the fence pattern at the head of [s]. *)
Lemma match_here_fence s :
  snd <$> match_here fence_re s
  = if startswith s fence
    then (fun ba => Some (fst ba)) <$> cut fence (lstrip (after_tag (drop 3 s)))
    else None.
Proof.
  unfold match_here, fence_re.
  rewrite rmatch_Seqs_cons, rmatch_Lit.
  change (lit "```") with fence. change (length fence) with 3.
  destruct (startswith s fence); [|done].
  rewrite rmatch_Seqs_cons, match_tag.
  - unfold closing. by destruct (cut fence _) as [[b a]|].
  - intros cap' s'. rewrite rmatch_Seqs_cons, rmatch_Star.
    apply match_spaces; [|done].
    intros cap'' s''. rewrite rmatch_Seqs_cons.
    apply match_newline.
    intros cap3 s3. rewrite rmatch_Seqs_cons.
    apply match_group.
    intros cap4 s4. apply match_closing_fence.
Qed.

End FencePattern.

Lemma match_here_fence_none (s : str) :
  (startswith s fence = true -> cut fence (drop 3 s) = None) ->
  match_here fence_re s = None.
Proof.
  intros H. pose proof (match_here_fence s) as Hm.
  destruct (match_here fence_re s) as [m|]; [|done].
  destruct (startswith s fence); [|done].
  rewrite (proj2 (cut_body _) (H eq_refl)) in Hm. done.
Qed.

(** After a fence that is not closed, no later fence is closed either. *)
Lemma no_second_fence_tail (c : char) (t : str) :
  startswith (c :: t) fence = true -> cut fence (drop 3 (c :: t)) = None ->
  forall b a, cut fence t = Some (b, a) -> cut fence a = None.
Proof.
  intros _ Hrest b a Hcut. apply cut_app in Hcut.
  assert (Ha : a = drop (length b + 1) (drop 3 (c :: t))).
  { cbn [drop]. rewrite drop_drop.
    replace (2 + (length b + 1)) with (length (b ++ fence)) by (rewrite length_app; simpl; lia).
    rewrite Hcut at 1. rewrite app_assoc. by rewrite drop_app_length. }
  rewrite Ha. by apply cut_none_drop.
Qed.

(** A text in which no fence follows the first one has no match. *)
Lemma re_search_fence_none (t : str) :
  (forall b a, cut fence t = Some (b, a) -> cut fence a = None) ->
  re_search fence_re t = None.
Proof.
  induction t as [|c t IH]; intros H.
  - cbn [re_search]. by rewrite match_here_fence_none.
  - cbn [re_search]. rewrite match_here_fence_none.
    + apply IH. destruct (startswith (c :: t) fence) eqn:Hs.
      * apply (no_second_fence_tail c t Hs). apply (H []). cbn [cut]. by rewrite Hs.
      * intros b a Hcut. apply (H (c :: b)). cbn [cut]. by rewrite Hs, Hcut.
    + intros Hs. apply (H []). cbn [cut]. by rewrite Hs.
Qed.

(** The fence pattern finds the interior of the first fenced block. *)
Lemma re_search_fence (s : str) :
  group1 <$> re_search fence_re s = fence_interior s.
Proof.
  induction s as [|c s IH].
  - cbn [re_search]. by rewrite match_here_fence_none.
  - cbn [re_search]. unfold fence_interior. cbn [cut].
    pose proof (match_here_fence (c :: s)) as Hm.
    destruct (startswith (c :: s) fence) eqn:Hs.
    + destruct (cut fence (lstrip (after_tag (drop 3 (c :: s))))) as [[b a]|] eqn:Hcut.
      * change (drop (length fence) (c :: s)) with (drop 3 (c :: s)). rewrite Hcut.
        destruct (match_here fence_re (c :: s)) as [[g0 g1]|]; [|done].
        cbn in Hm. injection Hm as ->. done.
      * change (drop (length fence) (c :: s)) with (drop 3 (c :: s)). rewrite Hcut.
        destruct (match_here fence_re (c :: s)) as [m|]; [done|].
        rewrite re_search_fence_none; [done|].
        apply (no_second_fence_tail c s Hs). by apply cut_body.
    + destruct (match_here fence_re (c :: s)) as [m|]; [done|].
      rewrite IH. unfold fence_interior.
      by destruct (cut fence s) as [[b a]|].
Qed.

(** ** Loops with exceptions *)

Lemma for_each_raise {A B : Type} (f : A -> result B) (xs : list A) (e : exn) :
  for_each f xs = Raise e -> exists x, In x xs /\ f x = Raise e.
Proof.
  induction xs as [|x xs IH]; simpl; [done|].
  destruct (f x) as [y|e'] eqn:Hx; simpl.
  - destruct (for_each f xs) as [ys|e'']; simpl; [done|].
    intros [= ->]. destruct IH as [x' [Hin Hx']]; [done|]. exists x'. auto.
  - intros [= ->]. exists x. auto.
Qed.

Lemma for_each_total {A B : Type} (f : A -> result B) (g : A -> B) (xs : list A) :
  (forall x, In x xs -> f x = Ok (g x)) -> for_each f xs = Ok (map g xs).
Proof.
  induction xs as [|x xs IH]; simpl; [done|].
  intros H. rewrite (H x (or_introl eq_refl)). simpl.
  rewrite IH; [done|]. intros y Hy. apply H. by right.
Qed.

Lemma enumerate_from_lookup {A : Type} (xs : list A) (i j : nat) (x : A) :
  enumerate_from i xs !! j = Some (i + j, x) <-> xs !! j = Some x.
Proof.
  revert i j. induction xs as [|y xs IH]; intros i j; simpl; [done|].
  destruct j as [|j]; simpl.
  - rewrite Nat.add_0_r. split; [by intros [= ->] | by intros [= ->]].
  - replace (i + S j) with (S i + j) by lia. apply IH.
Qed.

Lemma enumerate_from_fst {A : Type} (xs : list A) (i j : nat) (p : nat * A) :
  enumerate_from i xs !! j = Some p -> fst p = i + j /\ xs !! j = Some (snd p).
Proof.
  revert i j. induction xs as [|y xs IH]; intros i j; simpl; [done|].
  destruct j as [|j]; simpl.
  - intros [= <-]. simpl. split; [lia|done].
  - intros H. apply IH in H as [H1 H2]. split; [lia|done].
Qed.

Lemma enumerate_from_length {A : Type} (xs : list A) (i : nat) :
  length (enumerate_from i xs) = length xs.
Proof. revert i. induction xs; intros; simpl; auto. Qed.

Lemma lookup_map {A B : Type} (f : A -> B) (l : list A) (i : nat) :
  map f l !! i = f <$> l !! i.
Proof. apply (list_lookup_fmap f l i). Qed.

(** ** Structured-output recovery in [chat] *)

Section RecoveryTheory.

Variable json_loads : str -> result json.

(** [_extract_json] raises its two [ValueError]s, or an exception of
    [json.loads] that [except json.JSONDecodeError] does not catch. *)
Lemma extract_json_raises (text : str) (e : exn) :
  _extract_json json_loads text = Raise e ->
  e = ValueError (lit "Empty response from LLM")
  \/ (exists body, e = ValueError (lit "Could not extract JSON from: " ++ prefix200 body))
  \/ (exists s, json_loads s = Raise e /\ e <> JSONDecodeError).
Proof.
  unfold _extract_json.
  destruct (_ || _); [intros [= <-]; by left|].
  set (body := match re_search fence_re (strip text) with
               | Some m => strip (group1 m) | None => strip text end).
  assert (Hfail : forall e',
            Raise (A := json) (ValueError (lit "Could not extract JSON from: " ++ prefix200 body))
            = Raise e' ->
            e' = ValueError (lit "Empty response from LLM")
            \/ (exists body, e' = ValueError (lit "Could not extract JSON from: "
                                              ++ prefix200 body))
            \/ (exists s, json_loads s = Raise e' /\ e' <> JSONDecodeError)).
  { intros e' [= <-]. right. left. by exists body. }
  unfold try_except_JSONDecodeError at 1.
  destruct (json_loads body) as [v|e1] eqn:H1; [done|].
  destruct (caught_by_JSONDecodeError e1) eqn:Hc1.
  - destruct (re_search brace_re body) as [m|]; [|apply Hfail].
    unfold try_except_JSONDecodeError.
    destruct (json_loads (group0 m)) as [v|e2] eqn:H2; [done|].
    destruct (caught_by_JSONDecodeError e2) eqn:Hc2; [apply Hfail|].
    intros [= <-]. right. right. exists (group0 m). split; [done|].
    intros ->. done.
  - intros [= <-]. right. right. exists body. split; [done|]. intros ->. done.
Qed.

Lemma extract_json_blank (text : str) :
  blank text = true ->
  _extract_json json_loads text = Raise (ValueError (lit "Empty response from LLM")).
Proof.
  intros H. unfold _extract_json. rewrite (strip_blank text H).
  by rewrite orb_true_r.
Qed.

Lemma caught_by_JSONDecodeError_false (e : exn) :
  e <> JSONDecodeError -> caught_by_JSONDecodeError e = false.
Proof. by destruct e. Qed.

(** C2 (amended). On a text that is not blank, [_extract_json] works on one
    body: the trimmed interior of the first fenced block (after the first
    fence, its optional tag json and white space, up to the next fence) when
    the trimmed text has one, else the trimmed text. It
    parses the body as JSON; if that fails it parses the greedy brace span of
    the body, from its first opening brace to the last closing brace; if that
    fails too it raises the unparseable-response error, which carries the
    first 200 characters of the body at most. The whole text is not parsed
    again once a fenced block was found. A parse fails, for this, when
    [json.loads] raises [json.JSONDecodeError]; any other exception of
    [json.loads] ends the recovery and comes through as it is. *)
Theorem extract_json_strategy (text : str) :
  blank text = false ->
  let body := recovery_body text in
  (forall v, json_loads body = Ok v -> _extract_json json_loads text = Ok v)
  /\ (forall span v,
        json_loads body = Raise JSONDecodeError -> brace_span body = Some span ->
        json_loads span = Ok v -> _extract_json json_loads text = Ok v)
  /\ (json_loads body = Raise JSONDecodeError ->
      (forall span, brace_span body = Some span -> json_loads span = Raise JSONDecodeError) ->
       _extract_json json_loads text
       = Raise (ValueError (lit "Could not extract JSON from: " ++ take 200 body))
       /\ length (take 200 body) <= 200
       /\ take 200 body `prefix_of` body)
  /\ (forall e, json_loads body = Raise e -> e <> JSONDecodeError ->
        _extract_json json_loads text = Raise e)
  /\ (forall span e,
        json_loads body = Raise JSONDecodeError -> brace_span body = Some span ->
        json_loads span = Raise e -> e <> JSONDecodeError ->
        _extract_json json_loads text = Raise e).
Proof.
  intros Hb. cbv zeta.
  assert (Hhead : (match text with [] => true | _ => false end
                   || match strip text with [] => true | _ => false end) = false).
  { destruct text as [|c text]; [done|]. simpl orb.
    destruct (strip (c :: text)) eqn:Hs; [|done].
    apply strip_nil_iff in Hs. congruence. }
  unfold _extract_json. rewrite Hhead.
  assert (Hbody : match re_search fence_re (strip text) with
                  | Some m => strip (group1 m)
                  | None => strip text
                  end = recovery_body text).
  { unfold recovery_body. rewrite <- re_search_fence.
    by destruct (re_search fence_re (strip text)). }
  rewrite Hbody. set (body := recovery_body text).
  pose proof (re_search_brace body) as Hbrace.
  split; [|split; [|split; [|split]]].
  - intros v ->. done.
  - intros span v -> Hspan Hv. rewrite Hspan in Hbrace.
    destruct (re_search brace_re body) as [m|]; [|done].
    injection Hbrace as ->. unfold try_except_JSONDecodeError.
    cbn [caught_by_JSONDecodeError]. by rewrite Hv.
  - intros -> Hnone.
    split; [|split].
    + unfold try_except_JSONDecodeError. cbn [caught_by_JSONDecodeError].
      destruct (re_search brace_re body) as [m|]; [|done].
      simpl in Hbrace. rewrite (Hnone (group0 m)); [done|]. by rewrite <- Hbrace.
    + rewrite length_take. lia.
    + apply prefix_take.
  - intros e -> He. unfold try_except_JSONDecodeError at 1.
    by rewrite (caught_by_JSONDecodeError_false e He).
  - intros span e -> Hspan Hv He. rewrite Hspan in Hbrace.
    destruct (re_search brace_re body) as [m|]; [|done].
    injection Hbrace as ->. unfold try_except_JSONDecodeError.
    cbn [caught_by_JSONDecodeError]. rewrite Hv.
    by rewrite (caught_by_JSONDecodeError_false e He).
Qed.

(** The [try]/[except] of both adapters, on the content of a response. *)
Lemma recovery_cases (content : str) :
  try_except_ValueError (_extract_json json_loads content) (Ok (_fallback_response content))
  = match _extract_json json_loads content with
    | Ok v => Ok v
    | Raise e =>
        if caught_by_ValueError e
        then Ok (fallback_mapping (fallback_text content))
        else Raise e
    end.
Proof. by destruct (_extract_json json_loads content) as [v|e]. Qed.

(** What comes out of the handler is an exception of [json.loads] that is
    not a [ValueError]. *)
Lemma recovered_raises (json_mode : bool) (content : str) (e : exn) :
  (if json_mode
   then try_except_ValueError (_extract_json json_loads content)
                              (Ok (_fallback_response content))
   else Ok (JObj [(lit "response", JStr content)])) = Raise e ->
  json_mode = true
  /\ _extract_json json_loads content = Raise e
  /\ caught_by_ValueError e = false
  /\ exists s, json_loads s = Raise e.
Proof.
  destruct json_mode; [|discriminate].
  rewrite recovery_cases.
  destruct (_extract_json json_loads content) as [v|e'] eqn:He; [done|].
  destruct (caught_by_ValueError e') eqn:Hc; [done|].
  intros [= <-]. repeat split; try done.
  apply extract_json_raises in He as [->|[[body ->]|[s [Hs _]]]]; [done|done|].
  by exists s.
Qed.

Variable b64decode : str -> b64_failure + list N.

Lemma gemini_attachment_part_raises (att : attachment) (e : exn) :
  gemini_attachment_part b64decode att = Raise e ->
  exists failure, b64decode (att_data att) = inl failure /\ e = b64_exn failure.
Proof.
  unfold gemini_attachment_part. destruct (b64decode _) as [f|raw]; [|done].
  intros [= <-]. by exists f.
Qed.

(** Building the Gemini contents fails only on attachment data that does not
    decode, with the exception of the decoder. *)
Lemma build_gemini_contents_raises (messages : list message)
    (attachments : option (list attachment)) (e : exn) :
  _build_gemini_contents b64decode messages attachments = Raise e ->
  exists att failure,
    In att (attachment_items attachments)
    /\ b64decode (att_data att) = inl failure /\ e = b64_exn failure.
Proof.
  unfold _build_gemini_contents. intros [[i msg] [_ H]]%for_each_raise.
  unfold gemini_content in H. simpl in H.
  destruct (_ && _ && _); [|done].
  destruct (for_each _ _) as [more|e'] eqn:Hm; simpl in H; [done|].
  injection H as <-.
  apply for_each_raise in Hm as [att [Hin Hatt]].
  apply gemini_attachment_part_raises in Hatt as [f [Hf ->]]. by exists att, f.
Qed.

(** The exception of the decoder is a [ValueError] of its own. *)
Lemma b64_exn_not_unroutable (failure : b64_failure) (model : str) :
  b64_exn failure <> unroutable model.
Proof. destruct failure; intros H; vm_compute in H; discriminate H. Qed.

(** With a request that reaches a provider, the call is the recovery of the
    answer. *)
Lemma chat_answered (self : LLMRouter.t) (messages : list message)
    (system_prompt : str) (model : option str) (attachments : option (list attachment))
    (use_search : bool) (response : option str) :
  reaches_provider b64decode self messages model attachments ->
  LLMRouter.chat json_loads b64decode (answering response) (answering response)
    self messages system_prompt true model attachments use_search
  = match _extract_json json_loads (default [] response) with
    | Ok v => Ok v
    | Raise e =>
        if caught_by_ValueError e
        then Ok (fallback_mapping (fallback_text (default [] response)))
        else Raise e
    end.
Proof.
  unfold reaches_provider, LLMRouter.chat. cbv zeta.
  intros [Hp|[Hp [contents Hc]]]; rewrite Hp.
  - rewrite str_eqb_refl. unfold LLMRouter._openai_chat, answering.
    cbn [LLMRouter.await bind]. apply recovery_cases.
  - replace (str_eqb (lit "gemini") (lit "openai")) with false by reflexivity.
    rewrite str_eqb_refl. unfold LLMRouter._gemini_chat. rewrite Hc.
    unfold answering. cbn [LLMRouter.await bind]. apply recovery_cases.
Qed.

(** C1 (amended). A single-shot call in JSON mode whose request reaches a
    provider, whatever the conversation, the system prompt and the text the
    provider answers with, returns the extracted value when the extraction
    succeeds, and when the extraction raises a [ValueError] (its
    empty-response or unparseable-response error, or a [ValueError] of
    [json.loads]) it returns the fallback mapping instead of raising:
    response is the text salvaged from a response key or else the raw text,
    topic is an empty name, no matched id and confidence 0, concepts is
    empty. An exception of [json.loads] that is not a [ValueError], as
    [RecursionError] is, is not caught: the call raises it. So the call
    never raises when [json.loads] raises nothing but [ValueError]s. *)
Theorem chat_json_mode_never_propagates_parse_error
    (self : LLMRouter.t) (messages : list message) (system_prompt : str)
    (model : option str) (attachments : option (list attachment))
    (use_search : bool) (response : option str) :
  let content := default [] response in
  let r := LLMRouter.chat json_loads b64decode (answering response) (answering response)
             self messages system_prompt true model attachments use_search in
  reaches_provider b64decode self messages model attachments ->
  (forall v, _extract_json json_loads content = Ok v -> r = Ok v)
  /\ (forall e, _extract_json json_loads content = Raise e ->
        caught_by_ValueError e = true ->
        r = Ok (fallback_mapping (fallback_text content))
        /\ json_get (fallback_mapping (fallback_text content)) "response"
           = Some (JStr (fallback_text content)))
  /\ (forall e, _extract_json json_loads content = Raise e ->
        caught_by_ValueError e = false ->
        r = Raise e /\ exists s, json_loads s = Raise e)
  /\ ((forall s e, json_loads s = Raise e -> caught_by_ValueError e = true) ->
      exists v, r = Ok v
        /\ (v = fallback_mapping (fallback_text content)
            \/ _extract_json json_loads content = Ok v)).
Proof.
  cbv zeta. intros Hreach.
  rewrite (chat_answered self messages system_prompt model attachments use_search
             response Hreach).
  split; [|split; [|split]].
  - by intros v ->.
  - intros e -> ->. done.
  - intros e He Hc. rewrite He, Hc. split; [done|].
    apply extract_json_raises in He as [->|[[body ->]|[s [Hs _]]]]; [done|done|].
    by exists s.
  - intros Hloads.
    destruct (_extract_json json_loads (default [] response)) as [v|e] eqn:He.
    + exists v. split; [done|]. by right.
    + assert (Hc : caught_by_ValueError e = true).
      { apply extract_json_raises in He as [->|[[body ->]|[s [Hs _]]]]; [done|done|].
        by apply (Hloads s). }
      rewrite Hc. eexists. split; [done|]. by left.
Qed.

(** C10. In JSON mode, when the provider answers with an empty or blank text,
    or with no content at all (read as the empty text), the call does not
    raise: the empty-response error of the extraction is caught and the call
    returns the fallback mapping, with response equal to that raw text and
    topic.confidence equal to 0. *)
Theorem chat_blank_response_falls_back
    (self : LLMRouter.t) (messages : list message) (system_prompt : str)
    (model : option str) (attachments : option (list attachment))
    (use_search : bool) (response : option str) :
  blank (default [] response) = true ->
  reaches_provider b64decode self messages model attachments ->
  _extract_json json_loads (default [] response)
    = Raise (ValueError (lit "Empty response from LLM"))
  /\ exists v,
      LLMRouter.chat json_loads b64decode (answering response) (answering response)
        self messages system_prompt true model attachments use_search = Ok v
      /\ v = fallback_mapping (default [] response)
      /\ json_get v "response" = Some (JStr (default [] response))
      /\ (json_get v "topic" ≫= fun t => json_get t "confidence") = Some (JInt 0).
Proof.
  intros Hb Hr. split; [by apply extract_json_blank|].
  eexists. split.
  { rewrite chat_answered by done. rewrite (extract_json_blank _ Hb). reflexivity. }
  unfold fallback_text. rewrite (response_re_no_match_blank _ Hb).
  split; [done|]. split; reflexivity.
Qed.

End RecoveryTheory.

Lemma chat_json_mode_never_propagates_parse_error_witness :
  LLMRouter.chat Json.loads Base64.b64decode
    (answering (Some (lit "not json at all"))) (answering (Some (lit "not json at all")))
    (LLMRouter.Make (lit "gemini")) [Message 0 (lit "user") (lit "hi")] (lit "sys")
    true (Some (lit "gpt-5-mini")) None false
  = Ok (fallback_mapping (lit "not json at all")).
Proof.
  destruct (chat_json_mode_never_propagates_parse_error Json.loads Base64.b64decode
              (LLMRouter.Make (lit "gemini")) [Message 0 (lit "user") (lit "hi")] (lit "sys")
              (Some (lit "gpt-5-mini")) None false (Some (lit "not json at all")))
    as (_ & Hfallback & _).
  - left. reflexivity.
  - destruct (Hfallback (ValueError (lit "Could not extract JSON from: not json at all")))
      as [Hr _]; [reflexivity | reflexivity | exact Hr].
Defined.

(** C1, as stated, fails: on a text of arrays nested deeper than the
    interpreter follows, [json.loads] raises [RecursionError], which neither
    [except json.JSONDecodeError] in [_extract_json] nor
    [except (ValueError, json.JSONDecodeError)] in the adapter catches: the
    call in JSON mode raises it instead of returning the fallback
    mapping. *)
Lemma chat_json_mode_propagates_recursion_error :
  let deep := repeat 91%N 1500 ++ repeat 93%N 1500 in
  Json.loads deep = Raise RecursionError
  /\ _extract_json Json.loads deep = Raise RecursionError
  /\ LLMRouter.chat Json.loads Base64.b64decode
       (answering (Some deep)) (answering (Some deep))
       (LLMRouter.Make (lit "gemini")) [Message 0 (lit "user") (lit "hi")] (lit "sys")
       true None None false
     = Raise RecursionError.
Proof. vm_compute. repeat split. Qed.

Lemma chat_blank_response_falls_back_witness :
  _extract_json Json.loads (lit "  ") = Raise (ValueError (lit "Empty response from LLM"))
  /\ exists v,
      LLMRouter.chat Json.loads Base64.b64decode
        (answering (Some (lit "  "))) (answering (Some (lit "  ")))
        (LLMRouter.Make (lit "gemini")) [Message 0 (lit "user") (lit "hi")] (lit "sys")
        true (Some (lit "gpt-5-mini")) None false = Ok v
      /\ v = fallback_mapping (lit "  ")
      /\ json_get v "response" = Some (JStr (lit "  "))
      /\ (json_get v "topic" ≫= fun t => json_get t "confidence") = Some (JInt 0).
Proof.
  apply (chat_blank_response_falls_back Json.loads Base64.b64decode
           (LLMRouter.Make (lit "gemini")) [Message 0 (lit "user") (lit "hi")] (lit "sys")
           (Some (lit "gpt-5-mini")) None false (Some (lit "  "))).
  - reflexivity.
  - left. reflexivity.
Defined.

Lemma extract_json_strategy_witness :
  _extract_json Json.loads
    (lit "Result: ```json" ++ [newline] ++ lit "{" ++ quoted (lit "k") ++ lit ": 1}" ++ [newline] ++ lit "``` done")
  = Ok (JObj [(lit "k", JInt 1)]).
Proof.
  destruct (extract_json_strategy Json.loads
              (lit "Result: ```json" ++ [newline] ++ lit "{" ++ quoted (lit "k") ++ lit ": 1}" ++ [newline] ++ lit "``` done"))
    as [Hparsed _].
  - reflexivity.
  - apply Hparsed. vm_compute. reflexivity.
Defined.

(** C2, as stated, fails: a JSON object whose text holds a fenced block is
    valid JSON as a whole, so parsing the trimmed whole text would succeed,
    but [_extract_json] keeps only the interior of the fence and raises. *)
Lemma extract_json_does_not_reparse_whole_text :
  let text := lit "{" ++ quoted (lit "a") ++ lit ": " ++ quoted (lit "```x```") ++ lit "}" in
  blank text = false
  /\ Json.loads (strip text) = Ok (JObj [(lit "a", JStr (lit "```x```"))])
  /\ extract_structured_as_specified Json.loads text
     = Ok (JObj [(lit "a", JStr (lit "```x```"))])
  /\ _extract_json Json.loads text
     = Raise (ValueError (lit "Could not extract JSON from: x")).
Proof. vm_compute. repeat split. Qed.

(** ** Routing *)

Lemma gpt_and_gemini_prefixes_exclude (model : str) :
  startswith model (lit "gemini-") = true -> startswith model (lit "gpt-") = false.
Proof.
  intros [r ->]%startswith_true. reflexivity.
Qed.

Section RoutingTheory.

Variable json_loads : str -> result json.
Variable b64decode : str -> b64_failure + list N.
Variable openai_create : openai_kwargs -> str + option str.
Variable gemini_generate_content : gemini_call -> str + option str.

(** The OpenAI adapter raises the fault of its provider call, or in JSON
    mode an exception of [json.loads] that is not a [ValueError]. *)
Lemma openai_chat_raises (self : LLMRouter.t) (messages : list message)
    (system_prompt : str) (json_mode : bool) (model : str)
    (attachments : option (list attachment)) (e : exn) :
  LLMRouter._openai_chat json_loads openai_create self messages system_prompt
    json_mode model attachments = Raise e ->
  (exists fault, e = ProviderError fault)
  \/ (json_mode = true /\ caught_by_ValueError e = false
      /\ exists s, json_loads s = Raise e).
Proof.
  unfold LLMRouter._openai_chat.
  destruct (openai_create _) as [fault|response]; cbn [LLMRouter.await bind].
  - intros [= <-]. left. by exists fault.
  - intros (Hj & _ & Hc & Hs)%recovered_raises. by right.
Qed.

(** The Gemini adapter raises the error of attachment data that does not
    decode, the fault of its provider call, or in JSON mode an exception of
    [json.loads] that is not a [ValueError]. *)
Lemma gemini_chat_raises (self : LLMRouter.t) (messages : list message)
    (system_prompt : str) (json_mode : bool) (model : str)
    (attachments : option (list attachment)) (use_search : bool) (e : exn) :
  LLMRouter._gemini_chat json_loads b64decode gemini_generate_content self messages
    system_prompt json_mode model attachments use_search = Raise e ->
  (exists failure, e = b64_exn failure)
  \/ (exists fault, e = ProviderError fault)
  \/ (json_mode = true /\ caught_by_ValueError e = false
      /\ exists s, json_loads s = Raise e).
Proof.
  unfold LLMRouter._gemini_chat.
  destruct (_build_gemini_contents b64decode messages attachments) as [contents|e']
    eqn:Hb; cbn [bind].
  - destruct (gemini_generate_content _) as [fault|response]; cbn [LLMRouter.await bind].
    + intros [= <-]. right. left. by exists fault.
    + intros (Hj & _ & Hc & Hs)%recovered_raises. right. by right.
  - intros [= <-]. left.
    apply build_gemini_contents_raises in Hb as (att & f & _ & _ & ->). by exists f.
Qed.

(** Neither adapter raises the unroutable-model error. *)
Lemma openai_chat_not_unroutable (self : LLMRouter.t) (messages : list message)
    (system_prompt : str) (json_mode : bool) (model : str)
    (attachments : option (list attachment)) (m : str) :
  LLMRouter._openai_chat json_loads openai_create self messages system_prompt
    json_mode model attachments <> Raise (unroutable m).
Proof. intros [[fault H]|(_ & H & _)]%openai_chat_raises; done. Qed.

Lemma gemini_chat_not_unroutable (self : LLMRouter.t) (messages : list message)
    (system_prompt : str) (json_mode : bool) (model : str)
    (attachments : option (list attachment)) (use_search : bool) (m : str) :
  LLMRouter._gemini_chat json_loads b64decode gemini_generate_content self messages
    system_prompt json_mode model attachments use_search <> Raise (unroutable m).
Proof.
  intros [[f H]|[[fault H]|(_ & H & _)]]%gemini_chat_raises; [|done|done].
  symmetry in H. by apply b64_exn_not_unroutable in H.
Qed.

(** C3 (amended). A model identifier that starts with gpt- resolves to openai
    and one that starts with gemini- resolves to gemini, whatever the
    configured default provider is; any other identifier resolves to the
    configured default as it is. [chat] first replaces an absent or empty
    identifier by the default model, gemini-2.5-flash, and fails with the
    unroutable-model error exactly when the identifier it is left with has
    neither prefix and the configured default is neither openai nor gemini. *)
Theorem routing_resolution (self : LLMRouter.t) (model : str) :
  (startswith model (lit "gpt-") = true ->
   LLMRouter._resolve_provider self model = lit "openai")
  /\ (startswith model (lit "gemini-") = true ->
      LLMRouter._resolve_provider self model = lit "gemini")
  /\ (startswith model (lit "gpt-") = false ->
      startswith model (lit "gemini-") = false ->
      LLMRouter._resolve_provider self model = LLMRouter.provider self)
  /\ (forall (messages : list message) (system_prompt : str) (json_mode : bool)
        (requested : option str) (attachments : option (list attachment))
        (use_search : bool),
        LLMRouter.effective_model requested = model ->
        let r := LLMRouter.chat json_loads b64decode openai_create gemini_generate_content
                   self messages system_prompt json_mode requested attachments use_search in
        ((exists m, r = Raise (unroutable m)) <->
         startswith model (lit "gpt-") = false
         /\ startswith model (lit "gemini-") = false
         /\ LLMRouter.provider self <> lit "openai"
         /\ LLMRouter.provider self <> lit "gemini")
        /\ ((exists m, r = Raise (unroutable m)) -> r = Raise (unroutable model))).
Proof.
  assert (Hgpt : startswith model (lit "gpt-") = true ->
                 LLMRouter._resolve_provider self model = lit "openai").
  { intros H. unfold LLMRouter._resolve_provider. by rewrite H. }
  assert (Hgem : startswith model (lit "gemini-") = true ->
                 LLMRouter._resolve_provider self model = lit "gemini").
  { intros H. unfold LLMRouter._resolve_provider.
    by rewrite (gpt_and_gemini_prefixes_exclude model H), H. }
  assert (Hdef : startswith model (lit "gpt-") = false ->
                 startswith model (lit "gemini-") = false ->
                 LLMRouter._resolve_provider self model = LLMRouter.provider self).
  { intros H1 H2. unfold LLMRouter._resolve_provider. rewrite H1, H2.
    by destruct (_ || _). }
  split; [exact Hgpt|]. split; [exact Hgem|]. split; [exact Hdef|].
  intros messages system_prompt json_mode requested attachments use_search Heff.
  cbv zeta. unfold LLMRouter.chat. cbv zeta. rewrite Heff.
  destruct (str_eqb (LLMRouter._resolve_provider self model) (lit "openai")) eqn:Ho.
  { (* dispatched to OpenAI *)
    apply str_eqb_eq in Ho.
    assert (Hno : ~ exists m, LLMRouter._openai_chat json_loads openai_create self messages
                     system_prompt json_mode model attachments = Raise (unroutable m)).
    { intros [m Hm]. by apply openai_chat_not_unroutable in Hm. }
    split; [|by intros H; destruct (Hno H)].
    split; [by intros H; destruct (Hno H)|].
    intros (H1 & H2 & H3 & H4). rewrite (Hdef H1 H2) in Ho. done. }
  destruct (str_eqb (LLMRouter._resolve_provider self model) (lit "gemini")) eqn:Hg.
  { (* dispatched to Gemini *)
    apply str_eqb_eq in Hg.
    assert (Hno : ~ exists m, LLMRouter._gemini_chat json_loads b64decode
                     gemini_generate_content self messages system_prompt json_mode model
                     attachments use_search = Raise (unroutable m)).
    { intros [m Hm]. by apply gemini_chat_not_unroutable in Hm. }
    split; [|by intros H; destruct (Hno H)].
    split; [by intros H; destruct (Hno H)|].
    intros (H1 & H2 & H3 & H4). rewrite (Hdef H1 H2) in Hg. done. }
  apply str_eqb_neq in Ho, Hg.
  split; [|done].
  split; [|intros _; by exists model].
  intros _.
  destruct (startswith model (lit "gpt-")) eqn:H1; [by rewrite Hgpt in Ho|].
  destruct (startswith model (lit "gemini-")) eqn:H2; [by rewrite Hgem in Hg|].
  rewrite (Hdef eq_refl eq_refl) in Ho, Hg. done.
Qed.

End RoutingTheory.

Lemma routing_resolution_witness :
  LLMRouter._resolve_provider (LLMRouter.Make (lit "gemini")) (lit "gpt-5-mini") = lit "openai"
  /\ LLMRouter._resolve_provider (LLMRouter.Make (lit "openai")) (lit "gemini-2.5-flash") = lit "gemini"
  /\ LLMRouter._resolve_provider (LLMRouter.Make (lit "azure")) (lit "custom-model-v1") = lit "azure"
  /\ LLMRouter.chat Json.loads Base64.b64decode (answering None) (answering None)
       (LLMRouter.Make (lit "azure")) [] [] true (Some (lit "custom-model-v1")) None false
     = Raise (unroutable (lit "custom-model-v1")).
Proof.
  split; [|split; [|split]].
  - apply (routing_resolution Json.loads Base64.b64decode (answering None) (answering None)
             (LLMRouter.Make (lit "gemini")) (lit "gpt-5-mini")). reflexivity.
  - apply (routing_resolution Json.loads Base64.b64decode (answering None) (answering None)
             (LLMRouter.Make (lit "openai")) (lit "gemini-2.5-flash")). reflexivity.
  - apply (routing_resolution Json.loads Base64.b64decode (answering None) (answering None)
             (LLMRouter.Make (lit "azure")) (lit "custom-model-v1")); reflexivity.
  - destruct (routing_resolution Json.loads Base64.b64decode (answering None) (answering None)
                (LLMRouter.Make (lit "azure")) (lit "custom-model-v1"))
      as (_ & _ & _ & Hchat).
    destruct (Hchat [] [] true (Some (lit "custom-model-v1")) None false eq_refl)
      as [[_ Hfails] Hwhich].
    apply Hwhich, Hfails. repeat split; vm_compute; discriminate.
Defined.

(** C3, as stated, fails: the empty identifier has neither prefix and the
    configured default is neither openai nor gemini, yet [chat] does not fail
    with the unroutable-model error: it takes the default model and calls
    Gemini. *)
Lemma empty_model_is_not_unroutable :
  let self := LLMRouter.Make (lit "azure") in
  let r := LLMRouter.chat Json.loads Base64.b64decode
             (answering (Some (lit "{}"))) (answering (Some (lit "{}")))
             self [Message 0 (lit "user") (lit "hi")] (lit "sys") true (Some []) None false in
  startswith [] (lit "gpt-") = false
  /\ startswith [] (lit "gemini-") = false
  /\ LLMRouter.provider self <> lit "openai"
  /\ LLMRouter.provider self <> lit "gemini"
  /\ r = Ok (JObj [])
  /\ ~ (exists m, r = Raise (unroutable m)).
Proof.
  cbv zeta. repeat split; try (vm_compute; discriminate); try reflexivity.
  intros [m Hm]. vm_compute in Hm. discriminate Hm.
Qed.

(** ** Requests *)

Section GeminiRequestTheory.

Variable b64decode : str -> b64_failure + list N.

Lemma gemini_attachment_parts_ok (atts : list attachment) :
  Forall (decodes b64decode) atts ->
  for_each (gemini_attachment_part b64decode) atts = Ok (map (inline_part b64decode) atts).
Proof.
  intros H. apply for_each_total. intros att Hin.
  rewrite Forall_forall in H. specialize (H att).
  destruct H as [raw Hraw]; [by apply list_elem_of_In|].
  unfold gemini_attachment_part, inline_part. by rewrite Hraw.
Qed.

Lemma gemini_content_ok (messages : list message) (attachments : option (list attachment))
    (i : nat) (msg : message) :
  Forall (decodes b64decode) (attachment_items attachments) ->
  gemini_content b64decode messages attachments i msg
  = Ok (gemini_content_of b64decode messages attachments i msg).
Proof.
  intros Hdec. unfold gemini_content, gemini_content_of. fold (gemini_role msg).
  replace (Z.of_nat i =? Z.of_nat (length messages) - 1)%Z
    with (Nat.eqb (S i) (length messages)).
  2:{ destruct (Nat.eqb_spec (S i) (length messages)) as [H|H];
      symmetry; [apply Z.eqb_eq | apply Z.eqb_neq]; lia. }
  destruct (_ && _ && _); [|done].
  by rewrite (gemini_attachment_parts_ok _ Hdec).
Qed.

(** When every attachment decodes, the contents are built, one per turn. *)
Lemma build_gemini_contents_ok (messages : list message)
    (attachments : option (list attachment)) :
  Forall (decodes b64decode) (attachment_items attachments) ->
  _build_gemini_contents b64decode messages attachments
  = Ok (map (fun im => gemini_content_of b64decode messages attachments (fst im) (snd im))
            (enumerate messages)).
Proof.
  intros Hdec. unfold _build_gemini_contents.
  apply for_each_total. intros [i msg] _. by apply gemini_content_ok.
Qed.

Lemma built_gemini_lookup (messages : list message) (attachments : option (list attachment))
    (i : nat) :
  map (fun im => gemini_content_of b64decode messages attachments (fst im) (snd im))
      (enumerate messages) !! i
  = gemini_content_of b64decode messages attachments i <$> messages !! i.
Proof.
  rewrite lookup_map. unfold enumerate.
  destruct (messages !! i) as [msg|] eqn:Hm; simpl.
  - by rewrite (proj2 (enumerate_from_lookup messages 0 i msg) Hm).
  - destruct (enumerate_from 0 messages !! i) as [p|] eqn:Hp; [|done].
    apply enumerate_from_fst in Hp as [_ Hp]. congruence.
Qed.

(** C9. In the contents built for Gemini, a turn keeps the role user only
    when its role is exactly user; every other turn, a system turn included,
    gets the role model. *)
Theorem gemini_roles (messages : list message) (attachments : option (list attachment)) :
  Forall (decodes b64decode) (attachment_items attachments) ->
  exists contents,
    _build_gemini_contents b64decode messages attachments = Ok contents
    /\ length contents = length messages
    /\ forall i msg, messages !! i = Some msg ->
         exists c, contents !! i = Some c
           /\ (msg_role msg = lit "user" -> role c = lit "user")
           /\ (msg_role msg <> lit "user" -> role c = lit "model")
           /\ (msg_role msg = lit "system" -> role c = lit "model").
Proof.
  intros Hdec. eexists. split; [by apply build_gemini_contents_ok|].
  split.
  { rewrite length_map. apply enumerate_from_length. }
  intros i msg Hm. rewrite built_gemini_lookup, Hm. simpl.
  eexists. split; [done|]. simpl. unfold gemini_role.
  split; [|split].
  - intros ->. done.
  - intros H. apply str_eqb_neq in H. by rewrite H.
  - intros ->. done.
Qed.

End GeminiRequestTheory.

Lemma gemini_roles_witness :
  exists contents,
    _build_gemini_contents Base64.b64decode
      [Message 0 (lit "system") (lit "be brief"); Message 1 (lit "user") (lit "hi");
       Message 2 (lit "assistant") (lit "hello"); Message 3 (lit "user") (lit "look")]
      (Some [Attachment None (lit "aW1n")]) = Ok contents
    /\ map role contents = [lit "model"; lit "user"; lit "model"; lit "user"].
Proof.
  destruct (gemini_roles Base64.b64decode
              [Message 0 (lit "system") (lit "be brief"); Message 1 (lit "user") (lit "hi");
               Message 2 (lit "assistant") (lit "hello"); Message 3 (lit "user") (lit "look")]
              (Some [Attachment None (lit "aW1n")]))
    as (contents & Hbuilt & _ & _).
  - repeat constructor. by exists (lit "img").
  - exists contents. split; [exact Hbuilt|].
    vm_compute in Hbuilt. by injection Hbuilt as <-.
Defined.

(** *** Where attachment parts go *)

Section AttachmentPlacement.

Variable b64decode : str -> b64_failure + list N.

(** In a Gemini request, only the content of the last turn can carry
    attachment parts, and only when it is a user turn: the test is on the
    index of the turn. *)
Lemma gemini_attachments_only_on_last_user_turn (messages : list message)
    (attachments : option (list attachment)) :
  Forall (decodes b64decode) (attachment_items attachments) ->
  exists contents,
    _build_gemini_contents b64decode messages attachments = Ok contents
    /\ forall i c, contents !! i = Some c -> gemini_carries_attachment c = true ->
         S i = length messages /\ role c = lit "user".
Proof.
  intros Hdec. eexists. split; [by apply build_gemini_contents_ok|].
  intros i c Hc. rewrite built_gemini_lookup in Hc.
  destruct (messages !! i) as [msg|]; [|done]. injection Hc as <-.
  unfold gemini_carries_attachment, gemini_content_of. cbn [parts role existsb is_inline_part orb].
  destruct (truthy_list attachments && Nat.eqb (S i) (length messages)
            && str_eqb (gemini_role msg) (lit "user")) eqn:Hcond; [|done].
  intros _. apply andb_prop in Hcond as [[_ Hi]%andb_prop Hu].
  split; [by apply Nat.eqb_eq | by apply str_eqb_eq].
Qed.

Lemma last_lookup_length {A : Type} (l : list A) (x : A) :
  last l = Some x -> l !! (length l - 1) = Some x.
Proof. intros H. rewrite <- H, last_lookup. f_equal. lia. Qed.

(** In an OpenAI request the test is on the identity of the turn object; when
    the turns are distinct objects it is the test on the index. *)
Lemma openai_attachments_only_on_last_turn_of_distinct (messages : list message)
    (system_prompt : str) (attachments : option (list attachment)) :
  NoDup (map msg_id messages) ->
  forall i m,
    _build_openai_messages messages system_prompt attachments !! S i = Some m ->
    openai_carries_attachment m = true ->
    S i = length messages /\ om_role m = lit "user".
Proof.
  intros Hnd i m Hm.
  change (map (openai_message_of messages attachments) messages !! i = Some m) in Hm.
  rewrite lookup_map in Hm.
  destruct (messages !! i) as [msg|] eqn:Hmsg; [|done]. injection Hm as <-.
  unfold openai_message_of.
  destruct (str_eqb (msg_role msg) (lit "user") && truthy_list attachments
            && is_last_object messages msg) eqn:Hcond; [|done].
  intros _. apply andb_prop in Hcond as [[Hu _]%andb_prop Hlast].
  apply str_eqb_eq in Hu. split; [|done].
  unfold is_last_object in Hlast.
  destruct (last messages) as [l|] eqn:Hl; [|done].
  apply Nat.eqb_eq in Hlast. apply last_lookup_length in Hl.
  assert (Hi : map msg_id messages !! i = Some (msg_id msg))
    by (by rewrite lookup_map, Hmsg).
  assert (Hj : map msg_id messages !! (length messages - 1) = Some (msg_id msg))
    by (by rewrite lookup_map, Hl, Hlast).
  pose proof (NoDup_lookup _ _ _ _ Hnd Hi Hj) as Heq.
  apply lookup_lt_Some in Hmsg. lia.
Qed.

End AttachmentPlacement.

(** C4. The OpenAI adapter recognises the last turn with [msg is messages[-1]].
    When one turn object is listed twice, as the first and as the last turn,
    the first turn of the request carries the image part as well, which the
    claim excludes; the Gemini adapter, which tests the index, keeps the
    attachment on the last turn. *)
Theorem openai_attaches_to_an_aliased_earlier_turn :
  let m := Message 7 (lit "user") (lit "look") in
  let messages := [m; Message 8 (lit "assistant") (lit "ok"); m] in
  let attachments := Some [Attachment (Some (lit "image/png")) (lit "aW1n")] in
  let image := image_url_part (lit "data:image/png;base64,aW1n") in
  _build_openai_messages messages (lit "sys") attachments
  = [OpenAIMessage (lit "system") (content_str (lit "sys"));
     OpenAIMessage (lit "user") (content_parts [text_part (lit "look"); image]);
     OpenAIMessage (lit "assistant") (content_str (lit "ok"));
     OpenAIMessage (lit "user") (content_parts [text_part (lit "look"); image])]
  /\ _build_gemini_contents Base64.b64decode messages attachments
     = Ok [MkContent (lit "user") [Part_from_text (lit "look")];
           MkContent (lit "model") [Part_from_text (lit "ok")];
           MkContent (lit "user") [Part_from_text (lit "look");
                                   Part_from_bytes (lit "img") (lit "image/png")]].
Proof. vm_compute. split; reflexivity. Qed.

(** *** What an attachment becomes *)

Lemma openai_image_parts_spec (atts : list attachment) (url : str) :
  In (image_url_part url) (openai_image_parts atts) <->
  exists att mime,
    In att atts /\ att_mimeType att = Some mime
    /\ startswith mime (lit "image/") = true
    /\ url = data_url mime (att_data att).
Proof.
  unfold openai_image_parts. rewrite in_flat_map. split.
  - intros [att [Hin Hp]]. destruct (att_mimeType att) as [mime|] eqn:Hm; simpl in Hp.
    + destruct (startswith mime (lit "image/")) eqn:Hs; [|done].
      destruct Hp as [[= <-]|[]]. by exists att, mime.
    + destruct (startswith [] (lit "image/")) eqn:Hs; [done|done].
  - intros (att & mime & Hin & Hm & Hs & ->). exists att. split; [done|].
    rewrite Hm. simpl. rewrite Hs. by left.
Qed.

(** The image parts, attachment by attachment: the image part of each
    attachment that has an image type, in the order of the attachments. *)
Lemma openai_image_parts_filter (atts : list attachment) :
  openai_image_parts atts = map image_part_of (List.filter has_image_type atts).
Proof.
  induction atts as [|att atts IH]; [done|].
  unfold openai_image_parts in *. cbn [flat_map List.filter]. rewrite IH.
  unfold has_image_type at 2.
  destruct (att_mimeType att) as [mime|] eqn:Hm; cbn [default from_option id].
  - destruct (startswith mime (lit "image/")); [|done].
    cbn [map app]. f_equal. unfold image_part_of, data_url. by rewrite Hm.
  - done.
Qed.

Section AttachmentParts.

Variable b64decode : str -> b64_failure + list N.

(** C5 (amended). On a last turn with the role user and a list of attachments
    that is not empty: the Gemini request has, on that turn, the text part and
    then one inline binary part for each attachment, in order, with the MIME
    type of the attachment or image/jpeg when it has none; the OpenAI request
    has, on that turn, the text part and then one image part for each
    attachment whose MIME type is given and starts with image/, a data URL of
    that MIME type and the base64 data, and no part for any other
    attachment. *)
Theorem attachment_parts_of_last_user_turn (history : list message) (turn : message)
    (system_prompt : str) (atts : list attachment) :
  msg_role turn = lit "user" ->
  atts <> [] ->
  (Forall (decodes b64decode) atts ->
   exists contents c,
     _build_gemini_contents b64decode (history ++ [turn]) (Some atts) = Ok contents
     /\ last contents = Some c
     /\ parts c = Part_from_text (msg_content turn) :: map (inline_part b64decode) atts
     /\ forall att raw, In att atts -> b64decode (att_data att) = inr raw ->
          In (Part_from_bytes raw (default (lit "image/jpeg") (att_mimeType att))) (parts c))
  /\ (exists m,
        last (_build_openai_messages (history ++ [turn]) system_prompt (Some atts)) = Some m
        /\ om_role m = lit "user"
        /\ om_content m
           = content_parts (text_part (msg_content turn)
                            :: map image_part_of (List.filter has_image_type atts))
        /\ (forall att mime, In att atts -> att_mimeType att = Some mime ->
            startswith mime (lit "image/") = true ->
            image_part_of att = image_url_part (data_url mime (att_data att)))
        /\ (forall url,
              In (image_url_part url) (map image_part_of (List.filter has_image_type atts)) <->
              exists att mime,
                In att atts /\ att_mimeType att = Some mime
                /\ startswith mime (lit "image/") = true
                /\ url = data_url mime (att_data att))).
Proof.
  intros Hu Hne. split.
  - intros Hdec. eexists. eexists.
    split; [by apply build_gemini_contents_ok|].
    split.
    { unfold enumerate. rewrite last_lookup, length_map, enumerate_from_length.
      rewrite length_app. simpl.
      replace (Init.Nat.pred (length history + 1)) with (length history) by lia.
      rewrite built_gemini_lookup.
      rewrite lookup_app_r by lia. rewrite Nat.sub_diag. reflexivity. }
    assert (Hparts : parts (gemini_content_of b64decode (history ++ [turn]) (Some atts)
                              (length history) turn)
                     = Part_from_text (msg_content turn) :: map (inline_part b64decode) atts).
    { unfold gemini_content_of. cbn [parts].
      replace (truthy_list (Some atts)) with true by (by destruct atts).
      replace (Nat.eqb (S (length history)) (length (history ++ [turn]))) with true
        by (symmetry; apply Nat.eqb_eq; rewrite length_app; simpl; lia).
      unfold gemini_role. rewrite Hu. reflexivity. }
    split; [exact Hparts|].
    intros att raw Hin Hraw. rewrite Hparts. right.
    apply in_map_iff. exists att. split; [|done].
    unfold inline_part. by rewrite Hraw.
  - assert (Hm : openai_message_of (history ++ [turn]) (Some atts) turn
                 = OpenAIMessage (lit "user")
                     (content_parts (text_part (msg_content turn)
                                     :: map image_part_of
                                          (List.filter has_image_type atts)))).
    { unfold openai_message_of. rewrite Hu.
      replace (truthy_list (Some atts)) with true by (by destruct atts).
      unfold is_last_object. rewrite last_snoc, Nat.eqb_refl.
      cbn [str_eqb andb attachment_items default].
      by rewrite openai_image_parts_filter. }
    eexists. split; [|split; [|split; [|split]]].
    + unfold _build_openai_messages.
      rewrite map_app. cbn [map]. rewrite app_comm_cons. apply last_snoc.
    + by rewrite Hm.
    + by rewrite Hm.
    + intros att mime _ Hmime _. unfold image_part_of. by rewrite Hmime.
    + intros url. rewrite <- openai_image_parts_filter. apply openai_image_parts_spec.
Qed.

End AttachmentParts.

Lemma attachment_parts_of_last_user_turn_witness :
  (exists contents c,
     _build_gemini_contents Base64.b64decode
       ([Message 0 (lit "user") (lit "q1"); Message 1 (lit "assistant") (lit "a1")]
        ++ [Message 2 (lit "user") (lit "q2")])
       (Some [Attachment None (lit "aW1n"); Attachment (Some (lit "image/png")) (lit "aGk=")])
     = Ok contents
     /\ last contents = Some c
     /\ parts c = [Part_from_text (lit "q2");
                   Part_from_bytes (lit "img") (lit "image/jpeg");
                   Part_from_bytes (lit "hi") (lit "image/png")])
  /\ (exists m,
        last (_build_openai_messages
                ([Message 0 (lit "user") (lit "q1"); Message 1 (lit "assistant") (lit "a1")]
                 ++ [Message 2 (lit "user") (lit "q2")])
                (lit "sys")
                (Some [Attachment None (lit "aW1n");
                       Attachment (Some (lit "image/png")) (lit "aGk=")])) = Some m
        /\ om_content m = content_parts [text_part (lit "q2");
                                         image_url_part (lit "data:image/png;base64,aGk=")]).
Proof.
  destruct (attachment_parts_of_last_user_turn Base64.b64decode
              [Message 0 (lit "user") (lit "q1"); Message 1 (lit "assistant") (lit "a1")]
              (Message 2 (lit "user") (lit "q2")) (lit "sys")
              [Attachment None (lit "aW1n"); Attachment (Some (lit "image/png")) (lit "aGk=")])
    as [Hgemini Hopenai].
  - reflexivity.
  - discriminate.
  - split.
    + destruct Hgemini as (contents & c & Hb & Hl & Hp & _).
      { repeat constructor; [by exists (lit "img") | by exists (lit "hi")]. }
      exists contents, c. split; [exact Hb|]. split; [exact Hl|]. exact Hp.
    + destruct Hopenai as (m & Hl & _ & Hc & _). exists m. split; [exact Hl|]. exact Hc.
Defined.

(** C5, as stated, fails for the OpenAI adapter: an attachment without a MIME
    type gets no part at all there (and no image/jpeg default), the last turn
    carries the text part alone; the Gemini adapter gives it an inline part
    of type image/jpeg. *)
Lemma openai_skips_attachment_without_mime_type :
  let messages := [Message 0 (lit "user") (lit "look")] in
  let attachments := Some [Attachment None (lit "aW1n")] in
  _build_openai_messages messages (lit "sys") attachments
  = [OpenAIMessage (lit "system") (content_str (lit "sys"));
     OpenAIMessage (lit "user") (content_parts [text_part (lit "look")])]
  /\ _build_gemini_contents Base64.b64decode messages attachments
     = Ok [MkContent (lit "user") [Part_from_text (lit "look");
                                   Part_from_bytes (lit "img") (lit "image/jpeg")]].
Proof. vm_compute. split; reflexivity. Qed.

(** ** Comparing floats *)

Lemma SFcompare_key (x y : spec_float) :
  is_number x -> is_number y ->
  match SFcompare x y with
  | Some Lt => key_lt x y
  | Some Eq => key_eq x y
  | Some Gt => key_lt y x
  | None => False
  end.
Proof.
  unfold is_number, key_lt, key_eq.
  destruct x as [sx|sx| |sx mx ex], y as [sy|sy| |sy my ey]; try done; intros _ _;
    try destruct sx; try destruct sy; cbn [SFcompare ord1 ord2 ord3]; try lia;
    change (Pos.compare_cont Eq mx my) with (mx ?= my)%positive;
    destruct (Z.compare_spec ex ey); try lia;
    destruct (Pos.compare_spec mx my); cbn [CompOpp]; lia.
Qed.

Lemma SFcompare_nan (x y : spec_float) :
  SFcompare x y = None <-> x = S754_nan \/ y = S754_nan.
Proof.
  split.
  - destruct x as [| | |], y as [| | |]; simpl; try done; auto;
      try (destruct s; done); try (destruct s, s0; done).
  - intros [-> | ->]; [done | by destruct x].
Qed.

Lemma SFcompare_cases (p q : spec_float) :
  (SFcompare p q = None /\ (p = S754_nan \/ q = S754_nan))
  \/ (is_number p /\ is_number q
      /\ ((SFcompare p q = Some Lt /\ key_lt p q)
          \/ (SFcompare p q = Some Eq /\ key_eq p q)
          \/ (SFcompare p q = Some Gt /\ key_lt q p))).
Proof.
  destruct (SFcompare p q) as [c|] eqn:Hc.
  - right.
    assert (Hp : is_number p).
    { intros ->. by rewrite (proj2 (SFcompare_nan _ q)) in Hc; [|left]. }
    assert (Hq : is_number q).
    { intros ->. by rewrite (proj2 (SFcompare_nan p _)) in Hc; [|right]. }
    pose proof (SFcompare_key p q Hp Hq) as Hk. rewrite Hc in Hk.
    split; [done|]. split; [done|]. destruct c; auto.
  - left. split; [done|]. by apply SFcompare_nan.
Qed.

Lemma number_spec (x : float) : number x <-> is_number (Prim2SF x).
Proof.
  unfold number, PrimFloat.is_nan. rewrite FloatAxioms.eqb_spec. unfold SFeqb.
  destruct (SFcompare_cases (Prim2SF x) (Prim2SF x))
    as [[-> [H|H]]|(Hp & _ & [[-> Hk]|[[-> Hk]|[-> Hk]]])];
    unfold is_number, key_lt in *; simpl; split; try done; try lia.
Qed.

Lemma flt_spec (x y : float) :
  flt x y <-> number x /\ number y /\ key_lt (Prim2SF x) (Prim2SF y).
Proof.
  unfold flt. rewrite FloatAxioms.ltb_spec, !number_spec. unfold SFltb.
  destruct (SFcompare_cases (Prim2SF x) (Prim2SF y))
    as [[-> [H|H]]|(Hp & Hq & [[-> Hk]|[[-> Hk]|[-> Hk]]])];
    unfold is_number, key_lt, key_eq in *; split; try done; try intros (? & ? & ?);
    try done; lia.
Qed.

Lemma fle_spec (x y : float) :
  fle x y <-> number x /\ number y /\ ~ key_lt (Prim2SF y) (Prim2SF x).
Proof.
  unfold fle. rewrite FloatAxioms.leb_spec, !number_spec. unfold SFleb.
  destruct (SFcompare_cases (Prim2SF x) (Prim2SF y))
    as [[-> [H|H]]|(Hp & Hq & [[-> Hk]|[[-> Hk]|[-> Hk]]])];
    unfold is_number, key_lt, key_eq in *; split; try done; try intros (? & ? & ?);
    try done; try lia.
  all: repeat split; try done; lia.
Qed.

Lemma feq_spec (x y : float) :
  feq x y <-> number x /\ number y /\ key_eq (Prim2SF x) (Prim2SF y).
Proof.
  unfold feq. rewrite FloatAxioms.eqb_spec, !number_spec. unfold SFeqb.
  destruct (SFcompare_cases (Prim2SF x) (Prim2SF y))
    as [[-> [H|H]]|(Hp & Hq & [[-> Hk]|[[-> Hk]|[-> Hk]]])];
    unfold is_number, key_lt, key_eq in *; split; try done; try intros (? & ? & ?);
    try done; lia.
Qed.

(** The facts about the order that the sort relies on. *)

Lemma flt_false_fle (x y : float) :
  number x -> number y -> PrimFloat.ltb x y = false -> fle y x.
Proof.
  intros Hx Hy Hlt. apply fle_spec. split; [done|]. split; [done|].
  intros Hk. assert (flt x y) as H by (by apply flt_spec). unfold flt in H. congruence.
Qed.

Lemma flt_fle (x y : float) : flt x y -> fle x y.
Proof.
  rewrite flt_spec, fle_spec. unfold key_lt. intros (Hx & Hy & Hk).
  split; [done|]. split; [done|]. lia.
Qed.

Lemma fle_trans (x y z : float) : fle x y -> fle y z -> fle x z.
Proof.
  rewrite !fle_spec. unfold key_lt. intros (Hx & Hy & H1) (_ & Hz & H2).
  split; [done|]. split; [done|]. lia.
Qed.

Lemma flt_fle_trans (x y z : float) : flt x y -> fle y z -> flt x z.
Proof.
  rewrite !flt_spec, fle_spec. unfold key_lt. intros (Hx & Hy & H1) (_ & Hz & H2).
  split; [done|]. split; [done|]. lia.
Qed.

Lemma fle_number (x y : float) : fle x y -> number x /\ number y.
Proof. rewrite fle_spec. tauto. Qed.

Lemma flt_not_feq (x y s : float) : flt x y -> feq x s -> ~ feq y s.
Proof.
  rewrite flt_spec, !feq_spec. unfold key_lt, key_eq.
  intros (_ & _ & H1) (_ & _ & H2) (_ & _ & H3). lia.
Qed.


(** ** The sort *)

Section StableSort.

Context {A : Type}.
Implicit Types (x y : float * A) (l acc : list (float * A)).

Lemma insert_stable_perm x l : Permutation (insert_stable x l) (x :: l).
Proof.
  induction l as [|y l IH]; simpl; [done|].
  destruct (PrimFloat.ltb (fst x) (fst y)); [done|].
  rewrite IH. apply perm_swap.
Qed.

Lemma insert_stable_sorted x l :
  number (fst x) -> keys_are_numbers l ->
  StronglySorted key_ascending l -> StronglySorted key_ascending (insert_stable x l).
Proof.
  intros Hx. induction l as [|y l IH]; intros Hl Hs; simpl.
  - repeat constructor.
  - apply Forall_cons in Hl as [Hy Hl]. apply StronglySorted_inv in Hs as [Hs Hyl].
    destruct (PrimFloat.ltb (fst x) (fst y)) eqn:Hlt.
    + constructor; [by constructor|].
      constructor; [by apply flt_fle|].
      eapply Forall_impl; [exact Hyl|]. intros z Hz. unfold key_ascending in *.
      apply fle_trans with (fst y); [by apply flt_fle | done].
    + constructor; [by apply IH|].
      rewrite (insert_stable_perm x l). constructor; [|done].
      by apply flt_false_fle.
Qed.

(** An item goes in after the items of its key. *)
Lemma insert_stable_with_key (s : float) x l :
  StronglySorted key_ascending l ->
  with_key s (insert_stable x l) = with_key s (l ++ [x]).
Proof.
  unfold with_key. induction l as [|y l IH]; intros Hs; [done|].
  apply StronglySorted_inv in Hs as [Hs Hyl]. cbn [insert_stable].
  destruct (PrimFloat.ltb (fst x) (fst y)) eqn:Hlt.
  - set (Q := fun a : float * A => PrimFloat.eqb (fst a) s).
    assert (Hnil : forall l', Forall (fun z => Q z = false) l' -> List.filter Q l' = []).
    { induction l' as [|z l' IHl']; [done|]. intros [Hz Hl']%Forall_cons.
      cbn [List.filter]. rewrite Hz. auto. }
    rewrite List.filter_app.
    change (List.filter Q (x :: y :: l))
      with (if Q x then x :: List.filter Q (y :: l) else List.filter Q (y :: l)).
    change (List.filter Q [x]) with (if Q x then [x] else []).
    destruct (Q x) eqn:Hxs; [|by rewrite app_nil_r].
    rewrite (Hnil (y :: l)); [done|].
    assert (Hall : Forall (fun z => flt (fst x) (fst z)) (y :: l)).
    { constructor; [done|]. eapply Forall_impl; [exact Hyl|].
      intros z Hz. by apply flt_fle_trans with (fst y). }
    eapply Forall_impl; [exact Hall|]. intros z Hz.
    destruct (Q z) eqn:Hzs; [|done].
    by destruct (flt_not_feq _ _ s Hz Hxs).
  - rewrite <- app_comm_cons. cbn [List.filter]. rewrite (IH Hs). done.
Qed.

Lemma sort_fold_spec l acc :
  keys_are_numbers l -> keys_are_numbers acc -> StronglySorted key_ascending acc ->
  let sorted := fold_left (fun acc x => insert_stable x acc) l acc in
  StronglySorted key_ascending sorted
  /\ (forall s, with_key s sorted = with_key s (acc ++ l)).
Proof.
  revert acc. induction l as [|x l IH]; intros acc Hl Hacc Hs; cbn [fold_left].
  - split; [done|]. intros s. by rewrite app_nil_r.
  - apply Forall_cons in Hl as [Hx Hl].
    destruct (IH (insert_stable x acc)) as [Hsorted Hkeys]; [done| |by apply insert_stable_sorted|].
    { unfold keys_are_numbers. rewrite (insert_stable_perm x acc). by constructor. }
    split; [done|]. intros s. rewrite Hkeys.
    unfold with_key. rewrite !List.filter_app.
    fold (with_key s (insert_stable x acc)). rewrite insert_stable_with_key by done.
    unfold with_key. rewrite List.filter_app. cbn [List.filter].
    destruct (PrimFloat.eqb (fst x) s); by rewrite <- ?app_assoc.
Qed.

Lemma sort_fold_perm l acc :
  Permutation (fold_left (fun acc x => insert_stable x acc) l acc) (acc ++ l).
Proof.
  revert acc. induction l as [|x l IH]; intros acc; cbn [fold_left].
  - by rewrite app_nil_r.
  - rewrite IH, insert_stable_perm. apply Permutation_middle.
Qed.

Lemma sort_ascending_perm l : Permutation (sort_ascending l) l.
Proof. apply sort_fold_perm. Qed.

Lemma StronglySorted_rev_flip (R : relation (float * A)) l :
  StronglySorted R l -> StronglySorted (flip R) (rev l).
Proof.
  induction 1 as [|x l Hs IH Hx]; [constructor|].
  cbn [rev]. apply StronglySorted_app. split; [|split; [done|repeat constructor]].
  intros a b Ha Hb. apply list_elem_of_singleton in Hb as ->.
  apply list_elem_of_In, in_rev in Ha. rewrite List.Forall_forall in Hx. by apply Hx.
Qed.

(** [sort_reverse] is a permutation. *)
Lemma sort_reverse_perm l : Permutation (sort_reverse l) l.
Proof.
  unfold sort_reverse.
  rewrite <- Permutation_rev, sort_ascending_perm. by rewrite <- Permutation_rev.
Qed.

(** On keys that are numbers, [sort_reverse] sorts by descending key. *)
Lemma sort_reverse_sorted l :
  keys_are_numbers l -> StronglySorted key_descending (sort_reverse l).
Proof.
  intros Hl. unfold sort_reverse.
  apply (StronglySorted_rev_flip key_ascending).
  apply (sort_fold_spec (rev l) []); [|constructor|constructor].
  unfold keys_are_numbers. by rewrite <- Permutation_rev.
Qed.

(** On keys that are numbers, [sort_reverse] is stable: the items of one key
    keep their order. *)
Lemma sort_reverse_stable l (s : float) :
  keys_are_numbers l -> with_key s (sort_reverse l) = with_key s l.
Proof.
  intros Hl. unfold sort_reverse, with_key.
  rewrite List.filter_rev.
  fold (with_key s (sort_ascending (rev l))).
  unfold sort_ascending.
  rewrite (proj2 (sort_fold_spec (rev l) [] ltac:(unfold keys_are_numbers; by rewrite <- Permutation_rev)
                    ltac:(constructor) ltac:(constructor)) s).
  unfold with_key. cbn [app]. by rewrite List.filter_rev, rev_involutive.
Qed.

End StableSort.

(** The sort looks at the keys only. *)
Lemma insert_stable_map {A B : Type} (f : A -> B) (x : float * A) (l : list (float * A)) :
  insert_stable (prod_map id f x) (map (prod_map id f) l)
  = map (prod_map id f) (insert_stable x l).
Proof.
  induction l as [|y l IH]; [done|]. cbn [map insert_stable].
  destruct x as [kx x], y as [ky y]. cbn [prod_map fst id] in *.
  destruct (PrimFloat.ltb kx ky); [done|]. cbn [map]. by rewrite IH.
Qed.

Lemma sort_fold_map {A B : Type} (f : A -> B) (l acc : list (float * A)) :
  fold_left (fun acc x => insert_stable x acc) (map (prod_map id f) l)
            (map (prod_map id f) acc)
  = map (prod_map id f) (fold_left (fun acc x => insert_stable x acc) l acc).
Proof.
  revert acc. induction l as [|x l IH]; intros acc; [done|].
  cbn [map fold_left]. rewrite insert_stable_map. apply IH.
Qed.

Lemma sort_reverse_map {A B : Type} (f : A -> B) (l : list (float * A)) :
  sort_reverse (map (prod_map id f) l) = map (prod_map id f) (sort_reverse l).
Proof.
  unfold sort_reverse, sort_ascending.
  rewrite List.map_rev. f_equal.
  rewrite <- List.map_rev. apply (sort_fold_map f (rev l) []).
Qed.

(** ** Ranking on the store *)

Lemma unchanged_refl (h : heap) : unchanged h h.
Proof. by intros l o. Qed.

Lemma unchanged_insert_fresh (h0 h : heap) (l : loc) (o : object) :
  unchanged h0 h -> l ∉ dom h0 -> unchanged h0 (<[l := o]> h).
Proof.
  intros Hu Hl k o' Hk. rewrite lookup_insert_ne; [by apply Hu|].
  intros ->. apply Hl. apply elem_of_dom. by exists o'.
Qed.

Lemma fresh_not_in (h : heap) : h !! fresh (dom h) = None.
Proof. apply not_elem_of_dom, is_fresh. Qed.

Lemma unchanged_dom (h0 h : heap) (l : loc) : unchanged h0 h -> l ∉ dom h -> l ∉ dom h0.
Proof.
  intros Hu Hl Hin. apply Hl. apply elem_of_dom in Hin as [o Ho].
  apply elem_of_dom. exists o. by apply Hu.
Qed.

Section RankTheory.

Variable np_dot : list float -> list float -> float.
Variable np_norm : list float -> float.

Lemma copies_weaken (h0 hi hj : heap) (items : list loc)
    (scored : list (float * gmap str value)) :
  (forall l, l ∈ items -> hj !! l = hi !! l) ->
  copies h0 hi items scored -> copies h0 hj items scored.
Proof.
  unfold copies. intros Hsame Hc. induction Hc as [|l sd items scored [H1 H2] Hc IH].
  - constructor.
  - constructor.
    + split; [|done]. rewrite Hsame; [done|]. by left.
    + apply IH. intros k Hk. apply Hsame. by right.
Qed.

Lemma copies_in_dom (h0 hi : heap) (items : list loc)
    (scored : list (float * gmap str value)) (l : loc) :
  copies h0 hi items scored -> l ∈ items -> exists d, hi !! l = Some (ODict d).
Proof.
  unfold copies. intros Hc Hl. apply list_elem_of_lookup in Hl as [i Hi].
  destruct (Forall2_lookup_l _ _ _ _ _ Hc Hi) as (sd & _ & H & _). eauto.
Qed.

(** The loop of [rank_by_similarity]: it touches nothing of the caller's
    store [h0], and it appends to [results] the scored copies of the usable
    candidates, or stops at the first score that cannot be computed. *)
Lemma rank_loop_spec (q : list float) (h0 : heap) (results : loc) :
  results ∉ dom h0 ->
  forall cs ds hi items scored,
    holds_dicts h0 cs ds -> unchanged h0 hi ->
    hi !! results = Some (OList items) -> copies h0 hi items scored ->
    exists hf,
      unchanged h0 hf
      /\ match score_all np_dot np_norm q ds with
         | Ok more =>
             exists items',
               rank_loop np_dot np_norm q results cs hi = (Ok tt, hf)
               /\ hf !! results = Some (OList (items ++ items'))
               /\ copies h0 hf (items ++ items') (scored ++ more)
         | Raise e => rank_loop np_dot np_norm q results cs hi = (Raise e, hf)
         end.
Proof.
  intros Hres cs. induction cs as [|c cs IH]; intros ds hi items scored Hd Hu Hr Hc.
  - apply Forall2_nil_inv_l in Hd as ->. exists hi. split; [done|].
    cbn [score_all rank_loop]. exists []. by rewrite !app_nil_r.
  - apply Forall2_cons_inv_l in Hd as (d & ds' & Hcd & Hd & ->).
    cbn [score_all rank_loop]. rewrite (Hu _ _ Hcd).
    fold (embedding_of d). fold (usable d).
    destruct (usable d) eqn:Hus; cbn [negb]; [|by apply IH].
    destruct (cosine_of_value np_dot np_norm q (embedding_of d)) as [s|e]; cbn [bind].
    2:{ exists hi. done. }
    unfold alloc. cbv zeta.
    set (copy := fresh (dom hi)).
    assert (Hfresh : hi !! copy = None) by apply fresh_not_in.
    assert (Hne : copy <> results) by (intros Heq; rewrite Heq in Hfresh; congruence).
    unfold list_append. rewrite lookup_insert_ne by done. rewrite Hr.
    set (h2 := <[results := OList (items ++ [copy])]>
                 (<[copy := ODict (<[key_score := VFloat s]> d)]> hi)).
    assert (Hcopy0 : copy ∉ dom h0).
    { apply (unchanged_dom h0 hi); [done|]. by apply not_elem_of_dom. }
    destruct (IH ds' h2 (items ++ [copy]) (scored ++ [(s, with_score s d)]))
      as (hf & Huf & Hf).
    + done.
    + unfold h2. by repeat apply unchanged_insert_fresh.
    + unfold h2. by rewrite lookup_insert_eq.
    + unfold copies. apply Forall2_app.
      * apply (copies_weaken h0 hi); [|done]. intros l Hl.
        destruct (copies_in_dom _ _ _ _ _ Hc Hl) as [dl Hdl].
        unfold h2. rewrite !lookup_insert_ne; [done| |]; intros ->; congruence.
      * constructor; [|constructor]. cbn [fst snd].
        split; [|split; [|done]].
        -- unfold h2. rewrite lookup_insert_ne by done. by rewrite lookup_insert_eq.
        -- unfold with_score. by rewrite lookup_insert_eq.
    + exists hf. split; [done|].
      destruct (score_all np_dot np_norm q ds') as [more|e]; cbn [bind]; [|done].
      destruct Hf as (items' & Hloop & Hlist & Hcop).
      exists (copy :: items'). rewrite <- (app_assoc items) in Hlist, Hcop.
      rewrite <- (app_assoc scored) in Hcop. done.
Qed.

(** The sort key of every copy is its score. *)
Lemma score_keys_of_copies (h0 hf : heap) (items : list loc)
    (scored : list (float * gmap str value)) :
  copies h0 hf items scored ->
  for_each (fun l => k <- score_key hf l ;; Ok (k, l)) items
  = Ok (zip (map fst scored) items)
  /\ scored = map (prod_map id (dict_at hf)) (zip (map fst scored) items).
Proof.
  unfold copies. induction 1 as [|l [s d] items scored (Hl & Hs & _) Hc [IH1 IH2]];
    [done|].
  cbn [for_each map zip zip_with fst snd] in *.
  unfold score_key at 1. rewrite Hl, Hs. cbn [bind]. rewrite IH1. cbn [bind].
  split; [done|]. unfold prod_map at 1. cbn [fst snd id].
  unfold dict_at at 1. rewrite Hl. f_equal. exact IH2.
Qed.

Lemma read_items (h : heap) (items : list loc) :
  (forall l, l ∈ items -> exists d, h !! l = Some (ODict d)) ->
  mapM (fun i => match h !! i with Some (ODict d) => Some d | _ => None end) items
  = Some (map (dict_at h) items).
Proof.
  induction items as [|l items IH]; intros H; [done|].
  cbn [mapM map]. destruct (H l) as [d Hd]; [by left|].
  rewrite IH by (intros k Hk; apply H; by right).
  rewrite Hd. cbn. f_equal. f_equal. unfold dict_at. by rewrite Hd.
Qed.

(** [rank_by_similarity] on the store computes [ranked] of the mappings it is
    given. It changes no object of the caller: the list it returns and the
    mappings in it are new objects. *)
Lemma rank_by_similarity_spec (q : list float) (candidates : loc) (h : heap)
    (cs : list loc) (ds : list (gmap str value)) :
  h !! candidates = Some (OList cs) -> holds_dicts h cs ds ->
  exists r h',
    rank_by_similarity np_dot np_norm q candidates h = (r, h')
    /\ unchanged h h'
    /\ match ranked np_dot np_norm q ds with
       | Ok out =>
           exists results items,
             r = Ok results /\ (results ∉ dom h)
             /\ h' !! results = Some (OList items)
             /\ Forall (fun l => l ∉ dom h) items
             /\ read_dicts h' results = Some out
       | Raise e => r = Raise e
       end.
Proof.
  intros Hcand Hd. unfold rank_by_similarity, alloc. cbv zeta.
  set (results := fresh (dom h)).
  assert (Hfresh : h !! results = None) by apply fresh_not_in.
  assert (Hres : results ∉ dom h) by (by apply not_elem_of_dom).
  assert (Hne : results <> candidates) by (intros Heq; rewrite Heq in Hfresh; congruence).
  rewrite lookup_insert_ne by done. rewrite Hcand.
  destruct (rank_loop_spec q h results Hres cs ds (<[results := OList []]> h) [] [])
    as (hf & Huf & Hf).
  { done. }
  { apply unchanged_insert_fresh; [apply unchanged_refl|done]. }
  { by rewrite lookup_insert_eq. }
  { constructor. }
  unfold ranked.
  destruct (score_all np_dot np_norm q ds) as [scored|e]; cbn [bind].
  2:{ rewrite Hf. by exists (Raise e), hf. }
  destruct Hf as (items & Hloop & Hlist & Hcop). cbn [app] in Hlist, Hcop.
  rewrite Hloop. unfold sort_results. rewrite Hlist.
  destruct (score_keys_of_copies h hf items scored Hcop) as [Hkeys Hscored].
  rewrite Hkeys.
  set (keyed := zip (map fst scored) items) in *.
  set (sorted := map snd (sort_reverse keyed)).
  exists (Ok results), (<[results := OList sorted]> hf).
  split; [done|]. split; [by apply unchanged_insert_fresh|].
  assert (Hitems : forall l, l ∈ sorted -> l ∈ items).
  { intros l Hl. unfold sorted in Hl.
    apply list_elem_of_In, in_map_iff in Hl as ([k l'] & <- & Hin).
    apply (Permutation_in _ (sort_reverse_perm keyed)) in Hin.
    apply list_elem_of_In in Hin. unfold keyed in Hin.
    by apply elem_of_zip_r in Hin. }
  assert (Hsame : forall l, l ∈ items ->
            (<[results := OList sorted]> hf) !! l = hf !! l).
  { intros l Hl. destruct (copies_in_dom _ _ _ _ _ Hcop Hl) as [d Hdl].
    rewrite lookup_insert_ne; [done|]. intros ->. congruence. }
  exists results, sorted.
  split; [done|]. split; [done|].
  split; [by rewrite lookup_insert_eq|].
  split.
  { apply Forall_forall. intros l Hl%Hitems.
    apply list_elem_of_lookup in Hl as [i Hi].
    by destruct (Forall2_lookup_l _ _ _ _ _ Hcop Hi) as (sd & _ & _ & _ & H). }
  unfold read_dicts. rewrite lookup_insert_eq.
  rewrite read_items.
  2:{ intros l Hl%Hitems. rewrite (Hsame l Hl). by apply (copies_in_dom h hf items scored). }
  f_equal. rewrite Hscored, sort_reverse_map.
  fold keyed. unfold sorted. rewrite !List.map_map.
  apply map_ext_in. intros [k l] Hin. cbn [prod_map snd id].
  unfold dict_at. rewrite Hsame; [done|].
  apply Hitems. unfold sorted. apply list_elem_of_In, in_map_iff. by exists (k, l).
Qed.

End RankTheory.

(** ** Cosine similarity and ranking *)

Section SimilarityTheory.

Variable np_dot : list float -> list float -> float.
Variable np_norm : list float -> float.

(** C8. When the norm of either vector is exactly zero, [cosine_similarity]
    returns exactly 0.0: it raises nothing, whatever the dimensions, and the
    result is a finite number. *)
Theorem cosine_similarity_zero_norm (a b : list float) :
  PrimFloat.eqb (np_norm a) 0%float = true \/ PrimFloat.eqb (np_norm b) 0%float = true ->
  cosine_similarity np_dot np_norm a b = Ok 0%float
  /\ PrimFloat.is_finite 0%float = true.
Proof.
  intros H. split; [|reflexivity]. unfold cosine_similarity.
  destruct H as [-> | ->]; [done|]. by rewrite orb_true_r.
Qed.

(** A vector of the dimension of the query always gets a score. *)
Lemma cosine_similarity_same_length (a b : list float) :
  length b = length a -> exists s, cosine_similarity np_dot np_norm a b = Ok s.
Proof.
  intros Hlen. unfold cosine_similarity, dot_1d.
  destruct (_ || _); [by eexists|].
  rewrite Hlen, Nat.eqb_refl. by eexists.
Qed.

Lemma score_all_scorable (q : list float) (ds : list (gmap str value)) :
  Forall (scorable np_dot np_norm q) ds ->
  score_all np_dot np_norm q ds
  = Ok (map (fun d => (score_value np_dot np_norm q d,
                       with_score (score_value np_dot np_norm q d) d))
            (List.filter usable ds)).
Proof.
  induction 1 as [|d ds Hd Hds IH]; [done|].
  cbn [score_all List.filter]. destruct (usable d) eqn:Hus; cbn [negb]; [|done].
  destruct (Hd Hus) as [(v & Hv & Hlen) _].
  assert (Hval : cosine_of_value np_dot np_norm q (embedding_of d)
                 = Ok (score_value np_dot np_norm q d)).
  { unfold score_value. rewrite Hv. cbn [cosine_of_value].
    destruct (cosine_similarity_same_length q v Hlen) as [s Hs]. by rewrite Hs. }
  rewrite Hval. cbn [bind]. rewrite IH. done.
Qed.

(** C6 (amended). Let every candidate whose embedding is usable (present and
    not falsy) hold a vector of the dimension of the query, and let every
    score be a number. Then [rank_by_similarity] returns a list that holds
    exactly the usable candidates, each as a new mapping equal to the
    original plus a score field set to its cosine similarity to the query;
    the list is sorted by score, descending, candidates of equal score keep
    the order they have among the usable candidates, and nothing is cut
    off. Candidates without a usable embedding are dropped without error. *)
Theorem rank_by_similarity_ranks (q : list float) (candidates : loc) (h : heap)
    (cs : list loc) (ds : list (gmap str value)) :
  h !! candidates = Some (OList cs) ->
  holds_dicts h cs ds ->
  Forall (scorable np_dot np_norm q) ds ->
  let scored :=
    map (fun d => (score_value np_dot np_norm q d,
                   with_score (score_value np_dot np_norm q d) d))
        (List.filter usable ds) in
  exists keyed,
    rank_output np_dot np_norm q candidates h = Ok (map snd keyed)
    /\ Forall (fun sd => score_of (snd sd) = fst sd) keyed
    /\ Permutation keyed scored
    /\ StronglySorted key_descending keyed
    /\ (forall s, with_key s keyed = with_key s scored)
    /\ length (map snd keyed) = length (List.filter usable ds).
Proof.
  intros Hcand Hd Hsc. cbv zeta.
  set (scored := map _ (List.filter usable ds)).
  assert (Hscored : score_all np_dot np_norm q ds = Ok scored)
    by (by apply score_all_scorable).
  assert (Hnum : keys_are_numbers scored).
  { unfold keys_are_numbers, scored. apply List.Forall_map. cbn [fst].
    apply List.Forall_forall. intros d [Hin Hus]%filter_In.
    rewrite List.Forall_forall in Hsc. by destruct (Hsc d Hin Hus). }
  assert (Hfield : Forall (fun sd => score_of (snd sd) = fst sd) scored).
  { unfold scored. apply List.Forall_map. apply List.Forall_forall. intros d _.
    cbn [fst snd]. unfold score_of, with_score. by rewrite lookup_insert_eq. }
  exists (sort_reverse scored).
  destruct (rank_by_similarity_spec np_dot np_norm q candidates h cs ds Hcand Hd)
    as (r & h' & Hrun & _ & Hout).
  unfold ranked in Hout. rewrite Hscored in Hout. cbn [bind] in Hout.
  destruct Hout as (results & items & -> & _ & _ & _ & Hread).
  split; [unfold rank_output; by rewrite Hrun, Hread|].
  split.
  { eapply Permutation_Forall; [|exact Hfield]. symmetry. apply sort_reverse_perm. }
  split; [apply sort_reverse_perm|].
  split; [by apply sort_reverse_sorted|].
  split; [intros s; by apply sort_reverse_stable|].
  rewrite length_map, (Permutation_length (sort_reverse_perm scored)).
  unfold scored. by rewrite length_map.
Qed.

(** C7. [rank_by_similarity] changes no object of its caller: after the call
    the list of candidates and every candidate mapping are as they were. The
    list it returns and the mappings in it are objects the caller did not
    have. Run again on the store the first call left, it gives the same
    output. *)
Theorem rank_by_similarity_is_pure (q : list float) (candidates : loc) (h : heap)
    (cs : list loc) (ds : list (gmap str value)) :
  h !! candidates = Some (OList cs) ->
  holds_dicts h cs ds ->
  let run := rank_by_similarity np_dot np_norm q candidates h in
  unchanged h (snd run)
  /\ snd run !! candidates = Some (OList cs)
  /\ holds_dicts (snd run) cs ds
  /\ (forall results, fst run = Ok results ->
        (results ∉ dom h)
        /\ exists items, snd run !! results = Some (OList items)
                         /\ Forall (fun l => l ∉ dom h) items)
  /\ rank_output np_dot np_norm q candidates (snd run)
     = rank_output np_dot np_norm q candidates h
  /\ rank_output np_dot np_norm q candidates h = ranked np_dot np_norm q ds.
Proof.
  intros Hcand Hd. cbv zeta.
  destruct (rank_by_similarity_spec np_dot np_norm q candidates h cs ds Hcand Hd)
    as (r & h' & Hrun & Hun & Hout).
  rewrite Hrun. cbn [fst snd].
  assert (Hcand' : h' !! candidates = Some (OList cs)) by (by apply Hun).
  assert (Hd' : holds_dicts h' cs ds).
  { unfold holds_dicts in *. eapply Forall2_impl; [exact Hd|]. intros l d. apply Hun. }
  assert (Hfirst : rank_output np_dot np_norm q candidates h = ranked np_dot np_norm q ds).
  { unfold rank_output. rewrite Hrun.
    destruct (ranked np_dot np_norm q ds) as [out|e].
    - destruct Hout as (results & items & -> & _ & _ & _ & ->). done.
    - by rewrite Hout. }
  split; [done|]. split; [done|]. split; [done|]. split.
  { intros results ->.
    destruct (ranked np_dot np_norm q ds) as [out|e]; [|done].
    destruct Hout as (results' & items & [= <-] & Hres & Hlist & Hitems & _).
    split; [done|]. by exists items. }
  split; [|done]. rewrite Hfirst.
  destruct (rank_by_similarity_spec np_dot np_norm q candidates h' cs ds Hcand' Hd')
    as (r2 & h2 & Hrun2 & _ & Hout2).
  unfold rank_output. rewrite Hrun2.
  destruct (ranked np_dot np_norm q ds) as [out|e].
  - destruct Hout2 as (results & items & -> & _ & _ & _ & ->). done.
  - by rewrite Hout2.
Qed.

End SimilarityTheory.

Lemma cosine_similarity_zero_norm_witness :
  cosine_similarity dot_seq norm_seq [0%float; 0%float] [1%float; 2%float] = Ok 0%float
  /\ PrimFloat.is_finite 0%float = true.
Proof.
  apply (cosine_similarity_zero_norm dot_seq norm_seq [0%float; 0%float] [1%float; 2%float]).
  left. vm_compute. reflexivity.
Defined.

(** The zero guard comes before the product of the vectors: vectors of
    different dimensions, one of them of norm zero, still give 0.0. *)
Example cosine_similarity_zero_norm_other_dimension :
  cosine_similarity dot_seq norm_seq [0%float; 0%float] [1%float; 2%float; 3%float]
  = Ok 0%float
  /\ cosine_similarity dot_seq norm_seq [] [1%float] = Ok 0%float.
Proof. vm_compute. split; reflexivity. Qed.

Lemma example_heap_holds : holds_dicts example_heap [1; 2; 3; 4] example_dicts.
Proof. repeat constructor. Qed.

Lemma example_dicts_scorable :
  Forall (scorable dot_seq norm_seq [1%float; 0%float]) example_dicts.
Proof.
  unfold example_dicts.
  repeat (apply List.Forall_cons; [intros Hus|]); [..|apply List.Forall_nil];
    try discriminate Hus;
    (split; [eexists; split; reflexivity | vm_compute; reflexivity]).
Qed.

Lemma rank_by_similarity_ranks_witness :
  let q := [1%float; 0%float] in
  let scored :=
    map (fun d => (score_value dot_seq norm_seq q d,
                   with_score (score_value dot_seq norm_seq q d) d))
        (List.filter usable example_dicts) in
  exists keyed,
    rank_output dot_seq norm_seq q 0 example_heap = Ok (map snd keyed)
    /\ Forall (fun sd => score_of (snd sd) = fst sd) keyed
    /\ Permutation keyed scored
    /\ StronglySorted key_descending keyed
    /\ (forall s, with_key s keyed = with_key s scored)
    /\ length (map snd keyed) = length (List.filter usable example_dicts).
Proof.
  apply (rank_by_similarity_ranks dot_seq norm_seq [1%float; 0%float] 0 example_heap
           [1; 2; 3; 4] example_dicts).
  - reflexivity.
  - exact example_heap_holds.
  - exact example_dicts_scorable.
Defined.

(** The ranking of the example store for the query [1, 0]: the candidate
    without embedding is gone, c comes first, a and d, of equal score, keep
    their order. *)
Example rank_by_similarity_example :
  rank_output dot_seq norm_seq [1%float; 0%float] 0 example_heap
  = Ok [with_score 1%float (candidate "c" (VVec [1%float; 0%float]));
        with_score 0%float (candidate "a" (VVec [0%float; 1%float]));
        with_score 0%float (candidate "d" (VVec [0%float; 1%float]))].
Proof. vm_compute. reflexivity. Qed.

Lemma rank_by_similarity_is_pure_witness :
  let run := rank_by_similarity dot_seq norm_seq [1%float; 0%float] 0 example_heap in
  unchanged example_heap (snd run)
  /\ snd run !! 0 = Some (OList [1; 2; 3; 4])
  /\ holds_dicts (snd run) [1; 2; 3; 4] example_dicts
  /\ (forall results, fst run = Ok results ->
        (results ∉ dom example_heap)
        /\ exists items, snd run !! results = Some (OList items)
                         /\ Forall (fun l => l ∉ dom example_heap) items)
  /\ rank_output dot_seq norm_seq [1%float; 0%float] 0 (snd run)
     = rank_output dot_seq norm_seq [1%float; 0%float] 0 example_heap
  /\ rank_output dot_seq norm_seq [1%float; 0%float] 0 example_heap
     = ranked dot_seq norm_seq [1%float; 0%float] example_dicts.
Proof.
  apply (rank_by_similarity_is_pure dot_seq norm_seq [1%float; 0%float] 0 example_heap
           [1; 2; 3; 4] example_dicts).
  - reflexivity.
  - exact example_heap_holds.
Defined.

Lemma nan_not_fle_l (x : float) : ~ fle nan x.
Proof. intros [H _]%fle_number. discriminate H. Qed.

Lemma nan_not_fle_r (x : float) : ~ fle x nan.
Proof. intros [_ H]%fle_number. discriminate H. Qed.

(** C6, as stated, fails. With the query [1e200], the candidate [1e200] gets
    the score inf / inf, which is not a number: the list that is returned
    holds the scores nan and 0.0, and no order of these two candidates is
    sorted by descending score. And a candidate whose embedding has not the
    dimension of the query makes the call raise. (Vectors of one dimension:
    the order in which numpy sums does not matter.) *)
Lemma rank_by_similarity_nan_score_unsorted :
  (exists out,
     rank_output dot_seq norm_seq [f1e200] 0 overflow_heap = Ok out
     /\ map score_of out = [nan; 0%float]
     /\ forall out', Permutation out' out -> ~ StronglySorted score_descending out')
  /\ rank_output dot_seq norm_seq [1%float; 0%float] 0 mismatch_heap
     = Raise (ValueError (lit "shapes (2,) and (1,) not aligned: 2 (dim 0) != 1 (dim 0)")).
Proof.
  split; [|vm_compute; reflexivity].
  eexists. split; [vm_compute; reflexivity|]. split; [vm_compute; reflexivity|].
  intros out' Hperm Hsorted.
  apply Permutation_sym, Permutation_length_2_inv in Hperm as [-> | ->];
    apply StronglySorted_inv in Hsorted as [_ Hhd];
    apply Forall_cons in Hhd as [Hhd _];
    unfold score_descending in Hhd;
    match type of Hhd with
    | fle (score_of ?a) (score_of ?b) =>
        let va := eval vm_compute in (score_of a) in
        let vb := eval vm_compute in (score_of b) in
        change (fle va vb) in Hhd
    end.
  - by apply nan_not_fle_r in Hhd.
  - by apply nan_not_fle_l in Hhd.
Qed.

(** * Further properties *)

(** ** Trimming *)

Lemma blank_app (p q : str) : blank (p ++ q) = blank p && blank q.
Proof. apply forallb_app. Qed.

Lemma blank_rev (p : str) : blank (rev p) = blank p.
Proof.
  unfold blank. destruct (forallb isspace p) eqn:Hp.
  - rewrite forallb_forall in *. intros x Hx. apply Hp. by apply in_rev.
  - destruct (forallb isspace (rev p)) eqn:Hr; [|done].
    rewrite <- Hp. symmetry. rewrite forallb_forall in *.
    intros x Hx. apply Hr. by apply in_rev in Hx.
Qed.

Lemma lstrip_app_blank (p s : str) : blank p = true -> lstrip (p ++ s) = lstrip s.
Proof.
  induction p as [|c p IH]; [done|].
  intros [Hc Hp]%andb_prop. cbn [app lstrip]. rewrite Hc. by apply IH.
Qed.

Lemma lstrip_app (s w : str) : lstrip s <> [] -> lstrip (s ++ w) = lstrip s ++ w.
Proof.
  induction s as [|c s IH]; [done|].
  cbn [app lstrip]. destruct (isspace c); [exact IH | done].
Qed.

Lemma rstrip_app_blank (s w : str) : blank w = true -> rstrip (s ++ w) = rstrip s.
Proof.
  intros Hw. unfold rstrip. rewrite rev_app_distr.
  rewrite lstrip_app_blank; [done|]. by rewrite blank_rev.
Qed.

(** White space around a text does not change what [strip] gives. *)
Lemma strip_padded (p s w : str) :
  blank p = true -> blank w = true -> strip (p ++ s ++ w) = strip s.
Proof.
  intros Hp Hw. unfold strip. rewrite (lstrip_app_blank p _ Hp).
  destruct (lstrip s) as [|c r] eqn:Hs.
  - apply lstrip_nil_blank in Hs.
    rewrite lstrip_blank; [done|]. by rewrite blank_app, Hs, Hw.
  - rewrite lstrip_app by (by rewrite Hs). rewrite Hs. by apply rstrip_app_blank.
Qed.

(** ** Contiguous parts *)

Lemma part_of_refl (s : str) : part_of s s.
Proof. exists [], []. by rewrite app_nil_r. Qed.

Lemma part_of_trans (s t u : str) : part_of s t -> part_of t u -> part_of s u.
Proof.
  intros (a & b & ->) (c & d & ->). exists (c ++ a), (b ++ d).
  by rewrite <- !app_assoc.
Qed.

Lemma part_of_drop (k : nat) (s : str) : part_of (drop k s) s.
Proof. exists (take k s), []. by rewrite app_nil_r, take_drop. Qed.

Lemma part_of_lstrip (s : str) : part_of (lstrip s) s.
Proof. destruct (lstrip_drop s) as [k ->]. apply part_of_drop. Qed.

Lemma part_of_rev (s t : str) : part_of s t -> part_of (rev s) (rev t).
Proof.
  intros (a & b & ->). exists (rev b), (rev a).
  by rewrite !rev_app_distr, <- app_assoc.
Qed.

Lemma part_of_strip (s : str) : part_of (strip s) s.
Proof.
  unfold strip, rstrip. apply part_of_trans with (lstrip s); [|apply part_of_lstrip].
  rewrite <- (rev_involutive (lstrip s)) at 2.
  apply part_of_rev, part_of_lstrip.
Qed.

Lemma part_of_cut (p s b a : str) : cut p s = Some (b, a) -> part_of b s /\ part_of a s.
Proof.
  intros ->%cut_app. split.
  - exists [], (p ++ a). done.
  - exists (b ++ p), []. by rewrite app_nil_r, <- app_assoc.
Qed.

Lemma part_of_fence_interior (s i : str) : fence_interior s = Some i -> part_of i s.
Proof.
  unfold fence_interior.
  destruct (cut fence s) as [[b rest]|] eqn:Hc; [|done].
  destruct (cut fence (lstrip (after_tag rest))) as [[i' a]|] eqn:Hi; [|done].
  intros [= <-]. cbn [fst].
  apply part_of_cut in Hc as [_ Hrest]. apply part_of_cut in Hi as [Hi _].
  apply part_of_trans with (lstrip (after_tag rest)); [done|].
  apply part_of_trans with (after_tag rest); [apply part_of_lstrip|].
  apply part_of_trans with rest; [|done].
  destruct (after_tag_drop rest) as [k ->]. apply part_of_drop.
Qed.

Lemma part_of_brace_span (s g : str) : brace_span s = Some g -> part_of g s.
Proof.
  revert g. induction s as [|c t IH]; intros g; [done|].
  cbn [brace_span]. destruct (char_eqb 123%N c).
  - destruct (after_last 125%N t) as [post|]; [|done]. intros [= <-].
    exists [], (drop (length t - length post) t). cbn [app]. by rewrite take_drop.
  - intros (a & b & ->)%IH. by exists (c :: a), b.
Qed.

Section RecoveryMore.

Variable json_loads : str -> result json.

(** White space before and after the text of a response changes nothing:
    [_extract_json] returns the same value, or raises the same error with the
    same message. *)
Theorem extract_json_ignores_surrounding_space (p text w : str) :
  blank p = true -> blank w = true ->
  _extract_json json_loads (p ++ text ++ w) = _extract_json json_loads text.
Proof.
  intros Hp Hw. unfold _extract_json. rewrite (strip_padded p text w Hp Hw).
  destruct (strip text) as [|c r] eqn:Hs.
  - by rewrite !orb_true_r.
  - rewrite !orb_false_r.
    assert (Ht : text <> []) by (intros ->; done).
    destruct text as [|x text]; [done|].
    by destruct p.
Qed.

(** A value that [_extract_json] returns is what [json.loads] makes of a
    contiguous part of the text: nothing is parsed that is not in the
    response as it stands. *)
Theorem extract_json_parses_part_of_text (text : str) (v : json) :
  _extract_json json_loads text = Ok v ->
  exists s, part_of s text /\ json_loads s = Ok v.
Proof.
  unfold _extract_json. destruct (_ || _); [done|].
  set (body := match re_search fence_re (strip text) with
               | Some m => strip (group1 m) | None => strip text end).
  assert (Hbody : part_of body text).
  { unfold body. pose proof (re_search_fence (strip text)) as Hf.
    destruct (re_search fence_re (strip text)) as [m|]; [|apply part_of_strip].
    cbn in Hf. symmetry in Hf. apply part_of_fence_interior in Hf.
    apply part_of_trans with (group1 m); [apply part_of_strip|].
    apply part_of_trans with (strip text); [done | apply part_of_strip]. }
  unfold try_except_JSONDecodeError at 1.
  destruct (json_loads body) as [v'|e] eqn:Hv.
  - intros [= <-]. by exists body.
  - destruct (caught_by_JSONDecodeError e); [|done].
    pose proof (re_search_brace body) as Hb.
    destruct (re_search brace_re body) as [m|]; [|done].
    cbn in Hb. symmetry in Hb. apply part_of_brace_span in Hb.
    unfold try_except_JSONDecodeError.
    destruct (json_loads (group0 m)) as [v'|e'] eqn:Hv'.
    + intros [= <-]. exists (group0 m). split; [|done].
      by apply part_of_trans with body.
    + by destruct (caught_by_JSONDecodeError e').
Qed.

End RecoveryMore.

Lemma extract_json_ignores_surrounding_space_witness :
  _extract_json Json.loads ([newline] ++ lit "{}" ++ lit "  ")
  = _extract_json Json.loads (lit "{}").
Proof.
  apply (extract_json_ignores_surrounding_space Json.loads [newline] (lit "{}") (lit "  "));
    reflexivity.
Defined.

Lemma extract_json_parses_part_of_text_witness :
  exists s, part_of s (lit "Sure: {} ok") /\ Json.loads s = Ok (JObj []).
Proof.
  apply (extract_json_parses_part_of_text Json.loads (lit "Sure: {} ok") (JObj [])).
  vm_compute. reflexivity.
Defined.

(** ** The fallback *)

Lemma startswith_nil (s : str) : startswith s [] = true.
Proof. by destruct s. Qed.

Lemma startswith_app (p r : str) : startswith (p ++ r) p = true.
Proof. apply startswith_true. by exists r. Qed.

Lemma match_here_response_needs_key (s : str) :
  startswith s (quoted (lit "response")) = false -> match_here response_re s = None.
Proof.
  intros H. unfold match_here, response_re.
  by rewrite rmatch_Seqs_cons, rmatch_Lit, H.
Qed.

Lemma re_search_response_none (s : str) :
  contains s (quoted (lit "response")) = false -> re_search response_re s = None.
Proof.
  induction s as [|c s IH]; cbn [contains re_search].
  - intros [H _]%orb_false_elim. by rewrite match_here_response_needs_key.
  - intros [H Hs]%orb_false_elim. rewrite match_here_response_needs_key by done. auto.
Qed.

(** A prefix without a double quote holds no match of the response pattern. *)
Lemma re_search_response_skip (pre s : str) :
  free_of dquote pre = true ->
  re_search response_re (pre ++ s) = re_search response_re s.
Proof.
  induction pre as [|c pre IH]; [done|].
  intros [Hc Hp]%andb_prop. cbn [app re_search].
  rewrite match_here_response_needs_key; [by apply IH|].
  unfold quoted. cbn [startswith].
  apply negb_true_iff in Hc. unfold char_eqb in *. by rewrite N.eqb_sym, Hc.
Qed.

(** Greedy white space before a character that is not white space. *)
Lemma star_spaces_skip (k : continuation) (n : nat) (cap : option str)
    (ws : str) (c : char) (u : str) (m : match_state) :
  blank ws = true -> isspace c = false -> length (ws ++ c :: u) <= n ->
  k cap (c :: u) = Some m ->
  star_loop (rmatch Space) true k n cap (ws ++ c :: u) = Some m.
Proof.
  intros Hws Hc Hn Hk. revert n Hn. induction ws as [|a ws IH]; intros n Hn.
  - destruct n as [|n]; [simpl in Hn; lia|].
    cbn [app star_loop rmatch Space]. by rewrite Hc.
  - apply andb_prop in Hws as [Ha Hws].
    destruct n as [|n]; [simpl in Hn; lia|].
    cbn [app star_loop rmatch Space]. rewrite Ha.
    replace (length (ws ++ c :: u) <? length (a :: ws ++ c :: u)) with true
      by (symmetry; apply Nat.ltb_lt; simpl; lia).
    rewrite IH; [done..|]. simpl in Hn. lia.
Qed.

Lemma escape_cons (c : char) (u : str) :
  escape (c :: u)
  = (if char_eqb c newline then [backslash; 110%N]
     else if char_eqb c dquote then [backslash; dquote] else [c]) ++ escape u.
Proof. reflexivity. Qed.

(** The tokens of the value of the response key. *)
Lemma star_loop_greedy_S (body : matcher) (k : continuation) (n : nat)
    (cap : option str) (s : str) :
  star_loop body true k (S n) cap s
  = match body cap s (fun cap' s' =>
                        if length s' <? length s then star_loop body true k n cap' s'
                        else None) with
    | Some m => Some m
    | None => k cap s
    end.
Proof. reflexivity. Qed.

Lemma token_plain (k : continuation) (cap : option str) (c : char) (s : str)
    (m : match_state) :
  char_eqb c dquote = false -> char_eqb c backslash = false ->
  k cap s = Some m ->
  rmatch (Alt (Cls (fun c => negb (char_eqb c dquote || char_eqb c backslash)))
              (Seq (Chr backslash) Any)) cap (c :: s) k = Some m.
Proof. intros Hq Hb Hk. cbn [rmatch]. by rewrite Hq, Hb, Hk. Qed.

Lemma token_escaped (k : continuation) (cap : option str) (x : char) (s : str) :
  rmatch (Alt (Cls (fun c => negb (char_eqb c dquote || char_eqb c backslash)))
              (Seq (Chr backslash) Any)) cap (backslash :: x :: s) k = k cap s.
Proof. reflexivity. Qed.

Lemma token_stop (k : continuation) (cap : option str) (s : str) :
  rmatch (Alt (Cls (fun c => negb (char_eqb c dquote || char_eqb c backslash)))
              (Seq (Chr backslash) Any)) cap (dquote :: s) k = None.
Proof. reflexivity. Qed.

(** The value of the response key: the greedy run of tokens reads an escaped
    text up to the double quote that closes it. *)
Lemma star_tokens_escaped (k : continuation) (cap : option str)
    (u post : str) (m : match_state) :
  free_of backslash u = true ->
  k cap (dquote :: post) = Some m ->
  forall n, length (escape u ++ dquote :: post) <= n ->
  star_loop
    (rmatch (Alt (Cls (fun c => negb (char_eqb c dquote || char_eqb c backslash)))
                 (Seq (Chr backslash) Any)))
    true k n cap (escape u ++ dquote :: post) = Some m.
Proof.
  intros Hu Hk. induction u as [|c u IH]; intros n Hn.
  - destruct n as [|n]; [simpl in Hn; lia|].
    cbn [escape flat_map app]. by rewrite star_loop_greedy_S, token_stop.
  - apply andb_prop in Hu as [Hc Hu]. apply negb_true_iff in Hc.
    specialize (IH Hu). rewrite escape_cons in *.
    destruct n as [|n]; [destruct (char_eqb c newline), (char_eqb c dquote); simpl in Hn; lia|].
    rewrite star_loop_greedy_S.
    destruct (char_eqb c newline) eqn:Hnl; [|destruct (char_eqb c dquote) eqn:Hq];
      cbn [app] in *.
    + rewrite token_escaped. cbv beta.
      rewrite (proj2 (Nat.ltb_lt _ _)) by (simpl; lia).
      rewrite IH; [done|]. simpl in Hn. lia.
    + rewrite token_escaped. cbv beta.
      rewrite (proj2 (Nat.ltb_lt _ _)) by (simpl; lia).
      rewrite IH; [done|]. simpl in Hn. lia.
    + erewrite token_plain; [done..|]. cbv beta.
      rewrite (proj2 (Nat.ltb_lt _ _)) by (simpl; lia).
      apply IH. simpl in Hn. lia.
Qed.

Lemma quoted_app (s post : str) : quoted s ++ post = dquote :: s ++ dquote :: post.
Proof. unfold quoted. cbn [app]. by rewrite <- app_assoc. Qed.

(** The response pattern at a response key whose value is an escaped text. *)
Lemma match_here_response (ws1 ws2 u post : str) :
  blank ws1 = true -> blank ws2 = true -> free_of backslash u = true ->
  snd <$> match_here response_re
            (quoted (lit "response") ++ ws1 ++ [58%N] ++ ws2 ++ quoted (escape u) ++ post)
  = Some (Some (escape u)).
Proof.
  intros H1 H2 Hu. unfold match_here, response_re.
  rewrite rmatch_Seqs_cons, rmatch_Lit, startswith_app, drop_app_length.
  rewrite quoted_app.
  set (final := fun (cap : option str) (rest : str) => Some (rest, cap)).
  assert (Hvalue : forall cap,
    rmatch (Seqs [Chr dquote;
                  Group (Star true
                           (Alt (Cls (fun c => negb (char_eqb c dquote || char_eqb c backslash)))
                                (Seq (Chr backslash) Any)));
                  Chr dquote]) cap (dquote :: escape u ++ dquote :: post) final
    = Some (post, Some (escape u))).
  { intros cap.
    rewrite rmatch_Seqs_cons. change (rmatch (Chr dquote) ?c (dquote :: ?s) ?k) with (k c s).
    cbv beta. rewrite rmatch_Seqs_cons.
    change (rmatch (Group ?r) ?c ?s ?k)
      with (rmatch r c s (fun _ s' => k (Some (take (length s - length s') s)) s')).
    rewrite rmatch_Star.
    apply star_tokens_escaped; [done| |done].
    cbn [Seqs rmatch Chr]. change (char_eqb dquote dquote) with true. cbv iota.
    unfold final. do 3 f_equal. rewrite length_app, Nat.add_sub.
    by rewrite take_app_length. }
  assert (Hcolon : forall cap,
    rmatch (Seqs [Chr 58%N; Star true Space; Chr dquote;
                  Group (Star true
                           (Alt (Cls (fun c => negb (char_eqb c dquote || char_eqb c backslash)))
                                (Seq (Chr backslash) Any)));
                  Chr dquote]) cap (58%N :: ws2 ++ dquote :: escape u ++ dquote :: post) final
    = Some (post, Some (escape u))).
  { intros cap. rewrite rmatch_Seqs_cons.
    change (rmatch (Chr 58%N) ?c (58%N :: ?s) ?k) with (k c s). cbv beta.
    rewrite rmatch_Seqs_cons, rmatch_Star.
    apply star_spaces_skip; [done|done|done|]. apply Hvalue. }
  rewrite rmatch_Seqs_cons, rmatch_Star. cbn [app].
  erewrite star_spaces_skip; [| done | done | done | apply Hcolon].
  done.
Qed.

Lemma re_search_here (r : regex) (s : str) (m : str * option str) :
  match_here r s = Some m -> re_search r s = Some m.
Proof. intros H. destruct s; cbn [re_search]; by rewrite H. Qed.

(** *** Restoring the escapes *)

Lemma startswith_cons (d c : char) (s p : str) :
  startswith (d :: s) (c :: p) = char_eqb c d && startswith s p.
Proof. reflexivity. Qed.

Lemma replace_aux_S (n : nat) (c : char) (s old new : str) :
  replace_aux (S n) (c :: s) old new
  = if startswith (c :: s) old
    then new ++ replace_aux n (skipn (length old) (c :: s)) old new
    else c :: replace_aux n s old new.
Proof. reflexivity. Qed.

Lemma char_eqb_sym (a b : char) : char_eqb a b = char_eqb b a.
Proof. apply N.eqb_sym. Qed.

Lemma char_eqb_eq (a b : char) : char_eqb a b = true -> a = b.
Proof. apply N.eqb_eq. Qed.

Lemma replace_escaped_newlines (u : str) :
  free_of backslash u = true ->
  forall n, length (escape u) <= n ->
  replace_aux n (escape u) [backslash; 110%N] [newline] = escape_quotes u.
Proof.
  intros Hu. induction u as [|c u IH]; intros n Hn.
  - by destruct n.
  - apply andb_prop in Hu as [Hc Hu]. apply negb_true_iff in Hc.
    specialize (IH Hu). rewrite escape_cons in *.
    change (escape_quotes (c :: u))
      with ((if char_eqb c dquote then [backslash; dquote] else [c]) ++ escape_quotes u).
    destruct (char_eqb c newline) eqn:Hnl; [|destruct (char_eqb c dquote) eqn:Hq];
      cbn [app] in *.
    + apply char_eqb_eq in Hnl. subst c. change (char_eqb newline dquote) with false.
      destruct n as [|n]; [simpl in Hn; lia|].
      rewrite replace_aux_S, !startswith_cons, startswith_nil.
      cbn [andb app length skipn]. change (char_eqb backslash backslash) with true.
      cbv iota. cbn [app]. f_equal. apply IH. simpl in Hn. lia.
    + destruct n as [|[|n]]; [simpl in Hn; lia..|].
      rewrite replace_aux_S, !startswith_cons.
      change (char_eqb backslash backslash) with true.
      change (char_eqb 110%N dquote) with false. cbn [andb].
      rewrite replace_aux_S, !startswith_cons.
      change (char_eqb backslash dquote) with false. cbn [andb].
      do 2 f_equal. apply IH. simpl in Hn. lia.
    + destruct n as [|n]; [simpl in Hn; lia|].
      rewrite replace_aux_S, !startswith_cons, (char_eqb_sym backslash c), Hc.
      cbn [andb]. f_equal. apply IH. simpl in Hn. lia.
Qed.

Lemma replace_escaped_quotes (u : str) :
  free_of backslash u = true ->
  forall n, length (escape_quotes u) <= n ->
  replace_aux n (escape_quotes u) [backslash; dquote] [dquote] = u.
Proof.
  intros Hu. induction u as [|c u IH]; intros n Hn.
  - by destruct n.
  - apply andb_prop in Hu as [Hc Hu]. apply negb_true_iff in Hc.
    specialize (IH Hu).
    change (escape_quotes (c :: u))
      with ((if char_eqb c dquote then [backslash; dquote] else [c]) ++ escape_quotes u) in *.
    destruct (char_eqb c dquote) eqn:Hq; cbn [app] in *.
    + apply char_eqb_eq in Hq. subst c.
      destruct n as [|n]; [simpl in Hn; lia|].
      rewrite replace_aux_S, !startswith_cons, startswith_nil.
      change (char_eqb backslash backslash) with true.
      change (char_eqb dquote dquote) with true.
      cbn [andb app length skipn]. f_equal. apply IH. simpl in Hn. lia.
    + destruct n as [|n]; [simpl in Hn; lia|].
      rewrite replace_aux_S, !startswith_cons, (char_eqb_sym backslash c), Hc.
      cbn [andb]. f_equal. apply IH. simpl in Hn. lia.
Qed.

(** Restoring the escapes of an escaped text gives the text back, when the
    text has no backslash of its own. *)
Lemma unescape_escape (u : str) :
  free_of backslash u = true -> unescape_response (escape u) = u.
Proof.
  intros Hu. unfold unescape_response, replace.
  rewrite replace_escaped_newlines by done.
  by rewrite replace_escaped_quotes.
Qed.

(** A raw text in which the key response, in double quotes, does not occur
    is kept whole: the fallback mapping carries it as its response, with the
    empty topic and no concepts. *)
Theorem fallback_keeps_text_without_response_key (raw : str) :
  contains raw (quoted (lit "response")) = false ->
  _fallback_response raw = fallback_mapping raw.
Proof.
  intros H. unfold _fallback_response. by rewrite (re_search_response_none raw H).
Qed.

(** The fallback recovers the response of a structured answer that is cut
    short or otherwise broken after its response value: when the raw text
    holds, after a prefix without double quotes, the key response, a colon
    and the double-quoted value, with newlines and double quotes escaped, of
    a text without backslashes, the fallback mapping carries that text,
    unescaped, whatever follows the value. *)
Theorem fallback_recovers_escaped_response (pre ws1 ws2 u post : str) :
  free_of dquote pre = true -> blank ws1 = true -> blank ws2 = true ->
  free_of backslash u = true ->
  _fallback_response
    (pre ++ quoted (lit "response") ++ ws1 ++ [58%N] ++ ws2 ++ quoted (escape u) ++ post)
  = fallback_mapping u.
Proof.
  intros Hpre H1 H2 Hu. unfold _fallback_response.
  rewrite (re_search_response_skip pre _ Hpre).
  pose proof (match_here_response ws1 ws2 u post H1 H2 Hu) as Hm.
  destruct (match_here response_re _) as [[g0 g1]|] eqn:Hhere; [|done].
  injection Hm as ->. rewrite (re_search_here _ _ _ Hhere).
  change (group1 (g0, Some (escape u))) with (escape u).
  by rewrite (unescape_escape u Hu).
Qed.

Lemma fallback_keeps_text_without_response_key_witness :
  _fallback_response (lit "Sorry, I cannot answer in JSON.")
  = fallback_mapping (lit "Sorry, I cannot answer in JSON.").
Proof.
  apply (fallback_keeps_text_without_response_key (lit "Sorry, I cannot answer in JSON.")).
  reflexivity.
Defined.

Lemma fallback_recovers_escaped_response_witness :
  _fallback_response
    (lit "{" ++ quoted (lit "response") ++ [] ++ [58%N] ++ lit " "
     ++ quoted (escape (lit "He said " ++ quoted (lit "hi") ++ [newline] ++ lit "bye"))
     ++ lit ", " ++ quoted (lit "topic") ++ lit ": {" ++ [dquote] ++ lit "na")
  = fallback_mapping (lit "He said " ++ quoted (lit "hi") ++ [newline] ++ lit "bye").
Proof.
  apply (fallback_recovers_escaped_response (lit "{") [] (lit " ")
           (lit "He said " ++ quoted (lit "hi") ++ [newline] ++ lit "bye")
           (lit ", " ++ quoted (lit "topic") ++ lit ": {" ++ [dquote] ++ lit "na"));
    reflexivity.
Defined.

(** ** More on the requests *)

Lemma for_each_app {A B : Type} (f : A -> result B) (xs zs : list A) :
  for_each f (xs ++ zs)
  = (ys <- for_each f xs ;; ws <- for_each f zs ;; Ok (ys ++ ws)).
Proof.
  induction xs as [|x xs IH]; cbn [app for_each].
  - cbn [bind]. by destruct (for_each f zs).
  - destruct (f x) as [y|e]; cbn [bind]; [|done]. rewrite IH.
    destruct (for_each f xs) as [ys|e]; cbn [bind]; [|done].
    by destruct (for_each f zs).
Qed.

Lemma enumerate_from_app {A : Type} (i : nat) (xs zs : list A) :
  enumerate_from i (xs ++ zs) = enumerate_from i xs ++ enumerate_from (i + length xs) zs.
Proof.
  revert i. induction xs as [|x xs IH]; intros i; cbn [app enumerate_from length].
  - by rewrite Nat.add_0_r.
  - rewrite IH. by replace (S i + length xs) with (i + S (length xs)) by lia.
Qed.

Lemma enumerate_from_snd {A : Type} (i : nat) (xs : list A) :
  map snd (enumerate_from i xs) = xs.
Proof. revert i. induction xs as [|x xs IH]; intros i; cbn; [done|]. by rewrite IH. Qed.

Lemma enumerate_In {A : Type} (xs : list A) (p : nat * A) :
  In p (enumerate xs) -> xs !! fst p = Some (snd p).
Proof.
  intros [j Hj]%list_elem_of_In%list_elem_of_lookup.
  apply enumerate_from_fst in Hj as [-> Hj]. exact Hj.
Qed.

(** The content of a turn without attachment parts. *)
Lemma gemini_role_user (msg : message) :
  str_eqb (gemini_role msg) (lit "user") = str_eqb (msg_role msg) (lit "user").
Proof. unfold gemini_role. by destruct (str_eqb (msg_role msg) (lit "user")). Qed.

Section RequestsMore.

Variable b64decode : str -> b64_failure + list N.

Lemma gemini_content_plain (messages : list message)
    (attachments : option (list attachment)) (i : nat) (msg : message) :
  truthy_list attachments = false
  \/ S i <> length messages
  \/ msg_role msg <> lit "user" ->
  gemini_content b64decode messages attachments i msg
  = Ok (MkContent (gemini_role msg) [Part_from_text (msg_content msg)]).
Proof.
  intros H. unfold gemini_content. fold (gemini_role msg). rewrite gemini_role_user.
  destruct H as [-> | [H | H%str_eqb_neq]]; [done| |].
  - replace (Z.of_nat i =? Z.of_nat (length messages) - 1)%Z with false
      by (symmetry; apply Z.eqb_neq; lia).
    by rewrite andb_false_r.
  - by rewrite H, andb_false_r.
Qed.

Lemma build_gemini_contents_plain (messages : list message)
    (attachments : option (list attachment)) :
  truthy_list attachments = false
  \/ (forall msg, last messages = Some msg -> msg_role msg <> lit "user") ->
  _build_gemini_contents b64decode messages attachments
  = Ok (map (fun msg => MkContent (gemini_role msg) [Part_from_text (msg_content msg)])
            messages).
Proof.
  intros H. unfold _build_gemini_contents.
  rewrite <- (enumerate_from_snd 0 messages) at 2. rewrite List.map_map.
  apply for_each_total. intros [i msg] Hin%enumerate_In. cbn [fst snd] in *.
  apply gemini_content_plain.
  destruct H as [H|H]; [by left|right].
  destruct (decide (S i = length messages)) as [Hi|Hi]; [right|by left].
  apply H. rewrite last_lookup. rewrite <- Hi. exact Hin.
Qed.

(** Attachments count only when the last turn is a user turn. With no
    attachments, or with a conversation that is empty or ends on a turn of
    another role, the contents are built without looking at the attachments,
    which are not even decoded: every turn gets its text part and nothing
    else. *)
Theorem gemini_ignores_attachments_unless_last_turn_is_user (messages : list message)
    (attachments : option (list attachment)) :
  truthy_list attachments = false
  \/ (forall msg, last messages = Some msg -> msg_role msg <> lit "user") ->
  _build_gemini_contents b64decode messages attachments
  = Ok (map (fun msg => MkContent (gemini_role msg) [Part_from_text (msg_content msg)])
            messages).
Proof. apply build_gemini_contents_plain. Qed.

(** The loop over the attachments stops at the first one that does not
    decode, with the exception of the decoder. *)
Lemma gemini_attachment_parts_fail (atts : list attachment) (e : exn) :
  for_each (gemini_attachment_part b64decode) atts = Raise e
  <-> exists decoded att rest failure,
        atts = decoded ++ att :: rest
        /\ Forall (decodes b64decode) decoded
        /\ b64decode (att_data att) = inl failure
        /\ e = b64_exn failure.
Proof.
  induction atts as [|a atts IH]; cbn [for_each].
  - split; [done|]. intros (d & att & r & f & H & _). by destruct d.
  - unfold gemini_attachment_part at 1.
    destruct (b64decode (att_data a)) as [f|raw] eqn:Ha; cbn [bind].
    + split.
      * intros [= <-]. by exists [], a, atts, f.
      * intros (d & att & r & f' & H & Hd & Hf & ->). destruct d as [|x d].
        -- injection H as <- <-. rewrite Ha in Hf. by injection Hf as <-.
        -- injection H as <- _. apply Forall_cons in Hd as [[raw Hraw] _]. congruence.
    + split.
      * intros H.
        destruct (for_each (gemini_attachment_part b64decode) atts) as [ys|e'] eqn:Hr;
          cbn [bind] in H; [done|]. injection H as <-.
        destruct (proj1 IH eq_refl) as (d & att & r & f & -> & Hd & Hf & ->).
        exists (a :: d), att, r, f. repeat split; try done.
        constructor; [by exists raw | done].
      * intros (d & att & r & f & H & Hd & Hf & ->). destruct d as [|x d].
        -- injection H as <- <-. congruence.
        -- injection H as <- ->. apply Forall_cons in Hd as [_ Hd].
           rewrite (proj2 IH); [done|]. by exists d, att, r, f.
Qed.

(** The contents of a conversation that ends on a user turn, with
    attachments: the turns before get their text part, the last one its text
    part and the parts of the attachments. *)
Lemma build_gemini_contents_with_attachments (init : list message) (msg : message)
    (attachments : option (list attachment)) :
  msg_role msg = lit "user" -> truthy_list attachments = true ->
  _build_gemini_contents b64decode (init ++ [msg]) attachments
  = (more <- for_each (gemini_attachment_part b64decode) (attachment_items attachments) ;;
     Ok (map (fun m => MkContent (gemini_role m) [Part_from_text (msg_content m)]) init
         ++ [MkContent (lit "user") (Part_from_text (msg_content msg) :: more)])).
Proof.
  intros Hu Ht. unfold _build_gemini_contents, enumerate.
  rewrite enumerate_from_app, for_each_app. cbn [enumerate_from for_each].
  erewrite (for_each_total _ (fun im => MkContent (gemini_role (snd im))
                                          [Part_from_text (msg_content (snd im))])).
  - cbn [bind Nat.add fst snd]. unfold gemini_content.
    rewrite Hu, !str_eqb_refl, length_app. cbn [length].
    replace (Z.of_nat (length init) =? Z.of_nat (length init + 1) - 1)%Z with true
      by (symmetry; apply Z.eqb_eq; lia).
    rewrite Ht. cbn [andb].
    destruct (for_each (gemini_attachment_part b64decode) (attachment_items attachments))
      as [more|e]; cbn [bind app]; [|done].
    do 2 f_equal. rewrite <- (enumerate_from_snd 0 init) at 2. by rewrite List.map_map.
  - intros [i m] Hin%enumerate_In. cbn [fst snd] in *.
    apply gemini_content_plain. right. left.
    apply lookup_lt_Some in Hin. rewrite length_app. cbn [length]. lia.
Qed.

(** Building the Gemini contents fails exactly when the conversation ends on
    a user turn and the data of some attachment does not decode; the
    exception is the one that [base64.b64decode] raises on the first such
    attachment: [ValueError] for data that is not ASCII, [binascii.Error] for
    data that is not base64. The attachments after it are not decoded. *)
Theorem gemini_contents_fail_iff (messages : list message)
    (attachments : option (list attachment)) (e : exn) :
  _build_gemini_contents b64decode messages attachments = Raise e
  <-> (exists msg, last messages = Some msg /\ msg_role msg = lit "user")
      /\ exists decoded att rest failure,
           attachment_items attachments = decoded ++ att :: rest
           /\ Forall (decodes b64decode) decoded
           /\ b64decode (att_data att) = inl failure
           /\ e = match failure with
                  | NotAscii =>
                      ValueError (lit "string argument should contain only ASCII characters")
                  | Incorrect => BinasciiError
                  end.
Proof.
  change (_build_gemini_contents b64decode messages attachments = Raise e
          <-> (exists msg, last messages = Some msg /\ msg_role msg = lit "user")
              /\ exists decoded att rest failure,
                   attachment_items attachments = decoded ++ att :: rest
                   /\ Forall (decodes b64decode) decoded
                   /\ b64decode (att_data att) = inl failure
                   /\ e = b64_exn failure).
  split.
  - intros H.
    assert (Hlast : exists msg, last messages = Some msg /\ msg_role msg = lit "user").
    { destruct (last messages) as [msg|] eqn:Hl.
      - destruct (decide (msg_role msg = lit "user")) as [Hu|Hu]; [by exists msg|].
        rewrite build_gemini_contents_plain in H; [done|].
        right. intros msg' Hm. rewrite Hl in Hm. by injection Hm as <-.
      - rewrite build_gemini_contents_plain in H; [done|].
        right. intros msg' Hm. by rewrite Hl in Hm. }
    split; [exact Hlast|]. destruct Hlast as (msg & Hl & Hu).
    apply last_Some in Hl as [init ->].
    destruct (truthy_list attachments) eqn:Ht.
    + rewrite build_gemini_contents_with_attachments in H by done.
      destruct (for_each (gemini_attachment_part b64decode) (attachment_items attachments))
        as [more|e'] eqn:Hfe; cbn [bind] in H; [done|]. injection H as <-.
      by apply gemini_attachment_parts_fail.
    + rewrite build_gemini_contents_plain in H; [done | by left].
  - intros ((msg & Hl & Hu) & Hfail). apply gemini_attachment_parts_fail in Hfail.
    apply last_Some in Hl as [init ->].
    assert (Ht : truthy_list attachments = true).
    { destruct attachments as [[|a l]|]; done. }
    rewrite build_gemini_contents_with_attachments by done. by rewrite Hfail.
Qed.

End RequestsMore.

Lemma gemini_ignores_attachments_unless_last_turn_is_user_witness :
  _build_gemini_contents Base64.b64decode
    [Message 0 (lit "user") (lit "look"); Message 1 (lit "assistant") (lit "nice")]
    (Some [Attachment (Some (lit "image/png")) (lit "!not base64!")])
  = Ok [MkContent (lit "user") [Part_from_text (lit "look")];
        MkContent (lit "model") [Part_from_text (lit "nice")]].
Proof.
  apply (gemini_ignores_attachments_unless_last_turn_is_user Base64.b64decode
           [Message 0 (lit "user") (lit "look"); Message 1 (lit "assistant") (lit "nice")]
           (Some [Attachment (Some (lit "image/png")) (lit "!not base64!")])).
  right. intros msg [= <-]. vm_compute. discriminate.
Defined.

(** The request for OpenAI: the system prompt comes first, as a system
    message, even when it is empty; then one message per turn, in order, with
    the role of the turn as it is (a system or assistant turn keeps its role)
    and its text, kept as a string or as the first part of a list of parts
    whose other parts are images. Without attachments every message is a
    plain string. The builder raises nothing. *)
Theorem openai_messages_shape (messages : list message) (system_prompt : str)
    (attachments : option (list attachment)) :
  let out := _build_openai_messages messages system_prompt attachments in
  length out = S (length messages)
  /\ out !! 0 = Some (OpenAIMessage (lit "system") (content_str system_prompt))
  /\ map om_role (tail out) = map msg_role messages
  /\ (forall i msg, messages !! i = Some msg ->
        exists m, out !! S i = Some m
          /\ (om_content m = content_str (msg_content msg)
              \/ exists images,
                   om_content m = content_parts (text_part (msg_content msg) :: images)
                   /\ forallb is_image_part images = true
                   /\ msg_role msg = lit "user"))
  /\ (truthy_list attachments = false ->
      tail out = map (fun msg => OpenAIMessage (msg_role msg) (content_str (msg_content msg)))
                     messages).
Proof.
  cbv zeta. unfold _build_openai_messages. cbn [tail length].
  split; [by rewrite length_map|]. split; [done|]. split; [|split].
  - rewrite List.map_map. apply map_ext. intros msg. unfold openai_message_of.
    by destruct (_ && _ && _).
  - intros i msg Hm. change ((?x :: ?l) !! S i) with (l !! i).
    rewrite lookup_map, Hm. eexists. split; [done|]. unfold openai_message_of.
    destruct (str_eqb (msg_role msg) (lit "user") && truthy_list attachments
              && is_last_object messages msg) eqn:Hc; [|by left].
    right. eexists. split; [done|].
    apply andb_prop in Hc as [[Hu%str_eqb_eq _]%andb_prop _]. split; [|done].
    generalize (attachment_items attachments). intros atts. unfold openai_image_parts.
    induction atts as [|a atts IH]; [done|].
    cbn [flat_map]. rewrite forallb_app, IH, andb_true_r.
    by destruct (startswith _ _).
  - intros Ht. apply map_ext. intros msg. unfold openai_message_of.
    by rewrite Ht, andb_false_r.
Qed.

(** ** The module-level routing function *)

(** [_route_provider] never fails and knows two answers only. It agrees with
    the resolution of a router on every model that has one of the two known
    prefixes, and on every model at all when the router's default is gemini,
    as it is for a router built without argument and without the
    environment variable. *)
Theorem route_provider_agrees_with_resolver (self : LLMRouter.t) (model : str) :
  (_route_provider model = lit "openai" \/ _route_provider model = lit "gemini")
  /\ (startswith model (lit "gpt-") = true \/ startswith model (lit "gemini-") = true
      \/ LLMRouter.provider self = lit "gemini" ->
      LLMRouter._resolve_provider self model = _route_provider model)
  /\ LLMRouter._resolve_provider (LLMRouter.__init__ None None) model = _route_provider model.
Proof.
  unfold _route_provider, LLMRouter._resolve_provider.
  split; [destruct (startswith model (lit "gpt-")); auto|].
  split.
  - intros [H|[H|H]].
    + by rewrite H.
    + by rewrite (gpt_and_gemini_prefixes_exclude model H), H.
    + rewrite H. destruct (startswith model (lit "gpt-")); [done|].
      by destruct (startswith model (lit "gemini-")).
  - destruct (startswith model (lit "gpt-")); [done|].
    by destruct (startswith model (lit "gemini-")).
Qed.

(** ** What [chat] raises *)

Section ChatErrors.

Variable json_loads : str -> result json.
Variable b64decode : str -> b64_failure + list N.
Variable openai_create : openai_kwargs -> str + option str.
Variable gemini_generate_content : gemini_call -> str + option str.

(** [chat] raises in four cases and in no other: the call of the provider
    it routed to fails, and the fault comes through as it is; the model
    routes to Gemini and the contents cannot be built; the model cannot be
    routed; in JSON mode, the provider has answered and parsing the answer
    raises an exception that is not a [ValueError]. Such an exception is one
    that [json.loads] raised, as [RecursionError] on a text that is nested
    too deep: every [ValueError] of the parsing is caught. The request that
    decides goes to one provider only, with the model that was resolved; the
    search flag reaches Gemini only. *)
Theorem chat_raises_iff (self : LLMRouter.t) (messages : list message)
    (system_prompt : str) (json_mode : bool) (model : option str)
    (attachments : option (list attachment)) (use_search : bool) (e : exn) :
  let m := LLMRouter.effective_model model in
  let provider := LLMRouter._resolve_provider self m in
  let escapes (response : option str) :=
    json_mode = true
    /\ _extract_json json_loads (default [] response) = Raise e
    /\ caught_by_ValueError e = false in
  (LLMRouter.chat json_loads b64decode openai_create gemini_generate_content self
     messages system_prompt json_mode model attachments use_search = Raise e
   <-> (provider = lit "openai"
        /\ ((exists fault,
               openai_create
                 (OpenAIKwargs m (_build_openai_messages messages system_prompt attachments)
                    (if json_mode then Some (lit "json_object") else None))
               = inl fault
               /\ e = ProviderError fault)
            \/ (exists response,
                  openai_create
                    (OpenAIKwargs m (_build_openai_messages messages system_prompt attachments)
                       (if json_mode then Some (lit "json_object") else None))
                  = inr response
                  /\ escapes response)))
       \/ (provider = lit "gemini"
           /\ (_build_gemini_contents b64decode messages attachments = Raise e
               \/ exists contents,
                    _build_gemini_contents b64decode messages attachments = Ok contents
                    /\ ((exists fault,
                           gemini_generate_content
                             (GeminiCall m contents
                                (_build_gemini_config system_prompt m json_mode use_search))
                           = inl fault
                           /\ e = ProviderError fault)
                        \/ (exists response,
                              gemini_generate_content
                                (GeminiCall m contents
                                   (_build_gemini_config system_prompt m json_mode
                                      use_search))
                              = inr response
                              /\ escapes response))))
       \/ (provider <> lit "openai" /\ provider <> lit "gemini" /\ e = unroutable m))
  /\ (forall response, escapes response ->
        (exists s, json_loads s = Raise e)
        /\ forall msg, e <> ValueError msg /\ e <> JSONDecodeError /\ e <> BinasciiError).
Proof.
  cbv zeta. split.
  2:{ intros response (_ & He & Hc). split.
      - apply extract_json_raises in He as [->|[[body ->]|[s [Hs _]]]]; [done|done|].
        by exists s.
      - intros msg. by destruct e. }
  unfold LLMRouter.chat. cbv zeta.
  set (m := LLMRouter.effective_model model).
  assert (Hrec : forall content,
            (if json_mode
             then try_except_ValueError (_extract_json json_loads content)
                    (Ok (_fallback_response content))
             else Ok (JObj [(lit "response", JStr content)])) = Raise e
            <-> json_mode = true /\ _extract_json json_loads content = Raise e
                /\ caught_by_ValueError e = false).
  { intros content. split.
    - intros (Hj & He & Hc & _)%recovered_raises. done.
    - intros (-> & He & Hc). rewrite recovery_cases, He. by rewrite Hc. }
  destruct (str_eqb (LLMRouter._resolve_provider self m) (lit "openai")) eqn:Ho.
  { apply str_eqb_eq in Ho. rewrite Ho. unfold LLMRouter._openai_chat.
    destruct (openai_create _) as [fault|response] eqn:Hc; cbn [LLMRouter.await bind].
    - split.
      + intros [= <-]. left. split; [done|]. left. by exists fault.
      + intros [(_ & [(fault' & [= <-] & ->)|(response & H & _)])|[[H _]|(H & _)]]; done.
    - rewrite Hrec. split.
      + intros H. left. split; [done|]. right. by exists response.
      + intros [(_ & [(fault' & H & _)|(response' & [= <-] & H)])|[[H _]|(H & _)]]; done. }
  destruct (str_eqb (LLMRouter._resolve_provider self m) (lit "gemini")) eqn:Hg.
  { apply str_eqb_eq in Hg. rewrite Hg. unfold LLMRouter._gemini_chat.
    destruct (_build_gemini_contents b64decode messages attachments) as [contents|e']
      eqn:Hb; cbn [bind].
    - destruct (gemini_generate_content _) as [fault|response] eqn:Hc;
        cbn [LLMRouter.await bind].
      + split.
        * intros [= <-]. right. left. split; [done|]. right. exists contents.
          split; [done|]. left. by exists fault.
        * intros [[H _]|[[_ [H|(c & [= <-] & [(f & Hf & ->)|(r & Hf & _)])]]|(_ & H & _)]];
            try done; rewrite Hc in Hf; [by injection Hf as <- | done].
      + rewrite Hrec. split.
        * intros H. right. left. split; [done|]. right. exists contents.
          split; [done|]. right. by exists response.
        * intros [[H _]|[[_ [H|(c & [= <-] & [(f & Hf & _)|(r & Hf & H)])]]|(_ & H & _)]];
            try done; rewrite Hc in Hf; [done | by injection Hf as <-].
    - split.
      + intros [= <-]. right. left. split; [done|]. by left.
      + intros [[H _]|[[_ [[= <-]|(c & H & _)]]|(_ & H & _)]]; done. }
  apply str_eqb_neq in Ho, Hg. split.
  - intros [= <-]. right. right. done.
  - intros [[H _]|[[H _]|(_ & _ & ->)]]; done.
Qed.

End ChatErrors.

(** ** Streaming *)

Lemma yield_if_truthy_spec (text : option str) :
  Forall (fun chunk => chunk <> []) (yield_if_truthy text)
  /\ concat (yield_if_truthy text) = default [] text.
Proof.
  destruct text as [[|c t]|]; cbn; repeat split; try done.
  - by repeat constructor.
  - by rewrite app_nil_r.
Qed.

Lemma yielded_chunks {A : Type} (f : A -> list str) (g : A -> str) (items : list A) :
  (forall x, Forall (fun chunk => chunk <> []) (f x) /\ concat (f x) = g x) ->
  Forall (fun chunk => chunk <> []) (flat_map f items)
  /\ concat (flat_map f items) = concat (map g items).
Proof.
  intros H. induction items as [|x items [IH1 IH2]]; [by split|].
  cbn [flat_map map concat]. destruct (H x) as [H1 H2]. split.
  - by apply Forall_app.
  - by rewrite concat_app, H2, IH2.
Qed.

Lemma openai_chunk_text_spec (chunk : openai_chunk) :
  Forall (fun c => c <> []) (Streaming.openai_chunk_text chunk)
  /\ concat (Streaming.openai_chunk_text chunk) = openai_delta_text chunk.
Proof.
  unfold Streaming.openai_chunk_text, openai_delta_text.
  destruct (chunk_choices chunk) as [|choice ?]; [by split|].
  destruct (choice_delta choice) as [d|]; [|by split].
  apply yield_if_truthy_spec.
Qed.

Section StreamingTheory.

Variable json_loads : str -> result json.
Variable b64decode : str -> b64_failure + list N.
Variable openai_create : openai_kwargs -> str + option str.
Variable gemini_generate_content : gemini_call -> str + option str.
Variable openai_create_stream : openai_kwargs -> str + stream openai_chunk.
Variable gemini_generate_content_stream : gemini_call -> str + stream gemini_chunk.

(** A stream loses no text and yields no empty chunk. When the provider
    opens a stream, the chunks that [chat_stream] passes on are the non-empty
    texts of the chunks of the provider, in order: joined, they are the text
    of the whole stream; a chunk without choices, without a delta or with an
    empty or missing text adds nothing. A fault that ends the stream of the
    provider comes after the chunks that were read before it. *)
Theorem stream_keeps_the_text (self : LLMRouter.t) (messages : list message)
    (system_prompt : str) (model : str) (attachments : option (list attachment))
    (use_search : bool) :
  (forall response,
     openai_create_stream
       (OpenAIKwargs model (_build_openai_messages messages system_prompt attachments) None)
     = inr response ->
     let run := Streaming._openai_stream openai_create_stream self messages system_prompt
                  model attachments in
     Forall (fun chunk => chunk <> []) (yielded run)
     /\ concat (yielded run) = openai_stream_text response
     /\ raised run = ProviderError <$> stream_fault response)
  /\ (forall contents response,
        _build_gemini_contents b64decode messages attachments = Ok contents ->
        gemini_generate_content_stream
          (GeminiCall model contents (_build_gemini_config system_prompt model false use_search))
        = inr response ->
        let run := Streaming._gemini_stream b64decode gemini_generate_content_stream self
                     messages system_prompt model attachments use_search in
        Forall (fun chunk => chunk <> []) (yielded run)
        /\ concat (yielded run) = gemini_stream_text response
        /\ raised run = ProviderError <$> stream_fault response).
Proof.
  split.
  - intros response Hr. cbv zeta. unfold Streaming._openai_stream. rewrite Hr.
    cbn [yielded raised]. unfold openai_stream_text.
    destruct (yielded_chunks Streaming.openai_chunk_text openai_delta_text
                (stream_items response) openai_chunk_text_spec) as [H1 H2].
    done.
  - intros contents response Hc Hr. cbv zeta. unfold Streaming._gemini_stream.
    rewrite Hc, Hr. cbn [yielded raised]. unfold gemini_stream_text.
    destruct (yielded_chunks (fun chunk => yield_if_truthy (chunk_text chunk))
                (fun chunk => default [] (chunk_text chunk)) (stream_items response)
                (fun chunk => yield_if_truthy_spec (chunk_text chunk))) as [H1 H2].
    done.
Qed.

(** Whatever happens, [chat_stream] yields no empty chunk. *)
Lemma chat_stream_chunks_nonempty (self : LLMRouter.t) (messages : list message)
    (system_prompt : str) (model : option str) (attachments : option (list attachment))
    (use_search : bool) :
  Forall (fun chunk => chunk <> [])
    (yielded (Streaming.chat_stream b64decode openai_create_stream
                gemini_generate_content_stream self messages system_prompt model
                attachments use_search)).
Proof.
  unfold Streaming.chat_stream. cbv zeta.
  destruct (str_eqb _ (lit "openai")).
  - unfold Streaming._openai_stream. destruct (openai_create_stream _); [done|].
    apply (yielded_chunks _ _ _ openai_chunk_text_spec).
  - destruct (str_eqb _ (lit "gemini")); [|done].
    unfold Streaming._gemini_stream.
    destruct (_build_gemini_contents _ _ _); [|done].
    destruct (gemini_generate_content_stream _); [done|].
    apply (yielded_chunks _ (fun chunk => default [] (chunk_text chunk)) _
             (fun chunk => yield_if_truthy_spec (chunk_text chunk))).
Qed.

(** Streaming routes as the single-shot call does: for one router and one
    requested model, [chat_stream] ends with its unroutable-model error
    exactly when [chat] raises its own, whatever the providers would answer;
    it has then yielded nothing, and the error names the model that was
    resolved, the default model for an absent or empty request. *)
Theorem chat_stream_routes_as_chat (self : LLMRouter.t) (messages : list message)
    (system_prompt : str) (json_mode : bool) (model : option str)
    (attachments : option (list attachment)) (use_search : bool) :
  let run := Streaming.chat_stream b64decode openai_create_stream
               gemini_generate_content_stream self messages system_prompt model
               attachments use_search in
  let r := LLMRouter.chat json_loads b64decode openai_create gemini_generate_content
             self messages system_prompt json_mode model attachments use_search in
  ((exists m, raised run = Some (unroutable_stream m)) <-> (exists m, r = Raise (unroutable m)))
  /\ ((exists m, raised run = Some (unroutable_stream m)) ->
      run = Generated [] (Some (unroutable_stream (LLMRouter.effective_model model)))
      /\ r = Raise (unroutable (LLMRouter.effective_model model))).
Proof.
  cbv zeta. unfold Streaming.chat_stream, LLMRouter.chat. cbv zeta.
  set (m0 := LLMRouter.effective_model model).
  destruct (str_eqb (LLMRouter._resolve_provider self m0) (lit "openai")).
  { assert (H1 : ~ exists m, raised (Streaming._openai_stream openai_create_stream self
                    messages system_prompt m0 attachments) = Some (unroutable_stream m)).
    { unfold Streaming._openai_stream. intros [m Hm].
      destruct (openai_create_stream _) as [fault|response]; cbn [raised] in Hm; [done|].
      by destruct (stream_fault response). }
    assert (H2 : ~ exists m, LLMRouter._openai_chat json_loads openai_create self messages
                    system_prompt json_mode m0 attachments = Raise (unroutable m)).
    { intros [m Hm]. by apply openai_chat_not_unroutable in Hm. }
    split; [split|]; intros H; first [by destruct (H1 H) | by destruct (H2 H)]. }
  destruct (str_eqb (LLMRouter._resolve_provider self m0) (lit "gemini")).
  { assert (H1 : ~ exists m, raised (Streaming._gemini_stream b64decode
                    gemini_generate_content_stream self messages system_prompt m0
                    attachments use_search) = Some (unroutable_stream m)).
    { unfold Streaming._gemini_stream. intros [m Hm].
      destruct (_build_gemini_contents b64decode messages attachments) as [contents|e] eqn:Hb.
      - destruct (gemini_generate_content_stream _) as [fault|response];
          cbn [raised] in Hm; [done|].
        by destruct (stream_fault response).
      - cbn [raised] in Hm. apply build_gemini_contents_raises in Hb as (? & f & _ & _ & ->).
        injection Hm as Hm. destruct f; vm_compute in Hm; discriminate Hm. }
    assert (H2 : ~ exists m, LLMRouter._gemini_chat json_loads b64decode
                    gemini_generate_content self messages system_prompt json_mode m0
                    attachments use_search = Raise (unroutable m)).
    { intros [m Hm]. by apply gemini_chat_not_unroutable in Hm. }
    split; [split|]; intros H; first [by destruct (H1 H) | by destruct (H2 H)]. }
  cbn [raised]. split; [split; intros _; by exists m0 | done].
Qed.

End StreamingTheory.

Lemma stream_keeps_the_text_witness :
  let response :=
    Stream [GeminiChunk (Some (lit "Hel")); GeminiChunk None; GeminiChunk (Some []);
            GeminiChunk (Some (lit "lo"))] None in
  let run := Streaming._gemini_stream Base64.b64decode (fun _ => inr response)
               (LLMRouter.Make (lit "gemini")) [Message 0 (lit "user") (lit "hi")]
               (lit "sys") (lit "gemini-2.5-flash") None false in
  Forall (fun chunk => chunk <> []) (yielded run)
  /\ concat (yielded run) = gemini_stream_text response
  /\ raised run = ProviderError <$> stream_fault response.
Proof.
  cbv zeta.
  destruct (stream_keeps_the_text Base64.b64decode
              (fun _ => inl [])
              (fun _ => inr (Stream [GeminiChunk (Some (lit "Hel")); GeminiChunk None;
                                     GeminiChunk (Some []); GeminiChunk (Some (lit "lo"))]
                                    None))
              (LLMRouter.Make (lit "gemini")) [Message 0 (lit "user") (lit "hi")]
              (lit "sys") (lit "gemini-2.5-flash") None false) as [_ H].
  eapply H; reflexivity.
Defined.

(** ** More on cosine similarity *)

(** The product of two float64 numbers does not depend on their order. *)
Lemma SFmul_comm (prec emax : Z) (x y : spec_float) :
  SFmul prec emax x y = SFmul prec emax y x.
Proof.
  destruct x as [sx|sx| |sx mx ex], y as [sy|sy| |sy my ey]; cbn [SFmul];
    rewrite ?(xorb_comm sx sy); try reflexivity.
  by rewrite (Pos.mul_comm mx my), (Z.add_comm ex ey).
Qed.

Lemma float_mul_comm (x y : float) : PrimFloat.mul x y = PrimFloat.mul y x.
Proof.
  apply Prim2SF_inj. rewrite !mul_spec. apply SFmul_comm.
Qed.

Lemma dot_seq_comm (a b : list float) : dot_seq a b = dot_seq b a.
Proof.
  unfold dot_seq. generalize 0%float as acc. revert b.
  induction a as [|x a IH]; intros [|y b] acc; cbn [combine fold_left]; try done.
  cbn [fst snd]. rewrite (float_mul_comm x y). apply IH.
Qed.

Section SimilarityMore.

Variable np_dot : list float -> list float -> float.
Variable np_norm : list float -> float.

(** [cosine_similarity] raises exactly when the two vectors are of different
    dimensions and neither norm is zero: the product of the vectors is only
    taken after the test of the norms, and it is [np.dot] that raises, a
    [ValueError] whose message names the two shapes. *)
Theorem cosine_similarity_raises_iff (a b : list float) (e : exn) :
  cosine_similarity np_dot np_norm a b = Raise e
  <-> e = ValueError (lit "shapes (" ++ str_of_nat (length a) ++ lit ",) and ("
                      ++ str_of_nat (length b) ++ lit ",) not aligned: "
                      ++ str_of_nat (length a) ++ lit " (dim 0) != "
                      ++ str_of_nat (length b) ++ lit " (dim 0)")
      /\ PrimFloat.eqb (np_norm a) 0%float = false
      /\ PrimFloat.eqb (np_norm b) 0%float = false
      /\ length a <> length b.
Proof.
  unfold cosine_similarity, dot_1d.
  destruct (PrimFloat.eqb (np_norm a) 0%float), (PrimFloat.eqb (np_norm b) 0%float);
    cbn [orb]; try (split; [done | by intros (_ & ? & ? & _)]).
  destruct (Nat.eqb_spec (length a) (length b)) as [Hl|Hl]; cbn [bind].
  - split; [done | by intros (_ & _ & _ & ?)].
  - split; [by intros [= <-] | by intros (-> & _)].
Qed.

(** The similarity of two vectors of one dimension does not depend on their
    order, as long as the product of the vectors does not: the guard on the
    norms and the product of the norms are symmetric. *)
Theorem cosine_similarity_symmetric (a b : list float) :
  (forall x y, np_dot x y = np_dot y x) ->
  length a = length b ->
  cosine_similarity np_dot np_norm a b = cosine_similarity np_dot np_norm b a.
Proof.
  intros Hdot Hlen. unfold cosine_similarity, dot_1d.
  rewrite (orb_comm (PrimFloat.eqb (np_norm b) 0%float)), Hlen, Nat.eqb_refl.
  cbn [bind]. by rewrite (Hdot b a), (float_mul_comm (np_norm b)).
Qed.

(** *** What the ranking returns, in every case *)

Lemma rank_output_ranked (q : list float) (candidates : loc) (h : heap)
    (cs : list loc) (ds : list (gmap str value)) :
  h !! candidates = Some (OList cs) -> holds_dicts h cs ds ->
  rank_output np_dot np_norm q candidates h = ranked np_dot np_norm q ds.
Proof.
  intros Hcand Hd.
  destruct (rank_by_similarity_spec np_dot np_norm q candidates h cs ds Hcand Hd)
    as (r & h' & Hrun & _ & Hout).
  unfold rank_output. rewrite Hrun.
  destruct (ranked np_dot np_norm q ds) as [out|e].
  - by destruct Hout as (results & items & -> & _ & _ & _ & ->).
  - by rewrite Hout.
Qed.

Lemma score_value_ok (q : list float) (d : gmap str value) (s : float) :
  cosine_of_value np_dot np_norm q (embedding_of d) = Ok s ->
  score_value np_dot np_norm q d = s.
Proof. intros H. unfold score_value. by rewrite H. Qed.

Lemma score_all_ok (q : list float) (ds : list (gmap str value))
    (scored : list (float * gmap str value)) :
  score_all np_dot np_norm q ds = Ok scored ->
  scored = map (fun d => (score_value np_dot np_norm q d,
                          with_score (score_value np_dot np_norm q d) d))
               (List.filter usable ds)
  /\ Forall (fun d => usable d = true ->
                      cosine_of_value np_dot np_norm q (embedding_of d)
                      = Ok (score_value np_dot np_norm q d)) ds.
Proof.
  revert scored. induction ds as [|d ds IH]; intros scored; cbn [score_all List.filter].
  - intros [= <-]. by split.
  - destruct (usable d) eqn:Hus; cbn [negb].
    + destruct (cosine_of_value np_dot np_norm q (embedding_of d)) as [s|e] eqn:Hs;
        cbn [bind]; [|done].
      destruct (score_all np_dot np_norm q ds) as [rest|e]; cbn [bind]; [|done].
      intros [= <-]. destruct (IH rest eq_refl) as [-> Hall]. cbn [map].
      rewrite (score_value_ok q d s Hs). split; [done|].
      constructor; [|done]. intros _. by rewrite (score_value_ok q d s Hs).
    + intros H. destruct (IH scored H) as [-> Hall]. split; [done|].
      constructor; [|done]. intros Hu. congruence.
Qed.

Lemma score_all_raise (q : list float) (ds : list (gmap str value)) (e : exn) :
  score_all np_dot np_norm q ds = Raise e
  <-> exists pre d post,
        ds = pre ++ d :: post
        /\ usable d = true
        /\ cosine_of_value np_dot np_norm q (embedding_of d) = Raise e
        /\ Forall (fun d' => usable d' = true ->
                             exists s, cosine_of_value np_dot np_norm q (embedding_of d')
                                       = Ok s) pre.
Proof.
  split.
  - induction ds as [|d ds IH]; cbn [score_all]; [done|].
    destruct (usable d) eqn:Hus; cbn [negb].
    + destruct (cosine_of_value np_dot np_norm q (embedding_of d)) as [s|e'] eqn:Hs;
        cbn [bind].
      * destruct (score_all np_dot np_norm q ds) as [rest|e'']; cbn [bind]; [done|].
        intros [= ->]. destruct (IH eq_refl) as (pre & d' & post & -> & H1 & H2 & H3).
        exists (d :: pre), d', post. repeat split; try done.
        constructor; [|done]. intros _. by exists s.
      * intros [= ->]. exists [], d, ds. by repeat split.
    + intros (pre & d' & post & -> & H1 & H2 & H3)%IH.
      exists (d :: pre), d', post. repeat split; try done.
      constructor; [|done]. intros Hu. congruence.
  - intros (pre & d & post & -> & Hus & Hd & Hpre).
    induction Hpre as [|d' pre Hd' Hpre IH]; cbn [app score_all].
    + by rewrite Hus, Hd.
    + destruct (usable d'); cbn [negb]; [|exact IH].
      destruct (Hd' eq_refl) as [s ->]. cbn [bind]. by rewrite IH.
Qed.

Lemma ranked_ok (q : list float) (ds out : list (gmap str value)) :
  ranked np_dot np_norm q ds = Ok out ->
  Permutation out (map (fun d => with_score (score_value np_dot np_norm q d) d)
                       (List.filter usable ds))
  /\ Forall (fun d => usable d = true ->
                      cosine_of_value np_dot np_norm q (embedding_of d)
                      = Ok (score_value np_dot np_norm q d)) ds.
Proof.
  unfold ranked.
  destruct (score_all np_dot np_norm q ds) as [scored|e] eqn:Hs; cbn [bind]; [|done].
  intros [= <-]. destruct (score_all_ok q ds scored Hs) as [Hscored Hall].
  split; [|done].
  etrans; [apply Permutation_map, sort_reverse_perm|].
  rewrite Hscored, List.map_map. done.
Qed.

Lemma ranked_item (q : list float) (ds out : list (gmap str value)) (o : gmap str value) :
  ranked np_dot np_norm q ds = Ok out -> In o out ->
  exists d, In d ds /\ usable d = true
            /\ o = with_score (score_value np_dot np_norm q d) d.
Proof.
  intros [Hperm _]%ranked_ok Hin.
  apply (Permutation_in _ Hperm), in_map_iff in Hin as (d & <- & [Hd Hu]%filter_In).
  by exists d.
Qed.

(** Whenever [rank_by_similarity] returns, with scores that are numbers or
    not, the list it returns holds the usable candidates and nothing else,
    each once for each time it is listed: every item is a candidate with its
    score field set to its cosine similarity, which replaces a score the
    candidate came with, and with every other field as the candidate has
    it. *)
Theorem rank_by_similarity_returns_scored_usable (q : list float) (candidates : loc)
    (h : heap) (cs : list loc) (ds out : list (gmap str value)) :
  h !! candidates = Some (OList cs) ->
  holds_dicts h cs ds ->
  rank_output np_dot np_norm q candidates h = Ok out ->
  Permutation out (map (fun d => with_score (score_value np_dot np_norm q d) d)
                       (List.filter usable ds))
  /\ length out = length (List.filter usable ds)
  /\ forall o, In o out ->
       exists d, In d ds /\ usable d = true
         /\ cosine_of_value np_dot np_norm q (embedding_of d)
            = Ok (score_value np_dot np_norm q d)
         /\ o !! key_score = Some (VFloat (score_value np_dot np_norm q d))
         /\ forall k, k <> key_score -> o !! k = d !! k.
Proof.
  intros Hcand Hd. rewrite (rank_output_ranked q candidates h cs ds Hcand Hd).
  intros Hr. destruct (ranked_ok q ds out Hr) as [Hperm Hall].
  split; [done|]. split.
  { by rewrite (Permutation_length Hperm), length_map. }
  intros o (d & Hin & Hus & ->)%(ranked_item q ds out); [|done].
  exists d. split; [done|]. split; [done|]. split.
  { rewrite List.Forall_forall in Hall. by apply Hall. }
  unfold with_score. split; [by rewrite lookup_insert_eq|].
  intros k Hk. by rewrite lookup_insert_ne.
Qed.

(** [rank_by_similarity] fails exactly when some usable candidate cannot be
    scored, and then with the error of the first such candidate: the ones
    before it were scored, the ones after it are not looked at. *)
Theorem rank_by_similarity_fails_on_first_unscorable (q : list float) (candidates : loc)
    (h : heap) (cs : list loc) (ds : list (gmap str value)) (e : exn) :
  h !! candidates = Some (OList cs) ->
  holds_dicts h cs ds ->
  rank_output np_dot np_norm q candidates h = Raise e
  <-> exists pre d post,
        ds = pre ++ d :: post
        /\ usable d = true
        /\ cosine_of_value np_dot np_norm q (embedding_of d) = Raise e
        /\ Forall (fun d' => usable d' = true ->
                             exists s, cosine_of_value np_dot np_norm q (embedding_of d')
                                       = Ok s) pre.
Proof.
  intros Hcand Hd. rewrite (rank_output_ranked q candidates h cs ds Hcand Hd).
  rewrite <- score_all_raise. unfold ranked.
  destruct (score_all np_dot np_norm q ds) as [scored|e']; cbn [bind]; [done|].
  split; by intros [= ->].
Qed.

End SimilarityMore.

Lemma cosine_similarity_symmetric_witness :
  cosine_similarity dot_seq norm_seq [1%float; 2%float] [3%float; 4%float]
  = cosine_similarity dot_seq norm_seq [3%float; 4%float] [1%float; 2%float].
Proof.
  apply (cosine_similarity_symmetric dot_seq norm_seq [1%float; 2%float] [3%float; 4%float]).
  - exact dot_seq_comm.
  - reflexivity.
Defined.

Lemma rank_by_similarity_returns_scored_usable_witness :
  let q := [1%float; 0%float] in
  let out := [with_score 1%float (candidate "c" (VVec [1%float; 0%float]));
              with_score 0%float (candidate "a" (VVec [0%float; 1%float]));
              with_score 0%float (candidate "d" (VVec [0%float; 1%float]))] in
  Permutation out (map (fun d => with_score (score_value dot_seq norm_seq q d) d)
                       (List.filter usable example_dicts))
  /\ length out = length (List.filter usable example_dicts)
  /\ forall o, In o out ->
       exists d, In d example_dicts /\ usable d = true
         /\ cosine_of_value dot_seq norm_seq q (embedding_of d)
            = Ok (score_value dot_seq norm_seq q d)
         /\ o !! key_score = Some (VFloat (score_value dot_seq norm_seq q d))
         /\ forall k, k <> key_score -> o !! k = d !! k.
Proof.
  apply (rank_by_similarity_returns_scored_usable dot_seq norm_seq [1%float; 0%float] 0
           example_heap [1; 2; 3; 4] example_dicts).
  - reflexivity.
  - exact example_heap_holds.
  - vm_compute. reflexivity.
Defined.

Lemma rank_by_similarity_fails_on_first_unscorable_witness :
  rank_output dot_seq norm_seq [1%float; 0%float] 0 mismatch_heap
  = Raise (ValueError (lit "shapes (2,) and (1,) not aligned: 2 (dim 0) != 1 (dim 0)")).
Proof.
  apply (rank_by_similarity_fails_on_first_unscorable dot_seq norm_seq [1%float; 0%float] 0
           mismatch_heap [1] [candidate "a" (VVec [1%float])]).
  - reflexivity.
  - by repeat constructor.
  - exists [], (candidate "a" (VVec [1%float])), [].
    split; [reflexivity|]. split; [reflexivity|]. split; [vm_compute; reflexivity|].
    constructor.
Defined.

(** ** The embedding service *)

Section EmbeddingServiceTheory.

Variable openai_embeddings_create : str -> str -> str + list float.
Variable gemini_embed_content : str -> str -> str + list float.

(** The provider of an embedding service is the argument it is built with
    when that is not empty; else the environment variable
    EMBEDDING_PROVIDER when it is set, whatever it holds; else openai.
    [embed_text] goes by the provider alone: openai calls OpenAI with its
    small embedding model, gemini calls Gemini with its embedding model, and
    the vector or the fault of that call is the outcome; any other provider
    raises, without any call, the unknown-provider error, which names it.
    [embed_text] raises nothing else. So a service built with neither
    argument nor variable calls OpenAI, and one built with the variable set
    to the empty text fails on every text. *)
Theorem embedding_service_provider (arg env : option str) (self : EmbeddingService.t)
    (text : str) :
  let built := EmbeddingService.__init__ arg env in
  let embed_text :=
    EmbeddingService.embed_text openai_embeddings_create gemini_embed_content in
  (forall c p, arg = Some (c :: p) -> EmbeddingService.provider built = c :: p)
  /\ (forall p, arg = None \/ arg = Some [] -> env = Some p ->
        EmbeddingService.provider built = p)
  /\ (arg = None \/ arg = Some [] -> env = None ->
      EmbeddingService.provider built = lit "openai")
  /\ (EmbeddingService.provider self = lit "openai" ->
      embed_text self text
      = LLMRouter.await (openai_embeddings_create (lit "text-embedding-3-small") text))
  /\ (EmbeddingService.provider self = lit "gemini" ->
      embed_text self text
      = LLMRouter.await (gemini_embed_content (lit "text-embedding-004") text))
  /\ (EmbeddingService.provider self <> lit "openai" ->
      EmbeddingService.provider self <> lit "gemini" ->
      embed_text self text
      = Raise (ValueError (lit "Unknown embedding provider: "
                           ++ EmbeddingService.provider self)))
  /\ (forall e,
        embed_text self text = Raise e ->
        (exists fault, e = ProviderError fault)
        \/ (e = ValueError (lit "Unknown embedding provider: " ++ EmbeddingService.provider self)
            /\ EmbeddingService.provider self <> lit "openai"
            /\ EmbeddingService.provider self <> lit "gemini"))
  /\ embed_text (EmbeddingService.__init__ None None) text
     = LLMRouter.await (openai_embeddings_create (lit "text-embedding-3-small") text)
  /\ embed_text (EmbeddingService.__init__ None (Some [])) text
     = Raise (ValueError (lit "Unknown embedding provider: ")).
Proof.
  cbv zeta.
  split; [by intros c p ->|].
  split; [by intros p [->| ->] ->|].
  split; [by intros [->| ->] ->|].
  unfold EmbeddingService.embed_text.
  split; [by intros ->|].
  split; [by intros ->|].
  split.
  { intros Ho%str_eqb_neq Hg%str_eqb_neq. by rewrite Ho, Hg. }
  split; [|done].
  intros e.
  destruct (str_eqb (EmbeddingService.provider self) (lit "openai")) eqn:Ho.
  { unfold EmbeddingService._openai_embed.
    destruct (openai_embeddings_create _ _) as [fault|v]; [|done].
    intros [= <-]. left. by exists fault. }
  destruct (str_eqb (EmbeddingService.provider self) (lit "gemini")) eqn:Hg.
  { unfold EmbeddingService._gemini_embed.
    destruct (gemini_embed_content _ _) as [fault|v]; [|done].
    intros [= <-]. left. by exists fault. }
  intros [= <-]. right. by rewrite <- !str_eqb_neq.
Qed.

End EmbeddingServiceTheory.

(** ** The routes that rank *)

Lemma request_store_items (ds : list (gmap str value)) (i : nat) :
  Forall2 (fun l d => i <= l
                      /\ (list_to_map (zip (seq i (length ds)) (ODict <$> ds)) : heap) !! l
                         = Some (ODict d))
          (seq i (length ds)) ds.
Proof.
  revert i. induction ds as [|d ds IH]; intros i; [constructor|].
  cbn [length seq fmap list_fmap zip zip_with list_to_map foldr].
  constructor.
  - split; [lia|]. apply lookup_insert_eq.
  - eapply Forall2_impl; [apply (IH (S i))|]. intros l d' [Hl Hd]. split; [lia|].
    cbn [fst snd]. rewrite lookup_insert_ne by lia. exact Hd.
Qed.

Lemma request_store_holds (ds : list (gmap str value)) :
  request_store ds !! 0 = Some (OList (seq 1 (length ds)))
  /\ holds_dicts (request_store ds) (seq 1 (length ds)) ds.
Proof.
  unfold request_store. split; [apply lookup_insert_eq|].
  eapply Forall2_impl; [apply (request_store_items ds 1)|]. intros l d [Hl Hd].
  rewrite lookup_insert_ne by lia. exact Hd.
Qed.

Lemma for_each_first_error {A B : Type} (f : A -> result B) (xs : list A) (e : exn) :
  (forall x, In x xs -> (exists y, f x = Ok y) \/ f x = Raise e) ->
  (exists x, In x xs /\ f x = Raise e) ->
  for_each f xs = Raise e.
Proof.
  induction xs as [|x xs IH]; intros Hall [x' [Hin Hx']]; [done|].
  cbn [for_each]. destruct (Hall x (or_introl eq_refl)) as [[y Hy]|Hx].
  - rewrite Hy. cbn [bind]. rewrite IH; [done| |].
    + intros z Hz. apply Hall. by right.
    + destruct Hin as [<-|Hin]; [congruence|]. by exists x'.
  - by rewrite Hx.
Qed.

Lemma rank_entry_with_score (s : float) (d : gmap str value) :
  rank_entry (with_score s d)
  = match d !! key_id with
    | Some i => Ok (<[key_id := i]> (<[key_score := VFloat s]> ∅))
    | None => Raise (KeyError key_id)
    end.
Proof.
  unfold rank_entry, with_score.
  rewrite lookup_insert_ne by (intros H; vm_compute in H; discriminate H).
  by rewrite lookup_insert_eq.
Qed.

Section RoutesTheory.

Variable np_dot : list float -> list float -> float.
Variable np_norm : list float -> float.
Variable openai_embeddings_create : str -> str -> str + list float.
Variable gemini_embed_content : str -> str -> str + list float.
Variable embedder : EmbeddingService.t.

(** Ranking the list of a request is the ranking of its mappings. *)
Lemma rank_request (q : list float) (ds : list (gmap str value)) :
  rank_output np_dot np_norm q 0 (request_store ds) = ranked np_dot np_norm q ds.
Proof.
  destruct (request_store_holds ds) as [H0 Hd].
  by apply rank_output_ranked with (cs := seq 1 (length ds)).
Qed.

Lemma score_all_dimension_ok (q : list float) (ds : list (gmap str value)) :
  Forall (dimension_ok q) ds -> exists scored, score_all np_dot np_norm q ds = Ok scored.
Proof.
  induction 1 as [|d ds Hd Hds [rest IH]]; [by exists []|].
  cbn [score_all]. destruct (usable d) eqn:Hus; cbn [negb]; [|by exists rest].
  destruct (Hd Hus) as (v & Hv & Hlen). rewrite Hv. cbn [cosine_of_value].
  destruct (cosine_similarity_same_length np_dot np_norm q v Hlen) as [s ->].
  cbn [bind]. rewrite IH. cbn [bind]. by eexists.
Qed.

Lemma ranked_dimension_ok (q : list float) (ds : list (gmap str value)) :
  Forall (dimension_ok q) ds -> exists out, ranked np_dot np_norm q ds = Ok out.
Proof.
  intros [scored Hs]%score_all_dimension_ok. unfold ranked. rewrite Hs. by eexists.
Qed.

(** The route [/api/rank] needs an id on every candidate it scores, and on
    no other. When the embedding of every usable candidate has the dimension
    of the query: with an id on each of them the route answers with one entry
    per usable candidate, made of that id and the score and of nothing else
    of the candidate; with a usable candidate that has no id it raises
    [KeyError] for the key id. A candidate without a usable embedding may
    come without id. *)
Theorem rank_candidates_needs_ids (q : list float) (candidates : list (gmap str value)) :
  Forall (dimension_ok q) candidates ->
  if forallb (has_key key_id) (List.filter usable candidates)
  then exists entries,
         rank_candidates np_dot np_norm q candidates = Ok entries
         /\ length entries = length (List.filter usable candidates)
         /\ Forall (fun entry =>
                      exists d i, In d candidates /\ usable d = true
                        /\ d !! key_id = Some i
                        /\ entry = <[key_id := i]>
                                     (<[key_score := VFloat (score_value np_dot np_norm q d)]> ∅))
                   entries
  else rank_candidates np_dot np_norm q candidates = Raise (KeyError key_id).
Proof.
  intros Hdim. unfold rank_candidates. rewrite rank_request.
  destruct (ranked_dimension_ok q candidates Hdim) as [out Hout]. rewrite Hout. cbn [bind].
  destruct (ranked_ok np_dot np_norm q candidates out Hout) as [Hperm _].
  pose proof (ranked_item np_dot np_norm q candidates out) as Hitem.
  destruct (forallb (has_key key_id) (List.filter usable candidates)) eqn:Hids.
  - rewrite forallb_forall in Hids.
    set (entry := fun o : gmap str value =>
                    <[key_id := default VNone (o !! key_id)]>
                      (<[key_score := VFloat (score_of o)]> (∅ : gmap str value))).
    assert (Hentry : forall o, In o out ->
              exists d i, In d candidates /\ usable d = true /\ d !! key_id = Some i
                /\ o = with_score (score_value np_dot np_norm q d) d
                /\ rank_entry o
                   = Ok (<[key_id := i]>
                           (<[key_score := VFloat (score_value np_dot np_norm q d)]> ∅))).
    { intros o Ho. destruct (Hitem o Hout Ho) as (d & Hd & Hus & ->).
      specialize (Hids d (proj2 (filter_In _ _ _) (conj Hd Hus))).
      unfold has_key in Hids. destruct (d !! key_id) as [i|] eqn:Hi; [|done].
      exists d, i. repeat split; try done. by rewrite rank_entry_with_score, Hi. }
    exists (map entry out). split; [|split].
    + apply for_each_total. intros o Ho.
      destruct (Hentry o Ho) as (d & i & _ & _ & Hi & -> & ->).
      unfold entry, with_score, score_of.
      rewrite lookup_insert_ne by (intros H; vm_compute in H; discriminate H).
      by rewrite Hi, lookup_insert_eq.
    + by rewrite length_map, (Permutation_length Hperm), length_map.
    + apply List.Forall_map, List.Forall_forall. intros o Ho.
      destruct (Hentry o Ho) as (d & i & Hd & Hus & Hi & -> & _).
      exists d, i. repeat split; try done.
      unfold entry, with_score, score_of.
      rewrite lookup_insert_ne by (intros H; vm_compute in H; discriminate H).
      by rewrite Hi, lookup_insert_eq.
  - apply for_each_first_error.
    + intros o Ho. destruct (Hitem o Hout Ho) as (d & Hd & Hus & ->).
      rewrite rank_entry_with_score. destruct (d !! key_id); [left; by eexists|by right].
    + assert (Hex : exists d, In d (List.filter usable candidates) /\ has_key key_id d = false).
      { clear -Hids. induction (List.filter usable candidates) as [|d l IH]; [done|].
        cbn [forallb] in Hids. destruct (has_key key_id d) eqn:Hd.
        - destruct (IH Hids) as (d' & Hin & Hd'). exists d'. split; [by right|done].
        - exists d. split; [by left|done]. }
      destruct Hex as (d & Hd & Hno).
      exists (with_score (score_value np_dot np_norm q d) d). split.
      * apply (Permutation_in _ (Permutation_sym Hperm)).
        by apply (in_map (fun d => with_score (score_value np_dot np_norm q d) d)).
      * rewrite rank_entry_with_score. unfold has_key in Hno. by destruct (d !! key_id).
Qed.

(** The summaries that [sidebar_refresh] hands on are summaries of the
    request: each ranked item is one of them, with a score field set or
    replaced when it was ranked and nothing else changed. What is combined
    for the prompt carries no embedding, holds at most five summaries and
    three concept cards, and only the first five of these reach the prompt:
    with five summaries, no concept card does. None of this can raise. *)
Theorem sidebar_forwards_summaries_without_embeddings (messages : list MessageItem)
    (allChatSummaries allConcepts : list (gmap str value)) :
  let ranked_items :=
    sidebar_ranked_items np_dot np_norm openai_embeddings_create gemini_embed_content
      embedder messages allChatSummaries in
  let combined :=
    sidebar_combined_ranked np_dot np_norm openai_embeddings_create gemini_embed_content
      embedder messages allChatSummaries allConcepts in
  let prompt_items :=
    sidebar_prompt_items np_dot np_norm openai_embeddings_create gemini_embed_content
      embedder messages allChatSummaries allConcepts in
  Forall (fun item => exists d, In d allChatSummaries
                                /\ forall k, k <> key_score -> item !! k = d !! k)
         ranked_items
  /\ Forall (fun item => item !! key_embedding = None) combined
  /\ length combined <= 8
  /\ length prompt_items <= 5
  /\ (5 <= length ranked_items -> prompt_items = map strip_embedding (take 5 ranked_items)).
Proof.
  cbv zeta. unfold sidebar_prompt_items, sidebar_combined_ranked.
  set (items := sidebar_ranked_items _ _ _ _ _ messages allChatSummaries).
  split; [|split; [|split; [|split]]].
  - assert (Hfb : Forall (fun item => exists d, In d allChatSummaries
                            /\ forall k, k <> key_score -> item !! k = d !! k)
                         (take 5 allChatSummaries)).
    { apply List.Forall_forall. intros d Hd. exists d. split; [|done].
      apply list_elem_of_In. apply list_elem_of_In in Hd.
      by apply (subseteq_take 5 allChatSummaries). }
    unfold items, sidebar_ranked_items. cbv zeta.
    destruct (_ && _); [|done].
    destruct (EmbeddingService.embed_text _ _ _ _) as [q|e]; cbn [bind]; [|done].
    rewrite rank_request.
    destruct (ranked np_dot np_norm q (List.filter usable allChatSummaries)) as [out|e]
      eqn:Hout; cbn [bind]; [|done].
    apply List.Forall_forall. intros o Ho.
    assert (Ho' : In o out).
    { apply list_elem_of_In. apply list_elem_of_In in Ho.
      by apply (subseteq_take 8 out). }
    destruct (ranked_item np_dot np_norm q _ out o Hout Ho') as (d & [Hd _]%filter_In & _ & ->).
    exists d. split; [done|]. intros k Hk. unfold with_score. by rewrite lookup_insert_ne.
  - apply Forall_app. split.
    + apply List.Forall_map, List.Forall_forall. intros item _.
      unfold strip_embedding. apply lookup_delete_eq.
    + apply List.Forall_map, List.Forall_forall. intros concept _.
      unfold concept_card.
      rewrite !lookup_insert_ne by (intros H; vm_compute in H; discriminate H).
      apply lookup_empty.
  - rewrite length_app, !length_map, !length_take. lia.
  - rewrite length_take. lia.
  - intros Hlen. apply take_app_length'.
    rewrite length_map, length_take. lia.
Qed.

(** The ranking of [sidebar_refresh] never fails the request: it falls back
    to the first five summaries, as they are, when no summary has a usable
    embedding, when the recent text is blank, when the embedding service has
    an unknown provider or its call fails, and when a summary cannot be
    scored against the embedding of the query. *)
Theorem sidebar_falls_back_to_first_summaries (messages : list MessageItem)
    (allChatSummaries : list (gmap str value)) :
  let query_text := sidebar_query_text messages in
  let embedded :=
    EmbeddingService.embed_text openai_embeddings_create gemini_embed_content embedder
      query_text in
  List.filter usable allChatSummaries = []
  \/ blank query_text = true
  \/ (EmbeddingService.provider embedder <> lit "openai"
      /\ EmbeddingService.provider embedder <> lit "gemini")
  \/ (exists e, embedded = Raise e)
  \/ (exists q e,
        embedded = Ok q
        /\ rank_output np_dot np_norm q 0 (request_store (List.filter usable allChatSummaries))
           = Raise e) ->
  sidebar_ranked_items np_dot np_norm openai_embeddings_create gemini_embed_content
    embedder messages allChatSummaries
  = take 5 allChatSummaries.
Proof.
  cbv zeta. unfold sidebar_ranked_items. cbv zeta.
  intros [H|[H|[[Ho Hg]|[[e H]|(q & e & H1 & H2)]]]].
  - by rewrite H.
  - rewrite (strip_blank _ H). by rewrite andb_false_r.
  - destruct (_ && _); [|done].
    unfold EmbeddingService.embed_text.
    apply str_eqb_neq in Ho, Hg. by rewrite Ho, Hg.
  - destruct (_ && _); [|done]. by rewrite H.
  - destruct (_ && _); [|done]. rewrite H1. cbn [bind]. by rewrite H2.
Qed.

(** When the embedding service answers and every usable summary has an
    embedding of the dimension of the query, [sidebar_refresh] ranks: the
    ranked items are the first eight of the ranking of the usable summaries,
    each with its score. *)
Theorem sidebar_ranks_usable_summaries (messages : list MessageItem)
    (allChatSummaries : list (gmap str value)) (q : list float) :
  List.filter usable allChatSummaries <> [] ->
  blank (sidebar_query_text messages) = false ->
  EmbeddingService.embed_text openai_embeddings_create gemini_embed_content embedder
    (sidebar_query_text messages) = Ok q ->
  Forall (dimension_ok q) allChatSummaries ->
  exists out,
    rank_output np_dot np_norm q 0 (request_store (List.filter usable allChatSummaries))
    = Ok out
    /\ sidebar_ranked_items np_dot np_norm openai_embeddings_create gemini_embed_content
         embedder messages allChatSummaries = take 8 out
    /\ length out = length (List.filter usable allChatSummaries)
    /\ Forall (fun item => exists s, item !! key_score = Some (VFloat s)) out.
Proof.
  intros Hne Hq Hemb Hdim.
  assert (Hdim' : Forall (dimension_ok q) (List.filter usable allChatSummaries)).
  { rewrite List.Forall_forall in *. intros d [Hd _]%filter_In. by apply Hdim. }
  destruct (ranked_dimension_ok q _ Hdim') as [out Hout].
  exists out. rewrite rank_request. split; [done|].
  destruct (ranked_ok np_dot np_norm q _ out Hout) as [Hperm _].
  split; [|split].
  - unfold sidebar_ranked_items. cbv zeta.
    rewrite Hemb. cbn [bind]. rewrite rank_request, Hout. cbn [bind].
    destruct (List.filter usable allChatSummaries) as [|d l]; [done|].
    destruct (strip (sidebar_query_text messages)) as [|c s] eqn:Hs; [|done].
    apply strip_nil_iff in Hs. congruence.
  - rewrite (Permutation_length Hperm), length_map.
    f_equal. clear. induction allChatSummaries as [|d l IH]; [done|].
    cbn [List.filter]. destruct (usable d) eqn:Hd; cbn [List.filter]; rewrite ?Hd, IH; done.
  - apply List.Forall_forall. intros o Ho.
    destruct (ranked_item np_dot np_norm q _ out o Hout Ho) as (d & _ & _ & ->).
    eexists. unfold with_score. apply lookup_insert_eq.
Qed.

End RoutesTheory.

Lemma rank_candidates_needs_ids_witness :
  rank_candidates dot_seq norm_seq [1%float; 0%float]
    [candidate "a" (VVec [0%float; 1%float]);
     <[key_embedding := VVec [1%float; 0%float]]> ∅]
  = Raise (KeyError key_id).
Proof.
  refine (rank_candidates_needs_ids dot_seq norm_seq [1%float; 0%float]
            [candidate "a" (VVec [0%float; 1%float]);
             <[key_embedding := VVec [1%float; 0%float]]> ∅] _).
  repeat (apply List.Forall_cons; [intros _; eexists; split; reflexivity|]).
  apply List.Forall_nil.
Defined.

Lemma sidebar_falls_back_to_first_summaries_witness :
  sidebar_ranked_items dot_seq norm_seq (fun _ _ => inr [1%float; 0%float])
    (fun _ _ => inr [1%float; 0%float]) (EmbeddingService.Make (lit "cohere"))
    [MkMessageItem (lit "user") (lit "hello")] example_dicts
  = take 5 example_dicts.
Proof.
  apply (sidebar_falls_back_to_first_summaries dot_seq norm_seq
           (fun _ _ => inr [1%float; 0%float]) (fun _ _ => inr [1%float; 0%float])
           (EmbeddingService.Make (lit "cohere"))
           [MkMessageItem (lit "user") (lit "hello")] example_dicts).
  right. right. left. split; vm_compute; discriminate.
Defined.

Lemma sidebar_ranks_usable_summaries_witness :
  exists out,
    rank_output dot_seq norm_seq [1%float; 0%float] 0
      (request_store (List.filter usable example_dicts)) = Ok out
    /\ sidebar_ranked_items dot_seq norm_seq (fun _ _ => inr [1%float; 0%float])
         (fun _ _ => inr [1%float; 0%float]) (EmbeddingService.Make (lit "openai"))
         [MkMessageItem (lit "user") (lit "hello")] example_dicts = take 8 out
    /\ length out = length (List.filter usable example_dicts)
    /\ Forall (fun item => exists s, item !! key_score = Some (VFloat s)) out.
Proof.
  apply (sidebar_ranks_usable_summaries dot_seq norm_seq
           (fun _ _ => inr [1%float; 0%float]) (fun _ _ => inr [1%float; 0%float])
           (EmbeddingService.Make (lit "openai"))
           [MkMessageItem (lit "user") (lit "hello")] example_dicts [1%float; 0%float]).
  - vm_compute. discriminate.
  - reflexivity.
  - reflexivity.
  - unfold example_dicts.
    repeat (apply List.Forall_cons; [intros Hus|]); [..|apply List.Forall_nil];
      try discriminate Hus; eexists; split; reflexivity.
Defined.

(** ** The chat routes *)

Lemma enumerate_from_ids {A : Type} (i : nat) (xs : list A) :
  map fst (enumerate_from i xs) = seq i (length xs).
Proof. revert i. induction xs as [|x xs IH]; intros i; cbn; [done|]. by rewrite IH. Qed.

Lemma request_messages_ids (items : list MessageItem) :
  map msg_id (request_messages items) = seq 0 (length items).
Proof.
  unfold request_messages, enumerate. rewrite List.map_map. cbn [msg_id].
  apply enumerate_from_ids.
Qed.

Lemma request_messages_length (items : list MessageItem) :
  length (request_messages items) = length items.
Proof.
  unfold request_messages, enumerate. by rewrite length_map, enumerate_from_length.
Qed.

(** Through the chat routes the turns of a request are distinct mappings, so
    the test of the OpenAI request on the identity of the last turn is the
    test on its index: only the message of the last turn can carry images,
    and only when that turn is a user turn. *)
Theorem request_attachments_go_to_the_last_turn (items : list MessageItem)
    (system_prompt : str) (attachments : list AttachmentItem) (i : nat)
    (m : openai_message) :
  _build_openai_messages (request_messages items) system_prompt
    (request_attachments attachments) !! S i = Some m ->
  openai_carries_attachment m = true ->
  S i = length items /\ om_role m = lit "user".
Proof.
  intros Hm Hc. rewrite <- (request_messages_length items).
  apply (openai_attachments_only_on_last_turn_of_distinct (request_messages items)
           system_prompt (request_attachments attachments)); [|done..].
  rewrite request_messages_ids. apply NoDup_seq.
Qed.

Lemma request_attachments_go_to_the_last_turn_witness :
  2 = length [MkMessageItem (lit "user") (lit "hi"); MkMessageItem (lit "user") (lit "hi")]
  /\ lit "user" = lit "user".
Proof.
  apply (request_attachments_go_to_the_last_turn
           [MkMessageItem (lit "user") (lit "hi"); MkMessageItem (lit "user") (lit "hi")]
           (lit "sys") [MkAttachmentItem (lit "image/png") (lit "aW1n")] 1
           (OpenAIMessage (lit "user")
              (content_parts [text_part (lit "hi");
                              image_url_part (lit "data:image/png;base64,aW1n")])));
    reflexivity.
Defined.

Lemma chunk_event_not_done (chunk : str) : is_done_event (chunk_event chunk) = false.
Proof. reflexivity. Qed.

Section ChatRoutesTheory.

Variable json_loads : str -> result json.
Variable b64decode : str -> b64_failure + list N.
Variable openai_create : openai_kwargs -> str + option str.
Variable gemini_generate_content : gemini_call -> str + option str.
Variable openai_create_stream : openai_kwargs -> str + stream openai_chunk.
Variable gemini_generate_content_stream : gemini_call -> str + stream gemini_chunk.
Variable llm : LLMRouter.t.
Variable str_of_exn : exn -> str.

(** A stream that was not ended by an exception was routed. *)
Lemma completed_stream_routed (messages : list message) (system_prompt : str)
    (model : option str) (attachments : option (list attachment)) (use_search : bool) :
  raised (Streaming.chat_stream b64decode openai_create_stream
            gemini_generate_content_stream llm messages system_prompt model attachments
            use_search) = None ->
  LLMRouter._resolve_provider llm (LLMRouter.effective_model model) = lit "openai"
  \/ LLMRouter._resolve_provider llm (LLMRouter.effective_model model) = lit "gemini".
Proof.
  unfold Streaming.chat_stream. cbv zeta.
  destruct (str_eqb _ (lit "openai")) eqn:Ho; [left; by apply str_eqb_eq|].
  destruct (str_eqb _ (lit "gemini")) eqn:Hg; [right; by apply str_eqb_eq|].
  done.
Qed.

(** The events of [/api/chat/stream]: first one chunk event for every chunk
    of the stream, in order; then one closing event. A stream that fails is
    closed by an error event with the text of the exception, and no metadata
    is asked for. A stream that completes is closed by a done event that
    carries the chunks joined, whether the metadata call succeeds or raises.
    There is one exception: when the metadata call returns a JSON value that
    is not an object, reading its topic raises, and the response ends after
    the chunk events without any closing event. *)
Theorem stream_endpoint_events (meta_prompt : str) (messages : list MessageItem)
    (model : option str) (attachments : list AttachmentItem) (useSearch : bool) :
  let run :=
    Streaming.chat_stream b64decode openai_create_stream gemini_generate_content_stream
      llm (request_messages messages) CHAT_STREAM_SYSTEM_PROMPT model
      (request_attachments attachments) useSearch in
  let metadata :=
    LLMRouter.chat json_loads b64decode openai_create gemini_generate_content llm
      (request_messages messages
       ++ [Message (length messages) (lit "assistant") (concat (yielded run))])
      meta_prompt true model None false in
  let out :=
    event_generator json_loads b64decode openai_create gemini_generate_content
      openai_create_stream gemini_generate_content_stream llm str_of_exn
      meta_prompt messages model attachments useSearch in
  exists closing,
    emitted out = map chunk_event (yielded run) ++ closing
    /\ ((exists e, raised run = Some e
                   /\ closing = [error_event (str_of_exn e)] /\ ended out = Returned)
        \/ (raised run = None
            /\ (exists topic concepts,
                  closing = [done_event (concat (yielded run)) topic concepts])
            /\ ended out = Returned
            /\ ((exists e, metadata = Raise e) \/ (exists members, metadata = Ok (JObj members))))
        \/ (raised run = None
            /\ closing = [] /\ ended out = RaisedAttributeError
            /\ exists v, metadata = Ok v /\ forall members, v <> JObj members)).
Proof.
  cbv zeta. unfold event_generator. cbv zeta.
  destruct (raised _) as [e|] eqn:Hr.
  { eexists. split; [done|]. left. by exists e. }
  destruct (LLMRouter.chat _ _ _ _ _ _ _ _ _ _ _) as [v|e] eqn:Hm.
  - destruct v as [| | | | | |members];
      try (exists []; split; [by rewrite app_nil_r|]; right; right;
           repeat split; try done; eexists; split; [done|]; by intros members).
    eexists. split; [done|]. right. left. repeat split; try done; eauto.
  - eexists. split; [done|]. right. left. repeat split; try done; eauto.
Qed.

(** When the model answers the metadata call with text that parses to a JSON
    value other than an object, a list for one, the response of
    [/api/chat/stream] has no done event: after the chunk events the
    generator raises the [AttributeError] of a value without a method [get],
    outside every handler. *)
Theorem stream_endpoint_breaks_on_non_object_metadata (meta_prompt : str)
    (messages : list MessageItem) (model : option str) (attachments : list AttachmentItem)
    (useSearch : bool) (response : option str) (v : json) :
  let run :=
    Streaming.chat_stream b64decode openai_create_stream gemini_generate_content_stream
      llm (request_messages messages) CHAT_STREAM_SYSTEM_PROMPT model
      (request_attachments attachments) useSearch in
  raised run = None ->
  _extract_json json_loads (default [] response) = Ok v ->
  (forall members, v <> JObj members) ->
  let out :=
    event_generator json_loads b64decode (answering response) (answering response)
      openai_create_stream gemini_generate_content_stream llm str_of_exn
      meta_prompt messages model attachments useSearch in
  out = Events (map chunk_event (yielded run)) RaisedAttributeError
  /\ existsb is_done_event (emitted out) = false.
Proof.
  cbv zeta. intros Hr Hv Hobj. unfold event_generator. cbv zeta. rewrite Hr.
  rewrite chat_answered.
  2:{ unfold reaches_provider. cbv zeta.
      destruct (completed_stream_routed _ _ _ _ _ Hr) as [H|H]; [by left|right].
      split; [done|]. eexists. apply build_gemini_contents_ok. constructor. }
  rewrite Hv.
  assert (Hnone : existsb is_done_event
                    (map chunk_event
                       (yielded (Streaming.chat_stream b64decode openai_create_stream
                                   gemini_generate_content_stream llm
                                   (request_messages messages) CHAT_STREAM_SYSTEM_PROMPT
                                   model (request_attachments attachments) useSearch)))
                  = false).
  { generalize (yielded (Streaming.chat_stream b64decode openai_create_stream
                           gemini_generate_content_stream llm (request_messages messages)
                           CHAT_STREAM_SYSTEM_PROMPT model
                           (request_attachments attachments) useSearch)).
    intros chunks. induction chunks as [|c chunks IH]; [done|]. exact IH. }
  destruct v as [| | | | | |members]; try (split; [done|exact Hnone]).
  by destruct (Hobj members).
Qed.

(** The done event of a Gemini stream that completes carries the text of the
    whole stream of the provider: the chunks the route passed on, joined, are
    the texts of the provider's chunks, joined. *)
Theorem stream_endpoint_done_carries_stream_text (meta_prompt : str)
    (messages : list MessageItem) (model : option str) (attachments : list AttachmentItem)
    (useSearch : bool) (contents : list Content) (response : stream gemini_chunk)
    (r : str) (topic concepts : json) :
  LLMRouter._resolve_provider llm (LLMRouter.effective_model model) = lit "gemini" ->
  _build_gemini_contents b64decode (request_messages messages)
    (request_attachments attachments) = Ok contents ->
  gemini_generate_content_stream
    (GeminiCall (LLMRouter.effective_model model) contents
       (_build_gemini_config CHAT_STREAM_SYSTEM_PROMPT (LLMRouter.effective_model model)
          false useSearch))
  = inr response ->
  In (done_event r topic concepts)
     (emitted (event_generator json_loads b64decode openai_create gemini_generate_content
                 openai_create_stream gemini_generate_content_stream llm str_of_exn
                 meta_prompt messages model attachments useSearch)) ->
  r = gemini_stream_text response /\ stream_fault response = None.
Proof.
  intros Hp Hc Hs. unfold event_generator. cbv zeta.
  assert (Hrun : Streaming.chat_stream b64decode openai_create_stream
                   gemini_generate_content_stream llm (request_messages messages)
                   CHAT_STREAM_SYSTEM_PROMPT model (request_attachments attachments)
                   useSearch
                 = Generated (flat_map (fun chunk => yield_if_truthy (chunk_text chunk))
                                       (stream_items response))
                             (ProviderError <$> stream_fault response)).
  { unfold Streaming.chat_stream. cbv zeta. rewrite Hp.
    change (str_eqb (lit "gemini") (lit "openai")) with false. rewrite str_eqb_refl.
    unfold Streaming._gemini_stream. by rewrite Hc, Hs. }
  rewrite Hrun. cbn [yielded raised].
  destruct (yielded_chunks (fun chunk => yield_if_truthy (chunk_text chunk))
              (fun chunk => default [] (chunk_text chunk)) (stream_items response)
              (fun chunk => yield_if_truthy_spec (chunk_text chunk))) as [_ Hjoin].
  fold (gemini_stream_text response) in Hjoin.
  set (chunks := flat_map _ (stream_items response)) in *.
  assert (Hchunks : ~ In (done_event r topic concepts) (map chunk_event chunks)).
  { intros (c & Hc' & _)%in_map_iff. discriminate Hc'. }
  destruct (stream_fault response) as [fault|]; cbn [fmap option_fmap option_map].
  { intros [H|[H|[]]]%in_app_or; [done|discriminate H]. }
  destruct (match LLMRouter.chat _ _ _ _ _ _ _ _ _ _ _ with Ok v => v | Raise _ => _ end)
    as [| | | | | |members]; cbn [emitted]; try done.
  intros [H|[H|[]]]%in_app_or; [done|].
  injection H as <- _ _. by rewrite Hjoin.
Qed.

End ChatRoutesTheory.

Lemma stream_endpoint_breaks_on_non_object_metadata_witness :
  let stream_call : gemini_call -> str + stream gemini_chunk :=
    fun _ => inr (Stream [GeminiChunk (Some (lit "Answer"))] None) in
  let out :=
    event_generator Json.loads Base64.b64decode (answering (Some (lit "[]")))
      (answering (Some (lit "[]"))) (fun _ => inl []) stream_call
      (LLMRouter.Make (lit "gemini")) (fun _ => []) (lit "meta")
      [MkMessageItem (lit "user") (lit "hi")] None [] false in
  out = Events [chunk_event (lit "Answer")] RaisedAttributeError
  /\ existsb is_done_event (emitted out) = false.
Proof.
  cbv zeta.
  apply (stream_endpoint_breaks_on_non_object_metadata Json.loads Base64.b64decode
           (fun _ => inl [])
           (fun _ => inr (Stream [GeminiChunk (Some (lit "Answer"))] None))
           (LLMRouter.Make (lit "gemini")) (fun _ => []) (lit "meta")
           [MkMessageItem (lit "user") (lit "hi")] None [] false (Some (lit "[]")) (JArr [])).
  - reflexivity.
  - vm_compute. reflexivity.
  - intros members. discriminate.
Defined.

Lemma stream_endpoint_done_carries_stream_text_witness :
  lit "Hello" = gemini_stream_text
                  (Stream [GeminiChunk (Some (lit "Hel")); GeminiChunk None;
                           GeminiChunk (Some (lit "lo"))] None)
  /\ @None str = None.
Proof.
  apply (stream_endpoint_done_carries_stream_text Json.loads Base64.b64decode
           (answering (Some (lit "{}"))) (answering (Some (lit "{}")))
           (fun _ => inl [])
           (fun _ => inr (Stream [GeminiChunk (Some (lit "Hel")); GeminiChunk None;
                                  GeminiChunk (Some (lit "lo"))] None))
           (LLMRouter.Make (lit "gemini")) (fun _ => []) (lit "meta")
           [MkMessageItem (lit "user") (lit "hi")] None [] false
           [MkContent (lit "user") [Part_from_text (lit "hi")]]
           (Stream [GeminiChunk (Some (lit "Hel")); GeminiChunk None;
                    GeminiChunk (Some (lit "lo"))] None)
           (lit "Hello") (JObj []) (JArr [])).
  - reflexivity.
  - reflexivity.
  - reflexivity.
  - vm_compute. right. right. left. reflexivity.
Defined.

(** ** The cases of the test suite

    The inputs of [tests/test_llm_router.py] and [tests/test_embeddings.py],
    run through the definitions above. *)

Example test_plain_json :
  _extract_json Json.loads (lit "{" ++ quoted (lit "key") ++ lit ": " ++ quoted (lit "value") ++ lit "}")
  = Ok (JObj [(lit "key", JStr (lit "value"))]).
Proof. vm_compute. reflexivity. Qed.

Example test_json_with_code_fence :
  _extract_json Json.loads
    (lit "```json" ++ [newline] ++ lit "{" ++ quoted (lit "key") ++ lit ": "
     ++ quoted (lit "value") ++ lit "}" ++ [newline] ++ lit "```")
  = Ok (JObj [(lit "key", JStr (lit "value"))]).
Proof. vm_compute. reflexivity. Qed.

Example test_json_with_plain_fence :
  _extract_json Json.loads
    (lit "```" ++ [newline] ++ lit "{" ++ quoted (lit "key") ++ lit ": "
     ++ quoted (lit "value") ++ lit "}" ++ [newline] ++ lit "```")
  = Ok (JObj [(lit "key", JStr (lit "value"))]).
Proof. vm_compute. reflexivity. Qed.

Example test_json_embedded_in_text :
  _extract_json Json.loads
    (lit "Result:" ++ [newline] ++ lit "{" ++ quoted (lit "key") ++ lit ": "
     ++ quoted (lit "value") ++ lit "}" ++ [newline] ++ lit "Done.")
  = Ok (JObj [(lit "key", JStr (lit "value"))]).
Proof. vm_compute. reflexivity. Qed.

Example test_json_with_whitespace :
  _extract_json Json.loads
    (lit "  " ++ [newline] ++ lit "  {" ++ quoted (lit "key") ++ lit ": "
     ++ quoted (lit "value") ++ lit "}  " ++ [newline] ++ lit "  ")
  = Ok (JObj [(lit "key", JStr (lit "value"))]).
Proof. vm_compute. reflexivity. Qed.

Example test_invalid_json_raises :
  _extract_json Json.loads (lit "not json at all")
  = Raise (ValueError (lit "Could not extract JSON from: not json at all")).
Proof. vm_compute. reflexivity. Qed.

Example test_empty_string_raises :
  _extract_json Json.loads [] = Raise (ValueError (lit "Empty response from LLM")).
Proof. vm_compute. reflexivity. Qed.

Example test_whitespace_only_raises :
  _extract_json Json.loads (lit "   " ++ [newline; 9%N] ++ lit "  ")
  = Raise (ValueError (lit "Empty response from LLM")).
Proof. vm_compute. reflexivity. Qed.

Example test_nested_json :
  _extract_json Json.loads
    (lit "{" ++ quoted (lit "outer") ++ lit ": {" ++ quoted (lit "inner") ++ lit ": [1, 2, 3]}}")
  = Ok (JObj [(lit "outer", JObj [(lit "inner", JArr [JInt 1; JInt 2; JInt 3])])]).
Proof. vm_compute. reflexivity. Qed.

Example test_json_with_numbers :
  _extract_json Json.loads
    (lit "{" ++ quoted (lit "int") ++ lit ": 42, " ++ quoted (lit "float") ++ lit ": 3.14, "
     ++ quoted (lit "neg") ++ lit ": -1}")
  = Ok (JObj [(lit "int", JInt 42); (lit "float", JFloat (lit "3.14")); (lit "neg", JInt (-1))]).
Proof. vm_compute. reflexivity. Qed.

Example test_json_surrounded_by_markdown :
  _extract_json Json.loads
    (lit "Here is the output:" ++ [newline; newline] ++ lit "```json" ++ [newline]
     ++ lit "{" ++ quoted (lit "result") ++ lit ": " ++ quoted (lit "ok") ++ lit "}"
     ++ [newline] ++ lit "```" ++ [newline; newline] ++ lit "End.")
  = Ok (JObj [(lit "result", JStr (lit "ok"))]).
Proof. vm_compute. reflexivity. Qed.

Example test_json_with_trailing_text :
  _extract_json Json.loads (lit "Here is the JSON: {" ++ quoted (lit "first") ++ lit ": 1}")
  = Ok (JObj [(lit "first", JInt 1)]).
Proof. vm_compute. reflexivity. Qed.

Example test_json_with_special_chars :
  _extract_json Json.loads
    (lit "{" ++ quoted (lit "text") ++ lit ": "
     ++ quoted (lit "he said " ++ [backslash; dquote] ++ lit "hello" ++ [backslash; dquote])
     ++ lit "}")
  = Ok (JObj [(lit "text", JStr (lit "he said " ++ quoted (lit "hello")))]).
Proof. vm_compute. reflexivity. Qed.

Example test_just_a_number : _extract_json Json.loads (lit "42") = Ok (JInt 42).
Proof. vm_compute. reflexivity. Qed.

(** A reply that is not JSON, in a call of the classification kind: the
    fallback mapping with the raw text. *)
Example fallback_on_plain_text :
  LLMRouter.chat Json.loads Base64.b64decode
    (answering (Some (lit "not json"))) (answering (Some (lit "not json")))
    (LLMRouter.__init__ None None) [Message 0 (lit "user") (lit "hi")] (lit "sys")
    true None None false
  = Ok (fallback_mapping (lit "not json")).
Proof. vm_compute. reflexivity. Qed.

(** A reply cut short inside its JSON: the response value is salvaged, its
    escapes restored. *)
Example fallback_salvages_response :
  _fallback_response
    (lit "{" ++ quoted (lit "response") ++ lit ": "
     ++ quoted (lit "line1" ++ [backslash; 110%N] ++ lit "a " ++ [backslash; dquote]
                ++ lit "b" ++ [backslash; dquote])
     ++ lit ", " ++ quoted (lit "topic") ++ lit ": {")
  = fallback_mapping (lit "line1" ++ [newline] ++ lit "a " ++ quoted (lit "b")).
Proof. vm_compute. reflexivity. Qed.

Example test_attachment_only_on_last_message :
  _build_gemini_contents Base64.b64decode
    [Message 0 (lit "user") (lit "q1"); Message 1 (lit "assistant") (lit "a1");
     Message 2 (lit "user") (lit "q2")]
    (Some [Attachment (Some (lit "image/jpeg")) (lit "aW1n")])
  = Ok [MkContent (lit "user") [Part_from_text (lit "q1")];
        MkContent (lit "model") [Part_from_text (lit "a1")];
        MkContent (lit "user") [Part_from_text (lit "q2");
                                Part_from_bytes (lit "img") (lit "image/jpeg")]].
Proof. vm_compute. reflexivity. Qed.

Example test_openai_with_image_attachment :
  _build_openai_messages [Message 0 (lit "user") (lit "What is this?")] (lit "sys")
    (Some [Attachment (Some (lit "image/jpeg")) (lit "ZmFrZQ==")])
  = [OpenAIMessage (lit "system") (content_str (lit "sys"));
     OpenAIMessage (lit "user")
       (content_parts [text_part (lit "What is this?");
                       image_url_part (lit "data:image/jpeg;base64,ZmFrZQ==")])].
Proof. vm_compute. reflexivity. Qed.

Example test_gemini3_has_thinking_config :
  thinking_budget (_build_gemini_config (lit "sys") (lit "gemini-3-flash-preview") true false)
  = Some 1024%Z
  /\ thinking_budget (_build_gemini_config (lit "sys") (lit "gemini-2.5-flash") true false)
     = None.
Proof. vm_compute. split; reflexivity. Qed.

Example test_candidates_without_embeddings :
  rank_output dot_seq norm_seq [1%float] 0
    (<[0 := OList [1; 2; 3]]>
       (<[1 := ODict (<[lit "id" := VStr (lit "a")]> ∅)]>
          (<[2 := ODict (candidate "b" VNone)]>
             (<[3 := ODict (candidate "c" (VVec []))]> ∅))))
  = Ok [].
Proof. vm_compute. reflexivity. Qed.

Example test_zero_vector :
  cosine_similarity dot_seq norm_seq [0%float; 0%float] [1%float; 2%float] = Ok 0%float
  /\ cosine_similarity dot_seq norm_seq [1%float; 2%float] [0%float; 0%float] = Ok 0%float
  /\ cosine_similarity dot_seq norm_seq [0%float; 0%float] [0%float; 0%float] = Ok 0%float.
Proof. vm_compute. repeat split; reflexivity. Qed.

Example test_identical_and_opposite :
  cosine_similarity dot_seq norm_seq [5%float] [3%float] = Ok 1%float
  /\ cosine_similarity dot_seq norm_seq [5%float] [(-3)%float] = Ok (-1)%float.
Proof. vm_compute. split; reflexivity. Qed.

(** test_llm_router.py, streaming *)

Example test_stream_skips_empty_chunks :
  yielded
    (Streaming.chat_stream Base64.b64decode (fun _ => inl [])
       (fun _ => inr (Stream [GeminiChunk (Some (lit "Hello")); GeminiChunk (Some []);
                              GeminiChunk None; GeminiChunk (Some (lit " end"))] None))
       (LLMRouter.Make (lit "gemini")) [Message 0 (lit "user") (lit "hi")] (lit "sys")
       None None false)
  = [lit "Hello"; lit " end"].
Proof. vm_compute. reflexivity. Qed.

Example test_openai_stream_skips_empty_deltas :
  yielded
    (Streaming.chat_stream Base64.b64decode
       (fun _ => inr (Stream [OpenAIChunk [MkChoice (Some (MkDelta (Some (lit "A"))))];
                              OpenAIChunk [MkChoice (Some (MkDelta None))];
                              OpenAIChunk []] None))
       (fun _ => inl [])
       (LLMRouter.Make (lit "openai")) [Message 0 (lit "user") (lit "hi")] (lit "sys")
       (Some (lit "gpt-5-mini-2025-08-07")) None false)
  = [lit "A"].
Proof. vm_compute. reflexivity. Qed.

(** test_embeddings.py, the service *)

Example test_unknown_provider_raises :
  EmbeddingService.embed_text (fun _ _ => inr []) (fun _ _ => inr [])
    (EmbeddingService.__init__ (Some (lit "unknown")) None) (lit "test")
  = Raise (ValueError (lit "Unknown embedding provider: unknown")).
Proof. vm_compute. reflexivity. Qed.

(** test_api.py, the streaming route *)

Example test_stream_metadata_fallback_on_meta_failure :
  emitted
    (event_generator Json.loads Base64.b64decode (fun _ => inl (lit "meta fail"))
       (fun _ => inl (lit "meta fail")) (fun _ => inl [])
       (fun _ => inr (Stream [GeminiChunk (Some (lit "ok"))] None))
       (LLMRouter.Make (lit "gemini")) (fun _ => []) (lit "meta")
       [MkMessageItem (lit "user") (lit "hi")] None [] false)
  = [chunk_event (lit "ok");
     done_event (lit "ok")
       (JObj [(lit "name", JStr []); (lit "matchedExistingId", JNull);
              (lit "confidence", JInt 0)])
       (JArr [])].
Proof. vm_compute. reflexivity. Qed.

(** *** The outcomes of the library calls *)

Example test_b64decode_not_ascii :
  Base64.b64decode [233%N] = inl NotAscii
  /\ Base64.b64decode (lit "a") = inl Incorrect
  /\ Base64.b64decode (lit "aW1n") = inr (lit "img").
Proof. vm_compute. repeat split. Qed.

Example test_gemini_contents_not_ascii_attachment :
  _build_gemini_contents Base64.b64decode [Message 0 (lit "user") (lit "look")]
    (Some [Attachment (Some (lit "image/png")) (lit "aW1n");
           Attachment (Some (lit "image/png")) [233%N];
           Attachment (Some (lit "image/png")) (lit "a")])
  = Raise (ValueError (lit "string argument should contain only ASCII characters")).
Proof. vm_compute. reflexivity. Qed.

Example test_gemini_contents_incorrect_attachment :
  _build_gemini_contents Base64.b64decode [Message 0 (lit "user") (lit "look")]
    (Some [Attachment (Some (lit "image/png")) (lit "a")])
  = Raise BinasciiError.
Proof. vm_compute. reflexivity. Qed.

Example test_json_loads_integer_beyond_limit :
  Json.loads (repeat 49%N 4301)
  = Raise (ValueError (lit "Exceeds the limit (4300 digits) for integer string conversion: value has 4301 digits; use sys.set_int_max_str_digits() to increase the limit"))
  /\ _extract_json Json.loads (repeat 49%N 4301) = Json.loads (repeat 49%N 4301)
  /\ LLMRouter.chat Json.loads Base64.b64decode
       (answering (Some (repeat 49%N 4301))) (answering (Some (repeat 49%N 4301)))
       (LLMRouter.Make (lit "gemini")) [Message 0 (lit "user") (lit "hi")] (lit "sys")
       true None None false
     = Ok (fallback_mapping (repeat 49%N 4301)).
Proof. vm_compute. repeat split. Qed.

Example test_cosine_similarity_other_dimension :
  cosine_similarity dot_seq norm_seq [1%float; 0%float] [1%float; 2%float; 3%float]
  = Raise (ValueError (lit "shapes (2,) and (3,) not aligned: 2 (dim 0) != 3 (dim 0)")).
Proof. vm_compute. reflexivity. Qed.
